(** * Vehiql: car listings, wishlist and dealership settings

    A shallow embedding of the server actions of the car marketplace
    (the car-listing actions [getCarFilters], [getCars], [toggleSavedCar],
    [getCarById], [getSavedCars], the settings actions [getDealershipInfo],
    [saveWorkingHours], [getUsers], [updateUserRole] and the homepage
    action [getFeaturedCars]) together with the part of the Prisma schema
    they query.

    Layout:
    - [Js]      the JavaScript values the actions compute with
                (numbers and their rounding, truthiness, [parseFloat],
                [Math.ceil]);
    - [Schema]  the rows of prisma/schema.prisma;
    - [Action]  the world the actions run in (store, session, clock) and
                the state-and-exception monad that threads it;
    - [Prisma]  the ORM queries the actions issue, as operations of that
                monad over lists of rows;
    - [Result], [CarListing], [Settings], [Home]
                what the actions return, and the actions themselves,
                statement by statement;
    - [Spec]    the vocabulary of the properties, [Sample] a small
                dealership for the examples;
    - the properties. *)

From Stdlib Require Import ZArith QArith Qround Qminmax String Ascii OrdersEx.
From stdpp Require Import base option list strings gmap sorting pretty.

(** ** JavaScript values *)

Module Js.

(** A JavaScript number.  A finite double is held by its decimal form, the
    decimal of fewest digits that reads back as that double: it is what
    [Number.prototype.toString] and [JSON.stringify] print, and so the
    decimal that reaches the database when the number is a bound of a
    query.  The negative zero is not represented.  Every comparison the
    actions make on numbers is made by the database on decimals, and the
    page arithmetic is on integers. *)
Inductive number : Type :=
  | NaN
  | Infinity (negative : bool)
  | Finite (q : Q).

Definition of_Z (z : Z) : number := Finite (inject_Z z).

(** [ToBoolean]: [NaN] and zero are falsy, the empty string is falsy. *)
Definition number_truthy (n : number) : bool :=
  match n with
  | NaN => false
  | Infinity _ => true
  | Finite q => negb (Qeq_bool q 0)
  end.

Definition string_truthy (s : string) : bool := negb (String.eqb s "").

(** The TypeScript type [string | number] of [minPrice] and [maxPrice]. *)
Inductive string_or_number : Type :=
  | Str (s : string)
  | Num (n : number).

Definition truthy (v : string_or_number) : bool :=
  match v with
  | Str s => string_truthy s
  | Num n => number_truthy n
  end.

(** [a || b] on numbers. *)
Definition or_else (a b : number) : number :=
  if number_truthy a then a else b.

(** *** [parseFloat]

    The longest prefix of the trimmed input that is a [StrDecimalLiteral]:
    an optional sign, then [Infinity], or digits with an optional fraction
    and an optional exponent.  No such prefix gives [NaN]; the decimal read
    is rounded to the nearest double. *)

Definition isWhiteSpace (c : ascii) : bool :=
  let n := N_of_ascii c in
  ((9 <=? n) && (n <=? 13) || (n =? 32))%N.

Fixpoint skipWhiteSpace (s : string) : string :=
  match s with
  | String c s' => if isWhiteSpace c then skipWhiteSpace s' else s
  | EmptyString => s
  end.

Definition digit (c : ascii) : option Z :=
  let n := Z.of_N (N_of_ascii c) in
  if ((48 <=? n) && (n <=? 57))%Z then Some (n - 48)%Z else None.

(** Reads a run of decimal digits onto the accumulator [acc]; returns the
    value, the number of digits read and the rest of the string. *)
Fixpoint DecimalDigits (s : string) (acc : Z) (n : nat) : Z * nat * string :=
  match s with
  | String c s' =>
      match digit c with
      | Some d => DecimalDigits s' (10 * acc + d)%Z (S n)
      | None => (acc, n, s)
      end
  | EmptyString => (acc, n, s)
  end.

Definition Sign (s : string) : bool * string :=
  match s with
  | String "-" s' => (true, s')
  | String "+" s' => (false, s')
  | _ => (false, s)
  end.

(** An exponent is read only when at least one digit follows the [e]. *)
Definition ExponentPart (s : string) : Z :=
  match s with
  | String c s' =>
      if (Ascii.eqb c "e" || Ascii.eqb c "E")%bool then
        let '(neg, s'') := Sign s' in
        let '(e, n, _) := DecimalDigits s'' 0 0 in
        match n with
        | O => 0
        | S _ => if neg then - e else e
        end%Z
      else 0%Z
  | EmptyString => 0%Z
  end.

(** [m * 10 ^ e] as a rational. *)
Definition scale10 (m e : Z) : Q :=
  if (0 <=? e)%Z then inject_Z (m * 10 ^ e) else Qmake m (Z.to_pos (10 ^ (- e))).

(** *** Doubles

    The value of a numeric literal is the double nearest to the decimal
    written, ties to even, and [Infinity] beyond the largest double. *)

(** [m * 2 ^ e] as a rational. *)
Definition scale2 (m e : Z) : Q :=
  if (0 <=? e)%Z then inject_Z (m * 2 ^ e) else Qmake m (Z.to_pos (2 ^ (- e))).

Definition Qlt_bool (a b : Q) : bool := negb (Qle_bool b a).

(** The exponent of the leading bit of a positive rational: the [e] with
    [2 ^ e <= q < 2 ^ (e + 1)]. *)
Definition ilog2 (q : Q) : Z :=
  let e := (Z.log2 (Qnum q) - Z.log2 (Z.pos (Qden q)))%Z in
  if Qlt_bool q (scale2 1 e) then (e - 1)%Z else e.

(** A rational rounded to the nearest integer, ties to even. *)
Definition round_half_even (q : Q) : Z :=
  let n := Qnum q in
  let d := Z.pos (Qden q) in
  let k := (n / d)%Z in
  match (2 * (n mod d) ?= d)%Z with
  | Lt => k
  | Gt => (k + 1)%Z
  | Eq => if Z.even k then k else (k + 1)%Z
  end.

(** A finite double that is not negative: [m * 2 ^ e] with [m < 2 ^ 53]
    and [-1074 <= e <= 971], and [2 ^ 52 <= m] unless [e = -1074]. *)
Definition double : Type := (Z * Z)%type.

(** The double nearest to a positive rational, ties to even; [None] when
    that is beyond the largest double. *)
Definition to_double (q : Q) : option double :=
  let e := Z.max (ilog2 q - 52) (-1074) in
  let m := round_half_even (q / scale2 1 e) in
  let '(m, e) := if (m =? 2 ^ 53)%Z then (2 ^ 52, e + 1)%Z else (m, e) in
  if (971 <? e)%Z then None else Some (m, e).

Definition double_eqb (a b : option double) : bool :=
  match a, b with
  | Some (m, e), Some (m', e') => (m =? m')%Z && (e =? e')%Z
  | None, None => true
  | _, _ => false
  end.

(** The exponent of the leading decimal digit of a positive rational: the
    [p] with [10 ^ p <= q < 10 ^ (p + 1)], searched from a first guess. *)
Fixpoint ilog10_from (fuel : nat) (q : Q) (p : Z) : Z :=
  match fuel with
  | O => p
  | S fuel =>
      if Qlt_bool q (scale10 1 p) then ilog10_from fuel q (p - 1)
      else if Qle_bool (scale10 1 (p + 1)) q then ilog10_from fuel q (p + 1)
      else p
  end.

Definition ilog10 (q : Q) : Z := ilog10_from 400 q (ilog2 q * 30103 / 100000).

(** The decimals of [k] digits next to [x], below and above, that read
    back as the double [d]: of two, the one nearer to [x], and the even
    one when they are as near. *)
Definition decimal_of_digits (x : Q) (d : option double) (p k : Z) : option Q :=
  let e := (p + 1 - k)%Z in
  let s := Qfloor (x / scale10 1 e) in
  let lo := scale10 s e in
  let hi := scale10 (s + 1) e in
  match double_eqb (to_double lo) d, double_eqb (to_double hi) d with
  | true, true =>
      match (x - lo ?= hi - x)%Q with
      | Lt => Some lo
      | Gt => Some hi
      | Eq => Some (if Z.even s then lo else hi)
      end
  | true, false => Some lo
  | false, true => Some hi
  | false, false => None
  end.

(** Seventeen digits tell any two doubles apart. *)
Fixpoint shortest_from (fuel : nat) (x : Q) (d : option double) (p k : Z) : Q :=
  match fuel with
  | O => x
  | S fuel =>
      match decimal_of_digits x d p k with
      | Some c => c
      | None => shortest_from fuel x d p (k + 1)
      end
  end.

(** The decimal form of the double nearest to a positive rational; [None]
    beyond the largest double, and 0 for what rounds to zero. *)
Definition decimal_form (q : Q) : option Q :=
  match to_double q with
  | None => None
  | Some (m, e) =>
      if (m =? 0)%Z then Some 0%Q
      else
        let x := scale2 m e in
        Some (shortest_from 17 x (Some (m, e)) (ilog10 x) 1)
  end.

(** The number a decimal [q >= 0] read with the sign [neg] stands for. *)
Definition of_decimal (neg : bool) (q : Q) : number :=
  if Qeq_bool q 0 then Finite 0
  else
    match decimal_form q with
    | None => Infinity neg
    | Some d => Finite (if neg then Qopp d else d)
    end.

Definition parseFloat_string (input : string) : number :=
  let s := skipWhiteSpace input in
  let '(neg, s) := Sign s in
  if String.prefix "Infinity" s then Infinity neg else
  let '(i, ni, s) := DecimalDigits s 0 0 in
  let '(f, nf, s) :=
    match s with
    | String "." s' => DecimalDigits s' i 0
    | _ => (i, O, s)
    end in
  match (ni + nf)%nat with
  | O => NaN
  | S _ => of_decimal neg (scale10 f (ExponentPart s - Z.of_nat nf))
  end.

(** [parseFloat] applies [ToString] to its argument first, and a number
    printed by [ToString] parses back to itself. *)
Definition parseFloat (v : string_or_number) : number :=
  match v with
  | Str s => parseFloat_string s
  | Num n => n
  end.

(** *** Arithmetic *)

(** [Number.MAX_SAFE_INTEGER]: up to it the integers are doubles, and
    their sums, differences and products that stay within it are exact. *)
Definition MAX_SAFE_INTEGER : Z := (2 ^ 53 - 1)%Z.

Definition is_negative (q : Q) : bool := negb (Qle_bool 0 q).

(** [a / b].  The quotient of two numbers is kept as it is, not rounded:
    the actions divide a count by [limit] and take [Math_ceil] of the
    quotient, which for integers up to [MAX_SAFE_INTEGER] is the same
    integer either way. *)
Definition div (a b : number) : number :=
  match a, b with
  | NaN, _ | _, NaN => NaN
  | Infinity _, Infinity _ => NaN
  | Infinity s, Finite y => Infinity (xorb s (is_negative y))
  | Finite _, Infinity _ => Finite 0
  | Finite x, Finite y =>
      if Qeq_bool y 0
      then (if Qeq_bool x 0 then NaN else Infinity (is_negative x))
      else Finite (x / y)
  end.

Definition Math_ceil (a : number) : number :=
  match a with
  | Finite q => of_Z (Qceiling q)
  | _ => a
  end.

End Js.

(** ** The rows of prisma/schema.prisma *)

Module Schema.

Definition DateTime : Type := Z.
(** [Decimal @db.Decimal(10, 2)]: an exact decimal, here a rational. *)
Definition Decimal : Type := Q.

Inductive UserRole : Type := USER | ADMIN.
Inductive CarStatus : Type := AVAILABLE | UNAVAILABLE | SOLD.
Inductive DayOfWeek : Type :=
  MONDAY | TUESDAY | WEDNESDAY | THURSDAY | FRIDAY | SATURDAY | SUNDAY.
Inductive BookingStatus : Type :=
  PENDING | CONFIRMED | COMPLETED | CANCELLED | NO_SHOW.

#[global] Instance UserRole_eq_dec : EqDecision UserRole.
Proof. solve_decision. Defined.
#[global] Instance CarStatus_eq_dec : EqDecision CarStatus.
Proof. solve_decision. Defined.
#[global] Instance DayOfWeek_eq_dec : EqDecision DayOfWeek.
Proof. solve_decision. Defined.
#[global] Instance BookingStatus_eq_dec : EqDecision BookingStatus.
Proof. solve_decision. Defined.

(** Postgres orders an enum by the position of its labels. *)
Definition DayOfWeek_index (d : DayOfWeek) : nat :=
  match d with
  | MONDAY => 0 | TUESDAY => 1 | WEDNESDAY => 2 | THURSDAY => 3
  | FRIDAY => 4 | SATURDAY => 5 | SUNDAY => 6
  end.

Module User.
Record t : Type := mk {
  id : string;
  clerkUserId : string;
  email : string;
  name : option string;
  imageUrl : option string;
  phone : option string;
  createdAt : DateTime;
  updatedAt : DateTime;
  role : UserRole;
}.
End User.

Module Car.
Record t : Type := mk {
  id : string;
  brand : string;
  model : string;
  year : Z;
  price : Decimal;
  mileage : string;
  color : string;
  fuelType : string;
  transmission : string;
  bodyType : string;
  seats : option Z;
  description : string;
  status : CarStatus;
  featured : bool;
  images : list string;
  createdAt : DateTime;
  updatedAt : DateTime;
}.
End Car.

Module DealershipInfo.
Record t : Type := mk {
  id : string;
  name : string;
  address : string;
  phone : string;
  email : string;
  createdAt : DateTime;
  updatedAt : DateTime;
}.
End DealershipInfo.

Module WorkingHour.
Record t : Type := mk {
  id : string;
  dealershipId : string;
  dayOfWeek : DayOfWeek;
  openTime : string;
  closeTime : string;
  isOpen : bool;
  createdAt : DateTime;
  updatedAt : DateTime;
}.
End WorkingHour.

Module UserSavedCar.
Record t : Type := mk {
  id : string;
  userId : string;
  carId : string;
  savedAt : DateTime;
}.
End UserSavedCar.

Module TestDriveBooking.
Record t : Type := mk {
  id : string;
  carId : string;
  userId : string;
  bookingDate : DateTime;
  startTime : string;
  endTime : string;
  status : BookingStatus;
  notes : option string;
  createdAt : DateTime;
  updatedAt : DateTime;
}.
End TestDriveBooking.

(** The tables, each in insertion order. *)
Record Store : Type := mkStore {
  users : list User.t;
  cars : list Car.t;
  dealershipInfos : list DealershipInfo.t;
  workingHours : list WorkingHour.t;
  userSavedCars : list UserSavedCar.t;
  testDriveBookings : list TestDriveBooking.t;
}.

End Schema.

(** ** The world of a server action *)

Module Action.
Import Schema.

(** What an action can observe and change: the database, the Clerk session
    of the request ([auth()] returns its [userId], absent when the caller
    is not signed in), the clock and the identifiers still to be drawn for
    [@default(now())] and [@default(uuid())], and the paths handed to
    [revalidatePath]. *)
Record World : Type := mkWorld {
  db : Store;
  session : option string;
  clock : DateTime;
  uuids : nat;
  revalidated : list string;
}.

(** A thrown value: an [Error] of the action itself, or a request the
    Prisma client refused, with its error code. *)
Inductive exn : Type :=
  | Error (message : string)
  | PrismaError (code : string) (message : string).

Inductive completion (A : Type) : Type :=
  | Normal (a : A)
  | Abrupt (e : exn).
Arguments Normal {A} a.
Arguments Abrupt {A} e.

Definition Action (A : Type) : Type := World → completion A * World.

#[global] Instance Action_ret : MRet Action := λ A a w, (Normal a, w).
#[global] Instance Action_bind : MBind Action := λ A B f m w,
  match m w with
  | (Normal a, w') => f a w'
  | (Abrupt e, w') => (Abrupt e, w')
  end.

Definition throw {A} (e : exn) : Action A := λ w, (Abrupt e, w).

(** [try { body } catch (error) { handler }]: what the body did to the
    world before it threw stays done. *)
Definition try_catch {A} (body : Action A) (handler : exn → Action A) : Action A :=
  λ w, match body w with
       | (Normal a, w') => (Normal a, w')
       | (Abrupt e, w') => handler e w'
       end.

Definition gets {A} (f : World → A) : Action A := λ w, (Normal (f w), w).
Definition modify_db (f : Store → Store) : Action unit := λ w,
  (Normal tt, mkWorld (f (db w)) (session w) (clock w) (uuids w) (revalidated w)).

(** [auth()]: the [userId] of the session.  The id of a signed-in caller
    is not empty, so [if (userId)] and [if (!userId)] test its presence. *)
Definition auth : Action (option string) := gets session.

Definition now : Action DateTime := gets clock.

(** [uuid()]: the next identifier of the supply. *)
Definition uuid : Action string := λ w,
  (Normal ("uuid-" +:+ pretty (uuids w)),
   mkWorld (db w) (session w) (clock w) (S (uuids w)) (revalidated w)).

Definition revalidatePath (path : string) : Action unit := λ w,
  (Normal tt, mkWorld (db w) (session w) (clock w) (uuids w) (revalidated w ++ [path])).

(** Modelled from the spec: [getErrorMessage] of lib/errors, which is not
    among the sources; the message that surfaces to the caller (section 7)
    is taken to be the message of the error caught. *)
Definition getErrorMessage (e : exn) : string :=
  match e with
  | Error message => message
  | PrismaError _ message => message
  end.

(** [for (const x of xs) { await body(x) }]. *)
Fixpoint for_of {A} (xs : list A) (body : A → Action unit) : Action unit :=
  match xs with
  | [] => mret tt
  | x :: xs' => body x ;; for_of xs' body
  end.

(** [await Promise.all(xs.map(f))] in order, or the rows of a joined
    query one after the other: the results of [f] on the members. *)
Fixpoint mapM {A B} (f : A → Action B) (xs : list A) : Action (list B) :=
  match xs with
  | [] => mret []
  | x :: xs' => y ← f x; ys ← mapM f xs'; mret (y :: ys)
  end.

End Action.

(** ** The Prisma client

    The queries of the generated client that the actions call, over the
    tables of [Store].  What is fixed here is the client's documented
    behaviour: a field of a [where] object that is [undefined] puts no
    condition on that field; [take] and [skip] are 64-bit integers; a
    negative [skip] is refused; a negative [take] counts from the end of
    the ordered rows; a text condition with [mode: "insensitive"] is an
    [ILIKE] of the database, whose pattern is the text as given; a unique
    constraint refuses a duplicate (P2002); a foreign key refuses a
    dangling reference (P2003); [update] and [delete] of a row that does
    not exist are refused (P2025).

    The database does not say in which order it returns rows whose sort
    keys are equal, nor that it is the same from one query to the next;
    here [orderBy] is a merge sort, which fixes one such order.  The
    properties below that speak of an order either hold for every order of
    the rows with equal keys, or ask for keys that are all different. *)

Module Prisma.
Import Schema Action.

Inductive SortOrder : Type := asc | desc.
(** [mode]: [case_sensitive] is the client's "default". *)
Inductive QueryMode : Type := case_sensitive | insensitive.

(** A condition on a text column. *)
Inductive StringFilter : Type :=
  | contains (s : string) (mode : QueryMode)
  | equals (s : string) (mode : QueryMode).

Definition toLowerCase_ascii (c : ascii) : ascii :=
  let n := N_of_ascii c in
  if ((65 <=? n) && (n <=? 90))%N then ascii_of_N (n + 32) else c.

Fixpoint toLowerCase (s : string) : string :=
  match s with
  | String c s' => String (toLowerCase_ascii c) (toLowerCase s')
  | EmptyString => EmptyString
  end.

Fixpoint includes (needle hay : string) : bool :=
  String.prefix needle hay ||
  match hay with
  | String _ hay' => includes needle hay'
  | EmptyString => false
  end.

Definition fold_case (mode : QueryMode) (s : string) : string :=
  match mode with
  | case_sensitive => s
  | insensitive => toLowerCase s
  end.

(** The escape character of [LIKE], the backslash. *)
Definition escape : ascii := Eval cbv in ascii_of_N 92.

(** [text LIKE pattern]: in the pattern [%] stands for any run of
    characters, [_] for any one character, and a backslash takes the
    character after it as it is. *)
Fixpoint like (pattern : string) : string → bool :=
  match pattern with
  | EmptyString => λ text, match text with EmptyString => true | _ => false end
  | String p pattern' =>
      if Ascii.eqb p "%" then
        fix any (text : string) : bool :=
          like pattern' text
          || match text with
             | String _ text' => any text'
             | EmptyString => false
             end
      else if Ascii.eqb p "_" then
        λ text, match text with
                | String _ text' => like pattern' text'
                | EmptyString => false
                end
      else if Ascii.eqb p escape then
        match pattern' with
        | String q pattern'' =>
            λ text, match text with
                    | String c text' => Ascii.eqb q c && like pattern'' text'
                    | EmptyString => false
                    end
        | EmptyString => λ _, false
        end
      else
        λ text, match text with
                | String c text' => Ascii.eqb p c && like pattern' text'
                | EmptyString => false
                end
  end.

(** A pattern must not end with the escape character.  The database
    raises this error when a row brings the match to that last backslash;
    here such a pattern is refused whatever the rows are, and no property
    below is about a query refused for it. *)
Fixpoint like_valid (pattern : string) : bool :=
  match pattern with
  | EmptyString => true
  | String p pattern' =>
      if Ascii.eqb p escape then
        match pattern' with
        | String _ pattern'' => like_valid pattern''
        | EmptyString => false
        end
      else like_valid pattern'
  end.

(** The pattern of a condition: the text itself for [equals], the text
    between two [%] for [contains].  The client does not escape the text,
    so that a [%], a [_] or a backslash in it has its meaning in [LIKE]. *)
Definition StringFilter_pattern (f : StringFilter) : string :=
  match f with
  | contains s mode => fold_case mode ("%" +:+ s +:+ "%")
  | equals s mode => fold_case mode s
  end.

(** With [mode: "insensitive"] the condition is [ILIKE], the [LIKE] of the
    pattern and the text in lower case; the case of letters outside ASCII
    is not folded here.  In the default mode [equals] is the equality of
    the database and [contains] is [LIKE]. *)
Definition StringFilter_matches (f : StringFilter) (v : string) : bool :=
  match f with
  | equals s case_sensitive => String.eqb s v
  | contains s mode | equals s mode => like (StringFilter_pattern f) (fold_case mode v)
  end.

Definition StringFilter_valid (f : StringFilter) : bool :=
  match f with
  | equals s case_sensitive => true
  | _ => like_valid (StringFilter_pattern f)
  end.

(** A condition on a decimal column, [{ gte, lte }]. *)
Record DecimalFilter : Type := mkDecimalFilter {
  gte : option Js.number;
  lte : option Js.number;
}.

(** A bound reaches the database as a decimal: only a finite number is
    one, anything else is refused by the client. *)
Definition bound_valid (n : option Js.number) : bool :=
  match n with
  | Some (Js.Finite _) | None => true
  | Some _ => false
  end.

Definition Decimal_gte (d : Decimal) (n : option Js.number) : bool :=
  match n with
  | None => true
  | Some (Js.Finite q) => Qle_bool q d
  | Some _ => false
  end.

Definition Decimal_lte (d : Decimal) (n : option Js.number) : bool :=
  match n with
  | None => true
  | Some (Js.Finite q) => Qle_bool d q
  | Some _ => false
  end.

Definition DecimalFilter_matches (f : DecimalFilter) (d : Decimal) : bool :=
  Decimal_gte d (gte f) && Decimal_lte d (lte f).

(** [undefined] in a [where] object: no condition. *)
Definition holds {F A} (matches : F → A → bool) (f : option F) (a : A) : bool :=
  match f with
  | None => true
  | Some f => matches f a
  end.

(** The conditions of a [CarWhereInput] on the columns of a row, all of
    which must hold, and its [OR] list, one of whose members must hold. *)
Module CarWhere.
Record t : Type := mk {
  status : option CarStatus;
  brand : option StringFilter;
  model : option StringFilter;
  description : option StringFilter;
  bodyType : option StringFilter;
  fuelType : option StringFilter;
  transmission : option StringFilter;
  price : option DecimalFilter;
}.
Definition empty : t := mk None None None None None None None None.
End CarWhere.

Record CarWhereInput : Type := mkCarWhereInput {
  fields : CarWhere.t;
  OR : option (list CarWhere.t);
}.

Definition CarWhere_matches (w : CarWhere.t) (c : Car.t) : bool :=
  holds (λ s c, bool_decide (Car.status c = s)) (CarWhere.status w) c
  && holds StringFilter_matches (CarWhere.brand w) (Car.brand c)
  && holds StringFilter_matches (CarWhere.model w) (Car.model c)
  && holds StringFilter_matches (CarWhere.description w) (Car.description c)
  && holds StringFilter_matches (CarWhere.bodyType w) (Car.bodyType c)
  && holds StringFilter_matches (CarWhere.fuelType w) (Car.fuelType c)
  && holds StringFilter_matches (CarWhere.transmission w) (Car.transmission c)
  && holds DecimalFilter_matches (CarWhere.price w) (Car.price c).

Definition CarWhereInput_matches (w : CarWhereInput) (c : Car.t) : bool :=
  CarWhere_matches (fields w) c
  && holds (λ alternatives c, existsb (λ a, CarWhere_matches a c) alternatives) (OR w) c.

(** The bounds of a condition are decimals. *)
Definition CarWhere_bounds_valid (w : CarWhere.t) : bool :=
  match CarWhere.price w with
  | None => true
  | Some f => bound_valid (gte f) && bound_valid (lte f)
  end.

(** The patterns of a condition are patterns of [LIKE]. *)
Definition CarWhere_patterns_valid (w : CarWhere.t) : bool :=
  holds (λ f _, StringFilter_valid f) (CarWhere.brand w) tt
  && holds (λ f _, StringFilter_valid f) (CarWhere.model w) tt
  && holds (λ f _, StringFilter_valid f) (CarWhere.description w) tt
  && holds (λ f _, StringFilter_valid f) (CarWhere.bodyType w) tt
  && holds (λ f _, StringFilter_valid f) (CarWhere.fuelType w) tt
  && holds (λ f _, StringFilter_valid f) (CarWhere.transmission w) tt.

Definition CarWhereInput_all (valid : CarWhere.t → bool) (w : CarWhereInput) : bool :=
  valid (fields w)
  && match OR w with
     | None => true
     | Some alternatives => forallb valid alternatives
     end.

(** A [where] the client and the database accept. *)
Definition CarWhereInput_valid (w : CarWhereInput) : bool :=
  CarWhereInput_all CarWhere_bounds_valid w && CarWhereInput_all CarWhere_patterns_valid w.

(** The columns the actions order by or take distinct values of. *)
Inductive CarField : Type :=
  | brand | bodyType | fuelType | transmission | price | createdAt.

Definition Car_leb (f : CarField) (a b : Car.t) : bool :=
  match f with
  | brand => String.leb (Car.brand a) (Car.brand b)
  | bodyType => String.leb (Car.bodyType a) (Car.bodyType b)
  | fuelType => String.leb (Car.fuelType a) (Car.fuelType b)
  | transmission => String.leb (Car.transmission a) (Car.transmission b)
  | price => Qle_bool (Car.price a) (Car.price b)
  | createdAt => (Car.createdAt a <=? Car.createdAt b)%Z
  end.

Definition Car_eqb (f : CarField) (a b : Car.t) : bool :=
  Car_leb f a b && Car_leb f b a.

(** The order of [orderBy: { f: o }] on rows. *)
Definition Car_order (o : CarField * SortOrder) : relation Car.t :=
  λ a b,
    match o.2 with
    | asc => Car_leb o.1 a b = true
    | desc => Car_leb o.1 b a = true
    end.

#[global] Instance Car_order_dec o a b : Decision (Car_order o a b).
Proof. unfold Car_order. destruct o.2; apply _. Defined.

(** [distinct: [f]]: of the rows that agree on [f], the first one;
    [seen] holds the rows already kept. *)
Fixpoint distinct_from {A} (eqb : A → A → bool) (seen l : list A) : list A :=
  match l with
  | [] => []
  | x :: l' =>
      if existsb (eqb x) seen then distinct_from eqb seen l'
      else x :: distinct_from eqb (x :: seen) l'
  end.

Definition distinct_on {A} (eqb : A → A → bool) (l : list A) : list A :=
  distinct_from eqb [] l.

(** [skip] and [take] on the ordered rows.  A negative [take] reads the
    rows from the end: the order is reversed, rows are skipped and taken,
    and the rows taken are put back in order. *)
Definition paginate {A} (take_ skip_ : option Z) (l : list A) : list A :=
  let k := Z.to_nat (default 0%Z skip_) in
  match take_ with
  | None => drop k l
  | Some n =>
      if (0 <=? n)%Z then take (Z.to_nat n) (drop k l)
      else reverse (take (Z.abs_nat n) (drop k (reverse l)))
  end.

Definition skip_valid (skip_ : option Z) : bool :=
  match skip_ with
  | Some k => (0 <=? k)%Z
  | None => true
  end.

(** [take] and [skip] are 64-bit integers: the client refuses a number
    outside of them, as it refuses one that is not an integer. *)
Definition Int_valid (n : option Z) : bool :=
  match n with
  | Some k => ((- 2 ^ 63 <=? k) && (k <? 2 ^ 63))%Z
  | None => true
  end.

Definition ValidationError {A} (message : string) : Action A :=
  throw (PrismaError "validation" message).
Definition KnownRequestError {A} (code message : string) : Action A :=
  throw (PrismaError code message).

(** What refuses a [where] that is not valid: the client a bound that is
    no decimal, before the query is sent, and the database a pattern. *)
Definition CarWhereInput_error (w : CarWhereInput) : exn :=
  if CarWhereInput_all CarWhere_bounds_valid w
  then PrismaError "unknown" "LIKE pattern must not end with escape character"
  else PrismaError "validation" "Invalid value provided for a Decimal argument".

(** *** [db.car] *)

Record CarFindManyArgs : Type := mkCarFindManyArgs {
  where_ : CarWhereInput;
  orderBy : option (CarField * SortOrder);
  distinct : option CarField;
  take_ : option Z;
  skip_ : option Z;
}.

(** The rows a [where] selects. *)
Definition car_rows (w : CarWhereInput) (st : Store) : list Car.t :=
  filter (λ c, CarWhereInput_matches w c) (cars st).

(** [orderBy]: the rows sorted; which of two rows with equal keys comes
    first is the choice of the merge sort, not of the database. *)
Definition car_ordered (o : option (CarField * SortOrder)) (l : list Car.t) : list Car.t :=
  match o with
  | Some o => merge_sort (Car_order o) l
  | None => l
  end.

Definition car_distinct (d : option CarField) (l : list Car.t) : list Car.t :=
  match d with
  | Some f => distinct_on (Car_eqb f) l
  | None => l
  end.

Definition db_car_findMany (args : CarFindManyArgs) : Action (list Car.t) :=
  if negb (CarWhereInput_valid (where_ args)) then
    throw (CarWhereInput_error (where_ args))
  else if negb (Int_valid (take_ args) && Int_valid (skip_ args)) then
    ValidationError "Unable to fit integer value into an INT8 (64-bit signed integer)"
  else if negb (skip_valid (skip_ args)) then
    ValidationError "Invalid value for skip argument: Value can only be positive"
  else
    st ← gets db;
    mret (paginate (take_ args) (skip_ args)
            (car_distinct (distinct args)
               (car_ordered (orderBy args) (car_rows (where_ args) st)))).

Definition db_car_count (w : CarWhereInput) : Action Z :=
  if negb (CarWhereInput_valid w) then
    throw (CarWhereInput_error w)
  else
    st ← gets db;
    mret (Z.of_nat (length (car_rows w st))).

Definition db_car_findUnique (id : string) : Action (option Car.t) :=
  st ← gets db;
  mret (head (filter (λ c, Car.id c = id) (cars st))).

(** [_min] and [_max] of the prices: [null] over no rows. *)
Record PriceAggregate : Type := mkPriceAggregate {
  _min : option Decimal;
  _max : option Decimal;
}.

Definition Decimal_min (l : list Decimal) : option Decimal :=
  match l with
  | [] => None
  | x :: l' => Some (foldr Qmin x l')
  end.

Definition Decimal_max (l : list Decimal) : option Decimal :=
  match l with
  | [] => None
  | x :: l' => Some (foldr Qmax x l')
  end.

Definition db_car_aggregate (w : CarWhereInput) : Action PriceAggregate :=
  if negb (CarWhereInput_valid w) then
    throw (CarWhereInput_error w)
  else
    st ← gets db;
    let prices := Car.price <$> car_rows w st in
    mret (mkPriceAggregate (Decimal_min prices) (Decimal_max prices)).

(** *** [db.user] *)

Definition db_user_findUnique (clerkUserId : string) : Action (option User.t) :=
  st ← gets db;
  mret (head (filter (λ u, User.clerkUserId u = clerkUserId) (users st))).

Definition User_with_role (r : UserRole) (t : DateTime) (u : User.t) : User.t :=
  User.mk (User.id u) (User.clerkUserId u) (User.email u) (User.name u)
    (User.imageUrl u) (User.phone u) (User.createdAt u) t r.

Definition with_users (f : list User.t → list User.t) (st : Store) : Store :=
  mkStore (f (users st)) (cars st) (dealershipInfos st) (workingHours st)
    (userSavedCars st) (testDriveBookings st).

(** The runtime value of a [UserRole] argument is a string. *)
Definition UserRole_of_string (s : string) : option UserRole :=
  if String.eqb s "USER" then Some USER
  else if String.eqb s "ADMIN" then Some ADMIN
  else None.

(** [db.user.update({ where: { id }, data: { role } })]. *)
Definition db_user_update (id role : string) : Action User.t :=
  match UserRole_of_string role with
  | None => ValidationError "Invalid value for argument role"
  | Some r =>
      st ← gets db;
      match head (filter (λ u, User.id u = id) (users st)) with
      | None => KnownRequestError "P2025" "Record to update not found"
      | Some u =>
          t ← now;
          modify_db (with_users
            (fmap (λ x, if decide (User.id x = id) then User_with_role r t x else x)));;
          mret (User_with_role r t u)
      end
  end.

(** *** [db.userSavedCar] *)

Definition with_userSavedCars (f : list UserSavedCar.t → list UserSavedCar.t)
    (st : Store) : Store :=
  mkStore (users st) (cars st) (dealershipInfos st) (workingHours st)
    (f (userSavedCars st)) (testDriveBookings st).

(** The rows with the key [userId_carId]. *)
Definition saved_rows (userId carId : string) (st : Store) : list UserSavedCar.t :=
  filter (λ s, UserSavedCar.userId s = userId ∧ UserSavedCar.carId s = carId)
    (userSavedCars st).

Definition db_userSavedCar_findUnique (userId carId : string)
    : Action (option UserSavedCar.t) :=
  st ← gets db;
  mret (head (saved_rows userId carId st)).

Definition db_userSavedCar_findMany (userId : string) : Action (list UserSavedCar.t) :=
  st ← gets db;
  mret (filter (λ s, UserSavedCar.userId s = userId) (userSavedCars st)).

Definition db_userSavedCar_delete (userId carId : string) : Action UserSavedCar.t :=
  st ← gets db;
  match head (saved_rows userId carId st) with
  | None => KnownRequestError "P2025" "Record to delete does not exist"
  | Some row =>
      modify_db (with_userSavedCars
        (filter (λ s, ¬ (UserSavedCar.userId s = userId ∧ UserSavedCar.carId s = carId))));;
      mret row
  end.

Definition db_userSavedCar_create (userId carId : string) : Action UserSavedCar.t :=
  st ← gets db;
  if bool_decide (filter (λ u, User.id u = userId) (users st) = [])
     || bool_decide (filter (λ c, Car.id c = carId) (cars st) = []) then
    KnownRequestError "P2003" "Foreign key constraint failed"
  else if bool_decide (saved_rows userId carId st ≠ []) then
    KnownRequestError "P2002" "Unique constraint failed on the fields: (userId, carId)"
  else
    id ← uuid;
    t ← now;
    let row := UserSavedCar.mk id userId carId t in
    modify_db (with_userSavedCars (λ rows, rows ++ [row]));;
    mret row.

(** *** [db.testDriveBooking] *)

Record TestDriveBookingWhere : Type := mkTestDriveBookingWhere {
  where_carId : option string;
  where_userId : option string;
  where_status_in : option (list BookingStatus);
}.

Definition TestDriveBooking_matches (w : TestDriveBookingWhere)
    (b : TestDriveBooking.t) : bool :=
  holds (λ id b, bool_decide (TestDriveBooking.carId b = id)) (where_carId w) b
  && holds (λ id b, bool_decide (TestDriveBooking.userId b = id)) (where_userId w) b
  && holds (λ l b, bool_decide (TestDriveBooking.status b ∈ l)) (where_status_in w) b.

(** [orderBy: { createdAt: "desc" }]. *)
Definition newer_first : relation TestDriveBooking.t :=
  λ a b, (TestDriveBooking.createdAt b ≤ TestDriveBooking.createdAt a)%Z.

#[global] Instance newer_first_dec a b : Decision (newer_first a b).
Proof. unfold newer_first. apply _. Defined.

Definition db_testDriveBooking_findFirst_newest (w : TestDriveBookingWhere)
    : Action (option TestDriveBooking.t) :=
  st ← gets db;
  mret (head (merge_sort newer_first
                (filter (λ b, TestDriveBooking_matches w b) (testDriveBookings st)))).

(** *** [db.dealershipInfo] and [db.workingHour] *)

(** A dealership row with [include: { workingHours }]. *)
Record Dealership : Type := mkDealership {
  info : DealershipInfo.t;
  hours : list WorkingHour.t;
}.

Definition by_dayOfWeek : relation WorkingHour.t :=
  λ a b, DayOfWeek_index (WorkingHour.dayOfWeek a) ≤ DayOfWeek_index (WorkingHour.dayOfWeek b).

#[global] Instance by_dayOfWeek_dec a b : Decision (by_dayOfWeek a b).
Proof. unfold by_dayOfWeek. apply _. Defined.

(** [include: { workingHours: true }], or with
    [orderBy: { dayOfWeek: "asc" }] when [ordered]. *)
Definition include_workingHours (ordered : bool) (d : DealershipInfo.t)
    : Action Dealership :=
  st ← gets db;
  let rows := filter (λ h, WorkingHour.dealershipId h = DealershipInfo.id d) (workingHours st) in
  mret (mkDealership d (if ordered then merge_sort by_dayOfWeek rows else rows)).

Definition db_dealershipInfo_findFirst : Action (option DealershipInfo.t) :=
  st ← gets db;
  mret (head (dealershipInfos st)).

Definition db_dealershipInfo_findFirst_include (ordered : bool)
    : Action (option Dealership) :=
  d ← db_dealershipInfo_findFirst;
  match d with
  | None => mret None
  | Some d => r ← include_workingHours ordered d; mret (Some r)
  end.

Definition with_dealershipInfos (f : list DealershipInfo.t → list DealershipInfo.t)
    (st : Store) : Store :=
  mkStore (users st) (cars st) (f (dealershipInfos st)) (workingHours st)
    (userSavedCars st) (testDriveBookings st).

Definition with_workingHours (f : list WorkingHour.t → list WorkingHour.t)
    (st : Store) : Store :=
  mkStore (users st) (cars st) (dealershipInfos st) (f (workingHours st))
    (userSavedCars st) (testDriveBookings st).

(** The [data] of a working-hour [create]. *)
Record WorkingHourCreateInput : Type := mkWorkingHourCreateInput {
  dayOfWeek : DayOfWeek;
  openTime : string;
  closeTime : string;
  isOpen : bool;
}.

Definition db_workingHour_create (data : WorkingHourCreateInput) (dealershipId : string)
    : Action WorkingHour.t :=
  st ← gets db;
  if bool_decide (filter (λ d, DealershipInfo.id d = dealershipId) (dealershipInfos st) = []) then
    KnownRequestError "P2003" "Foreign key constraint failed"
  else if bool_decide (filter (λ h, WorkingHour.dealershipId h = dealershipId
                                    ∧ WorkingHour.dayOfWeek h = dayOfWeek data)
                         (workingHours st) ≠ []) then
    KnownRequestError "P2002" "Unique constraint failed on the fields: (dealershipId, dayOfWeek)"
  else
    id ← uuid;
    t ← now;
    let row := WorkingHour.mk id dealershipId (dayOfWeek data) (openTime data)
                 (closeTime data) (isOpen data) t t in
    modify_db (with_workingHours (λ rows, rows ++ [row]));;
    mret row.

Definition db_workingHour_deleteMany (dealershipId : string) : Action unit :=
  modify_db (with_workingHours (filter (λ h, WorkingHour.dealershipId h ≠ dealershipId))).

(** A write with nested writes is one transaction: when a part of it is
    refused, the database is as before. *)
Definition transaction {A} (m : Action A) : Action A := λ w,
  match m w with
  | (Normal a, w') => (Normal a, w')
  | (Abrupt e, w') =>
      (Abrupt e, mkWorld (db w) (session w) (clock w') (uuids w') (revalidated w'))
  end.

(** The nested [create: hours] of a dealership: one row for each member. *)
Definition create_workingHours (hours : list WorkingHourCreateInput)
    (dealershipId : string) : Action unit :=
  for_of hours (λ h, db_workingHour_create h dealershipId ;; mret tt).

(** [db.dealershipInfo.create] with [workingHours: { create: hours }]; the
    other columns take the defaults of the schema. *)
Definition db_dealershipInfo_create (workingHours_create : list WorkingHourCreateInput)
    (ordered : bool) : Action Dealership :=
  transaction (
    id ← uuid;
    t ← now;
    let d := DealershipInfo.mk id "Autora Motors" "69 Car Street, MH,IN"
               "+91 12345 67890" "contact@autora.com" t t in
    modify_db (with_dealershipInfos (λ rows, rows ++ [d]));;
    create_workingHours workingHours_create id;;
    include_workingHours ordered d).

(** *** Further queries: all users, saved cars with their car, featured cars *)

(** [orderBy: { createdAt: "desc" }] on users. *)
Definition user_newer_first : relation User.t :=
  λ a b, (User.createdAt b ≤ User.createdAt a)%Z.

#[global] Instance user_newer_first_dec a b : Decision (user_newer_first a b).
Proof. unfold user_newer_first. apply _. Defined.

(** [db.user.findMany({ orderBy: { createdAt: "desc" } })]. *)
Definition db_user_findMany_newest : Action (list User.t) :=
  st ← gets db;
  mret (merge_sort user_newer_first (users st)).

(** [orderBy: { savedAt: "desc" }]. *)
Definition saved_newer_first : relation UserSavedCar.t :=
  λ a b, (UserSavedCar.savedAt b ≤ UserSavedCar.savedAt a)%Z.

#[global] Instance saved_newer_first_dec a b : Decision (saved_newer_first a b).
Proof. unfold saved_newer_first. apply _. Defined.

(** A saved-car row with [include: { car: true }]. *)
Record SavedCarWithCar : Type := mkSavedCarWithCar {
  saved_row : UserSavedCar.t;
  saved_car : Car.t;
}.

(** The car of a row; the relation is required, and a row whose car is
    gone makes the client refuse the result. *)
Definition include_car (s : UserSavedCar.t) : Action SavedCarWithCar :=
  st ← gets db;
  match head (filter (λ c, Car.id c = UserSavedCar.carId s) (cars st)) with
  | Some c => mret (mkSavedCarWithCar s c)
  | None =>
      throw (PrismaError "inconsistent"
        "Inconsistent query result: Field car is required to return data, got null instead")
  end.

(** [db.userSavedCar.findMany({ where: { userId }, include: { car: true },
    orderBy: { savedAt: "desc" } })]. *)
Definition db_userSavedCar_findMany_include_car (userId : string)
    : Action (list SavedCarWithCar) :=
  st ← gets db;
  mapM include_car
    (merge_sort saved_newer_first
       (filter (λ s, UserSavedCar.userId s = userId) (userSavedCars st))).

(** [db.car.findMany({ where: { featured, status }, take, orderBy })]: a
    [where] with the [featured] column beside the columns of
    [CarWhereInput]. *)
Definition db_car_findMany_featured (featured : bool) (args : CarFindManyArgs)
    : Action (list Car.t) :=
  if negb (CarWhereInput_valid (where_ args)) then
    throw (CarWhereInput_error (where_ args))
  else if negb (Int_valid (take_ args) && Int_valid (skip_ args)) then
    ValidationError "Unable to fit integer value into an INT8 (64-bit signed integer)"
  else if negb (skip_valid (skip_ args)) then
    ValidationError "Invalid value for skip argument: Value can only be positive"
  else
    st ← gets db;
    mret (paginate (take_ args) (skip_ args)
            (car_distinct (distinct args)
               (car_ordered (orderBy args)
                  (filter (λ c, Car.featured c = featured)
                     (car_rows (where_ args) st))))).

End Prisma.

(** ** What the actions return *)

Module Result.
Import Schema.

(** The discriminated result [{ success: true, ... } | { success: false, error }]. *)
Inductive t (A : Type) : Type :=
  | success (data : A)
  | failure (error : string).
Arguments success {A} data.
Arguments failure {A} error.

(** The string [d.toISOString()]; it determines the instant [d]. *)
Inductive ISOString : Type := toISOString (d : DateTime).

(** Modelled from the spec: [serializeCarData(car, wishlisted)] of
    lib/helper, which is not among the sources.  Section 4.1 has it turn
    the price into a plain number and the timestamps into date-time
    strings, and sections 4.3 and 4.5 have the listing carry the wishlist
    flag it is given; the one-argument copy in actions/home.ts does the
    same with [...car], [price], [createdAt] and [updatedAt]. *)
Record SerializedCar : Type := mkSerializedCar {
  car : Car.t;
  price : Js.number;
  createdAt : ISOString;
  updatedAt : ISOString;
  wishlisted : bool;
}.

Definition serializeCarData (car : Car.t) (wishlisted : bool) : SerializedCar :=
  mkSerializedCar car (Js.Finite (Car.price car))
    (toISOString (Car.createdAt car)) (toISOString (Car.updatedAt car)) wishlisted.

End Result.

(** ** The car-listing actions (actions/carListing) *)

Module CarListing.
Import Schema Action Prisma Result.

Record PriceRange : Type := mkPriceRange {
  min : Js.number;
  max : Js.number;
}.

Record CarFilters : Type := mkCarFilters {
  brands : list string;
  bodyTypes : list string;
  fuelTypes : list string;
  transmissions : list string;
  priceRange : PriceRange;
}.

(** [where: { status: "AVAILABLE" }]. *)
Definition where_available : CarWhereInput :=
  mkCarWhereInput
    (CarWhere.mk (Some AVAILABLE) None None None None None None None) None.

(** [findMany({ where, select: { f: true }, distinct: [f], orderBy: { f: "asc" } })]. *)
Definition distinct_ascending (f : CarField) : CarFindManyArgs :=
  mkCarFindManyArgs where_available (Some (f, asc)) (Some f) None None.

(** [x ? parseFloat(x.toString()) : d] on an aggregate: a [Decimal] object
    is truthy whatever its value, [null] is not. *)
Definition price_or (x : option Decimal) (d : Z) : Js.number :=
  match x with
  | Some p => Js.Finite p
  | None => Js.of_Z d
  end.

Definition getCarFilters : Action CarFilters :=
  try_catch (
    brands ← db_car_findMany (distinct_ascending brand);
    bodyTypes ← db_car_findMany (distinct_ascending bodyType);
    fuelTypes ← db_car_findMany (distinct_ascending fuelType);
    transmissions ← db_car_findMany (distinct_ascending transmission);
    priceAggregations ← db_car_aggregate where_available;
    mret (mkCarFilters
            (Car.brand <$> brands)
            (Car.bodyType <$> bodyTypes)
            (Car.fuelType <$> fuelTypes)
            (Car.transmission <$> transmissions)
            (mkPriceRange
               (price_or (_min priceAggregations) 0)
               (price_or (_max priceAggregations) 100000))))
  (λ error, throw (Error ("Error fetching car filters: " +:+ getErrorMessage error))).

Inductive SortBy : Type := newest | priceAsc | priceDesc.

(** The argument object of [getCars]; an absent property is [None] and
    takes the default of the parameter list.  [page] and [limit] are
    numbers for the source and integers here: a [limit] that is not an
    integer is refused as [take], and a [page] that is not one, such as
    2.5, is not represented.  The arithmetic on them is that of the
    integers, which is that of the source as long as they and their
    product stay below 2 ^ 53. *)
Module GetCarsParams.
Record t : Type := mk {
  search : option string;
  brand : option string;
  bodyType : option string;
  fuelType : option string;
  transmission : option string;
  minPrice : option Js.string_or_number;
  maxPrice : option Js.string_or_number;
  sortBy : option SortBy;
  page : option Z;
  limit : option Z;
}.
Definition search_ (p : t) : string := default "" (search p).
Definition brand_ (p : t) : string := default "" (brand p).
Definition bodyType_ (p : t) : string := default "" (bodyType p).
Definition fuelType_ (p : t) : string := default "" (fuelType p).
Definition transmission_ (p : t) : string := default "" (transmission p).
Definition minPrice_ (p : t) : Js.string_or_number := default (Js.Str "") (minPrice p).
Definition maxPrice_ (p : t) : Js.string_or_number := default (Js.Str "") (maxPrice p).
Definition sortBy_ (p : t) : SortBy := default newest (sortBy p).
Definition page_ (p : t) : Z := default 1%Z (page p).
Definition limit_ (p : t) : Z := default 6%Z (limit p).
End GetCarsParams.

Record Pagination : Type := mkPagination {
  total : Z;
  page : Z;
  limit : Z;
  pages : Js.number;
}.

Record GetCarsResult : Type := mkGetCarsResult {
  data : list SerializedCar;
  pagination : Pagination;
}.

Definition set_OR (alternatives : list CarWhere.t) (w : CarWhereInput) : CarWhereInput :=
  mkCarWhereInput (fields w) (Some alternatives).

Definition set_field (f : CarWhere.t → CarWhere.t) (w : CarWhereInput) : CarWhereInput :=
  mkCarWhereInput (f (fields w)) (OR w).

Definition set_brand (x : StringFilter) (w : CarWhere.t) : CarWhere.t :=
  CarWhere.mk (CarWhere.status w) (Some x) (CarWhere.model w) (CarWhere.description w)
    (CarWhere.bodyType w) (CarWhere.fuelType w) (CarWhere.transmission w) (CarWhere.price w).
Definition set_model (x : StringFilter) (w : CarWhere.t) : CarWhere.t :=
  CarWhere.mk (CarWhere.status w) (CarWhere.brand w) (Some x) (CarWhere.description w)
    (CarWhere.bodyType w) (CarWhere.fuelType w) (CarWhere.transmission w) (CarWhere.price w).
Definition set_description (x : StringFilter) (w : CarWhere.t) : CarWhere.t :=
  CarWhere.mk (CarWhere.status w) (CarWhere.brand w) (CarWhere.model w) (Some x)
    (CarWhere.bodyType w) (CarWhere.fuelType w) (CarWhere.transmission w) (CarWhere.price w).
Definition set_bodyType (x : StringFilter) (w : CarWhere.t) : CarWhere.t :=
  CarWhere.mk (CarWhere.status w) (CarWhere.brand w) (CarWhere.model w) (CarWhere.description w)
    (Some x) (CarWhere.fuelType w) (CarWhere.transmission w) (CarWhere.price w).
Definition set_fuelType (x : StringFilter) (w : CarWhere.t) : CarWhere.t :=
  CarWhere.mk (CarWhere.status w) (CarWhere.brand w) (CarWhere.model w) (CarWhere.description w)
    (CarWhere.bodyType w) (Some x) (CarWhere.transmission w) (CarWhere.price w).
Definition set_transmission (x : StringFilter) (w : CarWhere.t) : CarWhere.t :=
  CarWhere.mk (CarWhere.status w) (CarWhere.brand w) (CarWhere.model w) (CarWhere.description w)
    (CarWhere.bodyType w) (CarWhere.fuelType w) (Some x) (CarWhere.price w).
Definition set_price (x : DecimalFilter) (w : CarWhere.t) : CarWhere.t :=
  CarWhere.mk (CarWhere.status w) (CarWhere.brand w) (CarWhere.model w) (CarWhere.description w)
    (CarWhere.bodyType w) (CarWhere.fuelType w) (CarWhere.transmission w) (Some x).

(** [where.price.lte = x], on the price condition set just before. *)
Definition set_price_lte (x : Js.number) (w : CarWhere.t) : CarWhere.t :=
  set_price (mkDecimalFilter (default None (gte <$> CarWhere.price w)) (Some x)) w.

(** "Build where conditions": the [where] of a call, assignment by
    assignment. *)
Definition getCars_where (p : GetCarsParams.t) : CarWhereInput :=
  let search := GetCarsParams.search_ p in
  let brand := GetCarsParams.brand_ p in
  let bodyType := GetCarsParams.bodyType_ p in
  let fuelType := GetCarsParams.fuelType_ p in
  let transmission := GetCarsParams.transmission_ p in
  let minPrice := GetCarsParams.minPrice_ p in
  let maxPrice := GetCarsParams.maxPrice_ p in
  let where_ := where_available in
  let where_ :=
    if Js.string_truthy search then
      set_OR [ set_brand (contains search insensitive) CarWhere.empty;
               set_model (contains search insensitive) CarWhere.empty;
               set_description (contains search insensitive) CarWhere.empty ] where_
    else where_ in
  let where_ :=
    if Js.string_truthy brand
    then set_field (set_brand (equals brand insensitive)) where_ else where_ in
  let where_ :=
    if Js.string_truthy bodyType
    then set_field (set_bodyType (equals bodyType insensitive)) where_ else where_ in
  let where_ :=
    if Js.string_truthy fuelType
    then set_field (set_fuelType (equals fuelType insensitive)) where_ else where_ in
  let where_ :=
    if Js.string_truthy transmission
    then set_field (set_transmission (equals transmission insensitive)) where_ else where_ in
  let where_ :=
    set_field (set_price (mkDecimalFilter
      (Some (Js.or_else (Js.parseFloat minPrice) (Js.of_Z 0))) None)) where_ in
  let where_ :=
    if Js.truthy maxPrice && Js.truthy maxPrice
    then set_field (set_price_lte (Js.parseFloat maxPrice)) where_ else where_ in
  where_.

(** "Determine sort order". *)
Definition getCars_orderBy (sortBy : SortBy) : CarField * SortOrder :=
  match sortBy with
  | priceAsc => (Prisma.price, asc)
  | priceDesc => (Prisma.price, desc)
  | newest => (Prisma.createdAt, desc)
  end.

(** The user row of the caller, when signed in: [auth()] and then
    [db.user.findUnique({ where: { clerkUserId: userId } })]. *)
Definition current_user : Action (option User.t) :=
  userId ← auth;
  match userId with
  | Some userId => db_user_findUnique userId
  | None => mret None
  end.

Definition getCars (p : GetCarsParams.t) : Action GetCarsResult :=
  let page := GetCarsParams.page_ p in
  let limit := GetCarsParams.limit_ p in
  try_catch (
    dbUser ← current_user;
    let where_ := getCars_where p in
    let skip := ((page - 1) * limit)%Z in
    let orderBy := getCars_orderBy (GetCarsParams.sortBy_ p) in
    totalCars ← db_car_count where_;
    cars ← db_car_findMany
              (mkCarFindManyArgs where_ (Some orderBy) None (Some limit) (Some skip));
    wishlisted ←
      match dbUser with
      | Some dbUser =>
          savedCars ← db_userSavedCar_findMany (User.id dbUser);
          mret (list_to_set (UserSavedCar.carId <$> savedCars) : gset string)
      | None => mret ∅
      end;
    let serializedCars :=
      (λ car, serializeCarData car (bool_decide (Car.id car ∈ wishlisted))) <$> cars in
    mret (mkGetCarsResult serializedCars
            (mkPagination totalCars page limit
               (Js.Math_ceil (Js.div (Js.of_Z totalCars) (Js.of_Z limit))))))
  (λ error, throw (Error ("Error fetching cars: " +:+ getErrorMessage error))).

Record ToggleSaved : Type := mkToggleSaved {
  saved : bool;
  message : string;
}.

(** Toggle car in user's wishlist. *)
Definition toggleSavedCar (carId : string) : Action (Result.t ToggleSaved) :=
  try_catch (
    userId ← auth;
    match userId with
    | None => throw (Error "Unauthorized")
    | Some userId =>
        user ← db_user_findUnique userId;
        match user with
        | None => throw (Error "User not found")
        | Some user =>
            car ← db_car_findUnique carId;
            match car with
            | None => mret (failure "Car not found")
            | Some _ =>
                existingSave ← db_userSavedCar_findUnique (User.id user) carId;
                match existingSave with
                | Some _ =>
                    db_userSavedCar_delete (User.id user) carId;;
                    revalidatePath "/saved-cars";;
                    mret (success (mkToggleSaved false "Car removed from favorites"))
                | None =>
                    db_userSavedCar_create (User.id user) carId;;
                    revalidatePath "/saved-cars";;
                    mret (success (mkToggleSaved true "Car added to favorites"))
                end
            end
        end
    end)
  (λ error, throw (Error ("Error toggling saved car: " +:+ getErrorMessage error))).

Record SerializedWorkingHour : Type := mkSerializedWorkingHour {
  hour : WorkingHour.t;
  hour_createdAt : ISOString;
  hour_updatedAt : ISOString;
}.

Record SerializedDealership : Type := mkSerializedDealership {
  dealership : DealershipInfo.t;
  dealership_createdAt : ISOString;
  dealership_updatedAt : ISOString;
  workingHours : list SerializedWorkingHour;
}.

Record UserTestDrive : Type := mkUserTestDrive {
  id : string;
  status : BookingStatus;
  bookingDate : ISOString;
}.

Record TestDriveInfo : Type := mkTestDriveInfo {
  userTestDrive : option UserTestDrive;
  testDrive_dealership : option SerializedDealership;
}.

Record CarDetails : Type := mkCarDetails {
  details : SerializedCar;
  testDriveInfo : TestDriveInfo;
}.

Definition serializeDealership (d : Dealership) : SerializedDealership :=
  mkSerializedDealership (info d)
    (toISOString (DealershipInfo.createdAt (info d)))
    (toISOString (DealershipInfo.updatedAt (info d)))
    ((λ hour, mkSerializedWorkingHour hour
                (toISOString (WorkingHour.createdAt hour))
                (toISOString (WorkingHour.updatedAt hour))) <$> hours d).

(** Get car details by ID.  [dbUser?.id] is [undefined] when there is no
    user row for the caller. *)
Definition getCarById (carId : string) : Action (Result.t CarDetails) :=
  try_catch (
    dbUser ← current_user;
    car ← db_car_findUnique carId;
    match car with
    | None => mret (failure "Car not found")
    | Some car =>
        isWishlisted ←
          match dbUser with
          | Some dbUser =>
              savedCar ← db_userSavedCar_findUnique (User.id dbUser) carId;
              mret (bool_decide (is_Some savedCar))
          | None => mret false
          end;
        existingTestDrive ← db_testDriveBooking_findFirst_newest
          (mkTestDriveBookingWhere (Some carId) (User.id <$> dbUser)
             (Some [PENDING; CONFIRMED; COMPLETED]));
        let userTestDrive :=
          match existingTestDrive with
          | Some existingTestDrive =>
              Some (mkUserTestDrive
                      (TestDriveBooking.id existingTestDrive)
                      (TestDriveBooking.status existingTestDrive)
                      (toISOString (TestDriveBooking.bookingDate existingTestDrive)))
          | None => None
          end in
        dealership ← db_dealershipInfo_findFirst_include false;
        mret (success (mkCarDetails (serializeCarData car isWishlisted)
                         (mkTestDriveInfo userTestDrive (serializeDealership <$> dealership))))
    end)
  (λ error, mret (failure ("Error fetching car details: " +:+ getErrorMessage error))).

(** Get user's saved cars. *)
Definition getSavedCars : Action (Result.t (list SerializedCar)) :=
  try_catch (
    userId ← auth;
    match userId with
    | None => mret (failure "Unauthorized")
    | Some userId =>
        user ← db_user_findUnique userId;
        match user with
        | None => mret (failure "User not found")
        | Some user =>
            savedCars ← db_userSavedCar_findMany_include_car (User.id user);
            let cars := (λ saved, serializeCarData (saved_car saved) true) <$> savedCars in
            mret (success cars)
        end
    end)
  (λ error, mret (failure (getErrorMessage error))).

End CarListing.

(** ** The settings actions (src/actions/settings.ts) *)

Module Settings.
Import Schema Action Prisma Result.

Record DealershipData : Type := mkDealershipData {
  dealership : Dealership;
  createdAt : ISOString;
  updatedAt : ISOString;
}.

(** The hours a dealership is created with. *)
Definition default_workingHours : list WorkingHourCreateInput :=
  [ mkWorkingHourCreateInput MONDAY "09:00" "18:00" true;
    mkWorkingHourCreateInput TUESDAY "09:00" "18:00" true;
    mkWorkingHourCreateInput WEDNESDAY "09:00" "18:00" true;
    mkWorkingHourCreateInput THURSDAY "09:00" "18:00" true;
    mkWorkingHourCreateInput FRIDAY "09:00" "18:00" true;
    mkWorkingHourCreateInput SATURDAY "10:00" "16:00" true;
    mkWorkingHourCreateInput SUNDAY "10:00" "16:00" false ].

(** Get dealership info with working hours. *)
Definition getDealershipInfo : Action (Result.t DealershipData) :=
  try_catch (
    userId ← auth;
    match userId with
    | None => throw (Error "Unauthorized")
    | Some _ =>
        dealership ← db_dealershipInfo_findFirst_include true;
        dealership ←
          match dealership with
          | None => db_dealershipInfo_create default_workingHours true
          | Some dealership => mret dealership
          end;
        mret (success (mkDealershipData dealership
                         (toISOString (DealershipInfo.createdAt (info dealership)))
                         (toISOString (DealershipInfo.updatedAt (info dealership)))))
    end)
  (λ error, mret (failure ("Error fetching dealership info" +:+ getErrorMessage error))).

(** "Check if user is admin": the user row of the session, and its role. *)
Definition is_admin (user : option User.t) : bool :=
  match user with
  | Some user => bool_decide (User.role user = ADMIN)
  | None => false
  end.

(** Save working hours. *)
Definition saveWorkingHours (workingHours : list WorkingHour.t) : Action (Result.t unit) :=
  try_catch (
    userId ← auth;
    match userId with
    | None => throw (Error "Unauthorized")
    | Some userId =>
        user ← db_user_findUnique userId;
        if negb (is_admin user) then throw (Error "Unauthorized: Admin access required")
        else
          dealership ← db_dealershipInfo_findFirst;
          match dealership with
          | None => throw (Error "Dealership info not found")
          | Some dealership =>
              db_workingHour_deleteMany (DealershipInfo.id dealership);;
              for_of workingHours (λ hour,
                db_workingHour_create
                  (mkWorkingHourCreateInput (WorkingHour.dayOfWeek hour)
                     (WorkingHour.openTime hour) (WorkingHour.closeTime hour)
                     (WorkingHour.isOpen hour))
                  (DealershipInfo.id dealership);;
                mret tt);;
              revalidatePath "/admin/settings";;
              revalidatePath "/";;
              mret (success tt)
          end
    end)
  (λ error, mret (failure ("Error saving working hours: " +:+ getErrorMessage error))).

(** Update user role.  [role] is the string the client sent. *)
Definition updateUserRole (id role : string) : Action (Result.t unit) :=
  try_catch (
    if negb (Js.string_truthy id) then throw (Error "Missing user")
    else if negb (Js.string_truthy role) then throw (Error "Missing role")
    else
      adminId ← auth;
      match adminId with
      | None => throw (Error "Unauthorized")
      | Some adminId =>
          adminUser ← db_user_findUnique adminId;
          if negb (is_admin adminUser) then throw (Error "Unauthorized: Admin access required")
          else
            db_user_update id role;;
            revalidatePath "/admin/settings";;
            mret (success tt)
      end)
  (λ error, mret (failure ("Error updating user role: " +:+ getErrorMessage error))).

Record SerializedUser : Type := mkSerializedUser {
  user : User.t;
  user_createdAt : ISOString;
  user_updatedAt : ISOString;
}.

(** Get all users. *)
Definition getUsers : Action (Result.t (list SerializedUser)) :=
  try_catch (
    userId ← auth;
    match userId with
    | None => throw (Error "Unauthorized")
    | Some userId =>
        adminUser ← db_user_findUnique userId;
        if negb (is_admin adminUser) then throw (Error "Unauthorized: Admin access required")
        else
          users ← db_user_findMany_newest;
          mret (success ((λ user, mkSerializedUser user
                                    (toISOString (User.createdAt user))
                                    (toISOString (User.updatedAt user))) <$> users))
    end)
  (λ error, mret (failure ("Error fetching users: " +:+ getErrorMessage error))).

End Settings.

(** ** The homepage actions (src/actions/home.ts) *)

Module Home.
Import Schema Action Prisma Result.

Record SerializedCar : Type := mkSerializedCar {
  car : Car.t;
  price : Js.number;
  createdAt : ISOString;
  updatedAt : ISOString;
}.

(** Function to serialize car data.  [car.price] is a [Decimal] object,
    truthy whatever its value; the columns are not nullable. *)
Definition serializeCarData (car : Car.t) : SerializedCar :=
  mkSerializedCar car (Js.Finite (Car.price car))
    (toISOString (Car.createdAt car)) (toISOString (Car.updatedAt car)).

(** [error.message]. *)
Definition message (e : exn) : string :=
  match e with
  | Error message => message
  | PrismaError _ message => message
  end.

(** [where: { featured: true, status: "AVAILABLE" }]. *)
Definition where_available : CarWhereInput :=
  mkCarWhereInput
    (CarWhere.mk (Some AVAILABLE) None None None None None None None) None.

(** Get featured cars for the homepage; [limit] defaults to 3, and is an
    integer here as [limit] is in [getCars]. *)
Definition getFeaturedCars (limit : option Z) : Action (list SerializedCar) :=
  let limit := default 3%Z limit in
  try_catch (
    cars ← db_car_findMany_featured true
              (mkCarFindManyArgs where_available (Some (Prisma.createdAt, desc)) None
                 (Some limit) None);
    mret (serializeCarData <$> cars))
  (λ error, throw (Error ("Error fetching featured cars:" +:+ message error))).

End Home.

(** ** Vocabulary of the properties *)

Module Spec.
Import Schema Action Prisma Result CarListing.

(** The user row of the caller: the row whose [clerkUserId] is the
    [userId] of the session, if there is a session and such a row. *)
Definition caller (w : World) : option User.t :=
  match session w with
  | Some userId => head (filter (λ u, User.clerkUserId u = userId) (users (db w)))
  | None => None
  end.

(** The same world seen by another caller. *)
Definition with_session (s : option string) (w : World) : World :=
  mkWorld (db w) s (clock w) (uuids w) (revalidated w).

(** The match set of a [getCars] call: the rows its [where] selects. *)
Definition matchSet (p : GetCarsParams.t) (st : Store) : list Car.t :=
  car_rows (getCars_where p) st.

Definition skip_of (p : GetCarsParams.t) : Z :=
  ((GetCarsParams.page_ p - 1) * GetCarsParams.limit_ p)%Z.

(** The [take] and the [skip] of a call are 64-bit integers. *)
Definition in_range (p : GetCarsParams.t) : Prop :=
  (- 2 ^ 63 ≤ GetCarsParams.limit_ p < 2 ^ 63)%Z ∧ (- 2 ^ 63 ≤ skip_of p < 2 ^ 63)%Z.

(** The page of a call: the match set, ordered, skipped and taken. *)
Definition page_rows (p : GetCarsParams.t) (st : Store) : list Car.t :=
  paginate (Some (GetCarsParams.limit_ p)) (Some (skip_of p))
    (merge_sort (Car_order (getCars_orderBy (GetCarsParams.sortBy_ p))) (matchSet p st)).

(** The ids of the cars the caller has saved. *)
Definition wishlist (w : World) : gset string :=
  match caller w with
  | Some u =>
      list_to_set (UserSavedCar.carId <$>
        filter (λ s, UserSavedCar.userId s = User.id u) (userSavedCars (db w)))
  | None => ∅
  end.

Definition getCars_result (p : GetCarsParams.t) (w : World) : GetCarsResult :=
  let total := Z.of_nat (length (matchSet p (db w))) in
  mkGetCarsResult
    ((λ car, serializeCarData car (bool_decide (Car.id car ∈ wishlist w)))
       <$> page_rows p (db w))
    (mkPagination total (GetCarsParams.page_ p) (GetCarsParams.limit_ p)
       (Js.Math_ceil (Js.div (Js.of_Z total) (Js.of_Z (GetCarsParams.limit_ p))))).

(** The ceiling of [t / l], for [l] other than zero. *)
Definition ceil_div (t l : Z) : Z := (- ((- t) / l))%Z.

(** A row with another price. *)
Definition Car_with_price (q : Decimal) (c : Car.t) : Car.t :=
  Car.mk (Car.id c) (Car.brand c) (Car.model c) (Car.year c) q (Car.mileage c)
    (Car.color c) (Car.fuelType c) (Car.transmission c) (Car.bodyType c)
    (Car.seats c) (Car.description c) (Car.status c) (Car.featured c)
    (Car.images c) (Car.createdAt c) (Car.updatedAt c).

(** The listings that are for sale. *)
Definition available (st : Store) : list Car.t :=
  filter (λ c, Car.status c = AVAILABLE) (cars st).

(** The order of text values: by character code, position by position. *)
Definition string_le : relation string := λ a b, String.leb a b = true.

(** [l] lists the values [key] takes on the available listings, each
    once, in ascending order. *)
Definition facet (key : Car.t → string) (st : Store) (l : list string) : Prop :=
  (∀ v, v ∈ l ↔ ∃ c, c ∈ available st ∧ key c = v)
  ∧ NoDup l
  ∧ Sorted string_le l.

(** The pair [(userId, carId)] is saved. *)
Definition is_saved (st : Store) (userId carId : string) : bool :=
  bool_decide (saved_rows userId carId st ≠ []).

(** Every working-hour row belongs to a dealership row. *)
Definition workingHours_owned (st : Store) : Prop :=
  ∀ h, h ∈ Schema.workingHours st →
    ∃ d, d ∈ dealershipInfos st ∧ DealershipInfo.id d = WorkingHour.dealershipId h.

(** The rows that creating [hs] for the dealership [dealershipId] at time
    [t] adds, the first with the [n]-th identifier of the supply. *)
Fixpoint created_hours (dealershipId : string) (t : DateTime) (n : nat)
    (hs : list WorkingHourCreateInput) : list WorkingHour.t :=
  match hs with
  | [] => []
  | h :: hs' =>
      WorkingHour.mk ("uuid-" +:+ pretty n) dealershipId (dayOfWeek h) (openTime h)
        (closeTime h) (isOpen h) t t
      :: created_hours dealershipId t (S n) hs'
  end.

(** The dealership row created in the world [w]: the next identifier, the
    defaults of the schema, the time of the clock. *)
Definition default_dealership (w : World) : DealershipInfo.t :=
  DealershipInfo.mk ("uuid-" +:+ pretty (uuids w)) "Autora Motors" "69 Car Street, MH,IN"
    "+91 12345 67890" "contact@autora.com" (clock w) (clock w).

Definition WorkingHour_data (h : WorkingHour.t) : WorkingHourCreateInput :=
  mkWorkingHourCreateInput (WorkingHour.dayOfWeek h) (WorkingHour.openTime h)
    (WorkingHour.closeTime h) (WorkingHour.isOpen h).

(** The same call for another page. *)
Definition with_page (k : Z) (p : GetCarsParams.t) : GetCarsParams.t :=
  GetCarsParams.mk (GetCarsParams.search p) (GetCarsParams.brand p)
    (GetCarsParams.bodyType p) (GetCarsParams.fuelType p) (GetCarsParams.transmission p)
    (GetCarsParams.minPrice p) (GetCarsParams.maxPrice p) (GetCarsParams.sortBy p)
    (Some k) (GetCarsParams.limit p).

(** The match set in the order of the call. *)
Definition ordered_matchSet (p : GetCarsParams.t) (st : Store) : list Car.t :=
  merge_sort (Car_order (getCars_orderBy (GetCarsParams.sortBy_ p))) (matchSet p st).

(** No two rows of [l] have the same sort key: rows that the order puts
    either way round are one row.  The order of [l] is then the same
    whatever the database does with equal keys. *)
Definition keys_differ (o : CarField * SortOrder) (l : list Car.t) : Prop :=
  ∀ a b, a ∈ l → b ∈ l → Car_order o a b → Car_order o b a → a = b.

(** The characters that have a meaning in a pattern of [LIKE]. *)
Definition wildcard (c : ascii) : bool :=
  Ascii.eqb c "%" || Ascii.eqb c "_" || Ascii.eqb c escape.

(** A text with none of them: as a pattern it stands for itself. *)
Fixpoint literal (s : string) : bool :=
  match s with
  | String c s' => negb (wildcard c) && literal s'
  | EmptyString => true
  end.

(** A text made of [%] only. *)
Fixpoint percents (s : string) : bool :=
  match s with
  | String c s' => Ascii.eqb c "%" && percents s'
  | EmptyString => true
  end.

(** The same call with another search text. *)
Definition with_search (s : option string) (p : GetCarsParams.t) : GetCarsParams.t :=
  GetCarsParams.mk s (GetCarsParams.brand p)
    (GetCarsParams.bodyType p) (GetCarsParams.fuelType p) (GetCarsParams.transmission p)
    (GetCarsParams.minPrice p) (GetCarsParams.maxPrice p) (GetCarsParams.sortBy p)
    (GetCarsParams.page p) (GetCarsParams.limit p).

(** Equal but for the case of ASCII letters. *)
Definition same_insensitive (a b : string) : Prop := toLowerCase a = toLowerCase b.

(** [s] occurs in [v], whatever the case. *)
Definition occurs_insensitive (s v : string) : Prop :=
  includes (toLowerCase s) (toLowerCase v) = true.

(** The key of a saved-car row. *)
Definition saved_key (s : UserSavedCar.t) : string * string :=
  (UserSavedCar.userId s, UserSavedCar.carId s).

(** [@@unique([userId, carId])]: no pair is saved twice. *)
Definition saved_unique (st : Store) : Prop :=
  NoDup (saved_key <$> userSavedCars st).

(** The relations of a saved-car row: its user and its car exist. *)
Definition saved_refer (st : Store) : Prop :=
  ∀ s, s ∈ userSavedCars st →
    (∃ u, u ∈ users st ∧ User.id u = UserSavedCar.userId s)
    ∧ (∃ c, c ∈ cars st ∧ Car.id c = UserSavedCar.carId s).

(** The car an id resolves to. *)
Definition car_of_id (st : Store) (carId : string) : option Car.t :=
  head (filter (λ c, Car.id c = carId) (cars st)).

(** The rows a user has saved, newest first. *)
Definition saved_by (st : Store) (userId : string) : list UserSavedCar.t :=
  merge_sort saved_newer_first
    (filter (λ s, UserSavedCar.userId s = userId) (userSavedCars st)).

(** The working hours of a dealership. *)
Definition hours_of (st : Store) (dealershipId : string) : list WorkingHour.t :=
  filter (λ h, WorkingHour.dealershipId h = dealershipId) (Schema.workingHours st).

(** The users after the role of the user [id] has been set to [r] at [t]. *)
Definition users_with_role (id : string) (r : UserRole) (t : DateTime)
    (us : list User.t) : list User.t :=
  (λ x, if decide (User.id x = id) then User_with_role r t x else x) <$> us.

(** The caller passes the admin gate of the settings actions. *)
Definition admin (w : World) : Prop := Settings.is_admin (caller w) = true.

(** The listings for sale that are featured. *)
Definition featured_available (st : Store) : list Car.t :=
  filter (λ c, Car.featured c = true) (available st).

(** Newest first. *)
Definition car_newer_first : relation Car.t :=
  λ a b, (Car.createdAt b ≤ Car.createdAt a)%Z.

(** The bookings of a car by a user that [getCarById] looks at: the ones
    pending, confirmed or completed. *)
Definition own_bookings (st : Store) (userId carId : string) : list TestDriveBooking.t :=
  filter (λ b, TestDriveBooking.userId b = userId
               ∧ TestDriveBooking.carId b = carId
               ∧ TestDriveBooking.status b ∈ [PENDING; CONFIRMED; COMPLETED])
    (testDriveBookings st).

End Spec.

(** ** A small dealership, for the examples *)

Module Sample.
Import Schema Action Prisma Result CarListing.
Local Open Scope Z_scope.

Definition car_ (id brand : string) (price : Z) (status : CarStatus) (t : DateTime) : Car.t :=
  Car.mk id brand "Model" 2020 (inject_Z price) "10000 km" "Red" "Petrol" "Manual" "SUV"
    None "A car" status false [] t t.

Definition admin : User.t :=
  User.mk "u1" "clerk_admin" "admin@example.com" None None None 0 0 ADMIN.
Definition bob : User.t :=
  User.mk "u2" "clerk_bob" "bob@example.com" None None None 0 0 USER.

Definition toyota : Car.t := car_ "c1" "Toyota" 20000 AVAILABLE 1.
Definition honda : Car.t := car_ "c2" "Honda" 10000 AVAILABLE 2.
Definition bmw : Car.t := car_ "c3" "BMW" 50000 SOLD 3.

(** Bob has saved the Toyota and booked a test drive of it. *)
Definition bobs_save : UserSavedCar.t := UserSavedCar.mk "s1" "u2" "c1" 5.
Definition bobs_booking : TestDriveBooking.t :=
  TestDriveBooking.mk "b1" "c1" "u2" 100 "10:00" "11:00" PENDING None 7 7.

Definition store : Store :=
  mkStore [admin; bob] [toyota; honda; bmw] [] [] [bobs_save] [bobs_booking].

Definition world (s : option string) : World := mkWorld store s 1000 0 [].

(** Ten listings for sale. *)
Definition lot : list Car.t :=
  (λ i, car_ ("l" +:+ pretty i) "Kia" (10000 + i) AVAILABLE i) <$> seqZ 0 10.

Definition lot_world : World :=
  mkWorld (mkStore [admin; bob] lot [] [] [] []) None 1000 0 [].

(** A database with no row at all. *)
Definition empty_world (s : option string) : World :=
  mkWorld (mkStore [] [] [] [] [] []) s 1000 0 [].

Definition no_params : GetCarsParams.t :=
  GetCarsParams.mk None None None None None None None None None None.
Definition paged (page limit : Z) : GetCarsParams.t :=
  GetCarsParams.mk None None None None None None None None (Some page) (Some limit).
Definition priced (minPrice maxPrice : option Js.string_or_number) : GetCarsParams.t :=
  GetCarsParams.mk None None None None None minPrice maxPrice None None None.

(** The dealership once an admin has read its info: one dealership row
    with the default hours. *)
Definition open_world : World :=
  (Settings.getDealershipInfo (world (Some "clerk_admin"))).2.

(** A featured listing, and a lot with it. *)
Definition showpiece : Car.t :=
  Car.mk "c4" "Audi" "Model" 2022 (inject_Z 60000) "500 km" "Black" "Petrol" "Automatic"
    "Sedan" None "A car" AVAILABLE true [] 4 4.

Definition featured_world : World :=
  mkWorld (mkStore [admin; bob] [toyota; showpiece; bmw] [] [] [] []) None 1000 0 [].

Definition sorted_by (sortBy : SortBy) : GetCarsParams.t :=
  GetCarsParams.mk None None None None None None None (Some sortBy) None None.

(** Hours as the settings form sends them: open on Sundays, and a second
    entry for the same day. *)
Definition sunday : WorkingHour.t :=
  WorkingHour.mk "" "" SUNDAY "11:00" "15:00" true 0 0.
Definition sunday_late : WorkingHour.t :=
  WorkingHour.mk "" "" SUNDAY "12:00" "20:00" true 0 0.

End Sample.

(** ** Properties *)

Import Schema Action Prisma Result CarListing Spec.
Local Open Scope Z_scope.

(** *** [parseFloat] on a few inputs *)

Example parseFloat_decimal : Js.parseFloat_string "  19999.50abc" = Js.Finite (199995 # 10).
Proof. vm_compute. reflexivity. Qed.
Example parseFloat_exp : Js.parseFloat_string "-1.5e3" = Js.Finite (- inject_Z 1500).
Proof. vm_compute. reflexivity. Qed.
Example parseFloat_rounds :
  Js.parseFloat_string "19999.9999999999999999" = Js.Finite (inject_Z 20000).
Proof. vm_compute. reflexivity. Qed.
Example parseFloat_digits :
  Js.parseFloat_string "0.30000000000000004" = Js.Finite (30000000000000004 # 100000000000000000)
  ∧ Js.parseFloat_string "0.3000000000000000001" = Js.Finite (3 # 10).
Proof. split; vm_compute; reflexivity. Qed.
Example parseFloat_overflow : Js.parseFloat_string "1e400" = Js.Infinity false.
Proof. vm_compute. reflexivity. Qed.
Example parseFloat_underflow : Js.parseFloat_string "1e-400" = Js.Finite 0.
Proof. vm_compute. reflexivity. Qed.
Example parseFloat_empty : Js.parseFloat_string "" = Js.NaN.
Proof. reflexivity. Qed.
Example parseFloat_dot : Js.parseFloat_string ".e5" = Js.NaN.
Proof. reflexivity. Qed.
Example parseFloat_inf : Js.parseFloat_string "-Infinityx" = Js.Infinity true.
Proof. reflexivity. Qed.

(** *** Running the monad *)

Ltac run :=
  repeat (progress (
    cbv [mbind mret Action_bind Action_ret try_catch throw gets auth now
         ValidationError KnownRequestError] in *;
    cbn [fst snd] in * )).

Lemma current_user_run w : current_user w = (Normal (caller w), w).
Proof.
  unfold current_user, caller, db_user_findUnique. run.
  destruct (session w); reflexivity.
Qed.

(** [getCars] in one step: the three ways the queries can be refused,
    and otherwise the result made of the match set. *)
Lemma getCars_run p w :
  getCars p w =
    if CarWhereInput_valid (getCars_where p) then
      if Int_valid (Some (GetCarsParams.limit_ p)) && Int_valid (Some (skip_of p)) then
        if 0 <=? skip_of p then (Normal (getCars_result p w), w)
        else (Abrupt (Error
                "Error fetching cars: Invalid value for skip argument: Value can only be positive"), w)
      else (Abrupt (Error
              "Error fetching cars: Unable to fit integer value into an INT8 (64-bit signed integer)"), w)
    else (Abrupt (Error
            ("Error fetching cars: " +:+
             getErrorMessage (CarWhereInput_error (getCars_where p)))), w).
Proof.
  unfold getCars. run. rewrite current_user_run.
  unfold db_car_count, db_car_findMany. run.
  cbn [where_ skip_ take_ orderBy distinct skip_valid].
  destruct (CarWhereInput_valid (getCars_where p)); cbn [negb]; [|reflexivity].
  fold (skip_of p).
  destruct (Int_valid (Some (GetCarsParams.limit_ p)) && Int_valid (Some (skip_of p)));
    cbn [negb]; [|reflexivity].
  destruct (0 <=? skip_of p); cbn [negb]; [|reflexivity].
  unfold getCars_result, wishlist, page_rows, matchSet, db_userSavedCar_findMany. run.
  destruct (caller w); reflexivity.
Qed.

Lemma Int_valid_spec k : Int_valid (Some k) = true ↔ - 2 ^ 63 ≤ k < 2 ^ 63.
Proof. unfold Int_valid. rewrite andb_true_iff, Z.leb_le, Z.ltb_lt. lia. Qed.

Lemma in_range_spec p :
  Int_valid (Some (GetCarsParams.limit_ p)) && Int_valid (Some (skip_of p)) = true
  ↔ in_range p.
Proof. unfold in_range. by rewrite andb_true_iff, !Int_valid_spec. Qed.

Lemma getCars_returns p w r w' :
  getCars p w = (Normal r, w') →
  r = getCars_result p w ∧ w' = w
  ∧ CarWhereInput_valid (getCars_where p) = true ∧ 0 ≤ skip_of p ∧ in_range p.
Proof.
  rewrite getCars_run.
  destruct (CarWhereInput_valid (getCars_where p)); [|done].
  destruct (Int_valid _ && Int_valid _) eqn:Hr; [|done]. apply in_range_spec in Hr.
  destruct (Z.leb_spec 0 (skip_of p)); [|done].
  intros [= <- <-]. done.
Qed.

Lemma getCars_succeeds p w :
  CarWhereInput_valid (getCars_where p) = true → 0 ≤ skip_of p → in_range p →
  getCars p w = (Normal (getCars_result p w), w).
Proof.
  intros Hv Hs Hr%in_range_spec. rewrite getCars_run, Hv, Hr.
  by destruct (Z.leb_spec 0 (skip_of p)); [|lia].
Qed.

(** *** Pages *)

Section paginate.
Context {A : Type}.
Implicit Types l : list A.


Lemma paginate_subseteq (t s : option Z) l x : x ∈ paginate t s l → x ∈ l.
Proof.
  unfold paginate. destruct t as [n|].
  - destruct (0 <=? n).
    + intros H%subseteq_take%subseteq_drop. done.
    + rewrite elem_of_reverse. intros H%subseteq_take%subseteq_drop.
      by apply elem_of_reverse.
  - apply subseteq_drop.
Qed.

Lemma paginate_beyond (n k : Z) l :
  Z.of_nat (length l) ≤ k → paginate (Some n) (Some k) l = [].
Proof.
  intros Hk. unfold paginate. simpl.
  destruct (0 <=? n).
  - rewrite drop_ge by (simpl; lia). by rewrite take_nil.
  - rewrite drop_ge by (rewrite length_reverse; simpl; lia). by rewrite take_nil.
Qed.
End paginate.

Lemma Qeq_bool_inject_Z_0 (l : Z) : l ≠ 0 → Qeq_bool (inject_Z l) 0 = false.
Proof.
  intros Hl. destruct (Qeq_bool (inject_Z l) 0) eqn:E; [|done].
  apply Qeq_bool_eq in E. unfold Qeq in E. simpl in E. lia.
Qed.

Lemma Qceiling_div (t l : Z) :
  l ≠ 0 → Qceiling (inject_Z t / inject_Z l) = ceil_div t l.
Proof.
  intros Hl. unfold ceil_div, Qceiling, Qfloor, Qdiv, Qmult, Qinv, Qopp, inject_Z.
  destruct l as [|q|q]; [done| |]; cbn [Qnum Qden].
  - rewrite Z.mul_1_r. reflexivity.
  - change (Z.neg q) with (- Z.pos q). rewrite Z.div_opp_opp by lia.
    cbn [Qnum Qden]. f_equal. f_equal. lia.
Qed.

Lemma Math_ceil_div (t l : Z) :
  l ≠ 0 → Js.Math_ceil (Js.div (Js.of_Z t) (Js.of_Z l)) = Js.of_Z (ceil_div t l).
Proof.
  intros Hl. unfold Js.Math_ceil, Js.div, Js.of_Z.
  rewrite Qeq_bool_inject_Z_0 by done. by rewrite Qceiling_div.
Qed.

Lemma ceil_div_bounds (t l : Z) :
  0 < l → (ceil_div t l - 1) * l < t ≤ ceil_div t l * l.
Proof.
  intros Hl. unfold ceil_div.
  pose proof (Z.div_mod (- t) l ltac:(lia)).
  pose proof (Z.mod_pos_bound (- t) l Hl). nia.
Qed.

(** *** The [where] of [getCars] *)

Ltac where_cases p :=
  unfold getCars_where;
  destruct (Js.string_truthy (GetCarsParams.search_ p)),
    (Js.string_truthy (GetCarsParams.brand_ p)),
    (Js.string_truthy (GetCarsParams.bodyType_ p)),
    (Js.string_truthy (GetCarsParams.fuelType_ p)),
    (Js.string_truthy (GetCarsParams.transmission_ p)),
    (Js.truthy (GetCarsParams.maxPrice_ p)).

Lemma getCars_where_price p :
  CarWhere.price (fields (getCars_where p)) =
    Some (mkDecimalFilter
            (Some (Js.or_else (Js.parseFloat (GetCarsParams.minPrice_ p)) (Js.of_Z 0)))
            (if Js.truthy (GetCarsParams.maxPrice_ p)
             then Some (Js.parseFloat (GetCarsParams.maxPrice_ p)) else None)).
Proof. where_cases p; reflexivity. Qed.

Lemma getCars_where_status p :
  CarWhere.status (fields (getCars_where p)) = Some AVAILABLE.
Proof. where_cases p; reflexivity. Qed.

Lemma getCars_where_OR p :
  Forall (λ a, CarWhere.price a = None) (default [] (OR (getCars_where p))).
Proof. where_cases p; cbn; repeat constructor. Qed.

Lemma matchSet_elem p st c :
  c ∈ matchSet p st ↔ c ∈ cars st ∧ CarWhereInput_matches (getCars_where p) c = true.
Proof.
  unfold matchSet, car_rows. rewrite list_elem_of_filter, Is_true_true. tauto.
Qed.

Lemma page_rows_subseteq p st c : c ∈ page_rows p st → c ∈ matchSet p st.
Proof.
  unfold page_rows. intros H%paginate_subseteq.
  by rewrite merge_sort_Permutation in H.
Qed.

Lemma CarWhere_matches_price a c f :
  CarWhere_matches a c = true → CarWhere.price a = Some f →
  DecimalFilter_matches f (Car.price c) = true.
Proof.
  unfold CarWhere_matches. intros H Hf. rewrite Hf in H. cbn [holds] in H.
  by apply andb_prop in H as [_ H].
Qed.

Lemma matches_price p c :
  CarWhereInput_matches (getCars_where p) c = true →
  Decimal_gte (Car.price c)
    (Some (Js.or_else (Js.parseFloat (GetCarsParams.minPrice_ p)) (Js.of_Z 0))) = true
  ∧ Decimal_lte (Car.price c)
      (if Js.truthy (GetCarsParams.maxPrice_ p)
       then Some (Js.parseFloat (GetCarsParams.maxPrice_ p)) else None) = true.
Proof.
  unfold CarWhereInput_matches. intros [H _]%andb_prop.
  eapply CarWhere_matches_price in H; [|apply getCars_where_price].
  by apply andb_prop in H.
Qed.

(** A condition that does not mention the price does not see it. *)
Lemma CarWhere_matches_with_price a c q :
  CarWhere_matches a c = true →
  holds DecimalFilter_matches (CarWhere.price a) q = true →
  CarWhere_matches a (Car_with_price q c) = true.
Proof.
  unfold CarWhere_matches, holds. cbn [Car_with_price Car.status Car.brand Car.model
    Car.description Car.bodyType Car.fuelType Car.transmission Car.price].
  rewrite !andb_true_iff. tauto.
Qed.

Lemma matches_with_price p c q :
  CarWhereInput_matches (getCars_where p) c = true →
  DecimalFilter_matches
    (mkDecimalFilter
       (Some (Js.or_else (Js.parseFloat (GetCarsParams.minPrice_ p)) (Js.of_Z 0)))
       (if Js.truthy (GetCarsParams.maxPrice_ p)
        then Some (Js.parseFloat (GetCarsParams.maxPrice_ p)) else None)) q = true →
  CarWhereInput_matches (getCars_where p) (Car_with_price q c) = true.
Proof.
  unfold CarWhereInput_matches. rewrite !andb_true_iff. intros [Hf Ho] Hq. split.
  - apply CarWhere_matches_with_price; [done|]. by rewrite getCars_where_price.
  - pose proof (getCars_where_OR p) as Hor.
    destruct (OR (getCars_where p)) as [alts|]; [|done]. cbn [holds default] in *.
    apply existsb_exists in Ho as (a & Ha & Hm). apply existsb_exists.
    exists a. split; [done|]. apply CarWhere_matches_with_price; [done|].
    rewrite Forall_forall in Hor. rewrite (Hor a); [done|].
    by apply list_elem_of_In.
Qed.

(** *** [getCars]: pagination *)




(** *** [getCars]: the price predicate *)

(** C3, amended.  A listing of the match set has a price at least the
    lower bound, which is [parseFloat(minPrice)] or 0 when that is [NaN]
    or zero and so 0 when [minPrice] is absent; and at most
    [parseFloat(maxPrice)] whenever [maxPrice] is truthy, that is a
    non-empty string or a number other than zero.  When [maxPrice] is not
    truthy, in particular when it is absent, there is no upper bound: a
    listing of the match set stays in it at any higher price.  The
    listings [getCars] returns are of the match set. *)
Theorem getCars_price_bounds p w c :
  c ∈ matchSet p (db w) →
  (∃ lo, Js.or_else (Js.parseFloat (GetCarsParams.minPrice_ p)) (Js.of_Z 0) = Js.Finite lo
         ∧ (lo <= Car.price c)%Q)
  ∧ (GetCarsParams.minPrice p = None → (0 <= Car.price c)%Q)
  ∧ (Js.truthy (GetCarsParams.maxPrice_ p) = true →
       ∃ hi, Js.parseFloat (GetCarsParams.maxPrice_ p) = Js.Finite hi
             ∧ (Car.price c <= hi)%Q)
  ∧ (Js.truthy (GetCarsParams.maxPrice_ p) = false →
       GetCarsParams.maxPrice_ p = Js.Str "" ∨ GetCarsParams.maxPrice_ p = Js.Num Js.NaN
       ∨ ∃ z, GetCarsParams.maxPrice_ p = Js.Num (Js.Finite z) ∧ (z == 0)%Q)
  ∧ (Js.truthy (GetCarsParams.maxPrice_ p) = false →
       ∀ q, (Car.price c <= q)%Q →
         CarWhereInput_matches (getCars_where p) (Car_with_price q c) = true)
  ∧ (∀ r w', getCars p w = (Normal r, w') →
       ∀ x, x ∈ data r → Result.car x ∈ matchSet p (db w)).
Proof.
  intros [Hc Hm]%matchSet_elem.
  destruct (matches_price p c Hm) as [Hlo Hhi].
  assert (∃ lo, Js.or_else (Js.parseFloat (GetCarsParams.minPrice_ p)) (Js.of_Z 0)
                  = Js.Finite lo ∧ (lo <= Car.price c)%Q) as Hlower.
  { cbn [Decimal_gte] in Hlo.
    destruct (Js.or_else _ _) as [| |lo]; [done..|].
    exists lo. split; [done|]. by apply Qle_bool_iff. }
  split_and!.
  - exact Hlower.
  - intros Hnone. destruct Hlower as (lo & Hlo' & Hle).
    unfold GetCarsParams.minPrice_ in Hlo'. rewrite Hnone in Hlo'.
    cbn in Hlo'. by injection Hlo' as <-.
  - intros Ht. rewrite Ht in Hhi. cbn [Decimal_lte] in Hhi.
    destruct (Js.parseFloat (GetCarsParams.maxPrice_ p)) as [| |hi]; [done..|].
    exists hi. split; [done|]. by apply Qle_bool_iff.
  - intros Ht. destruct (GetCarsParams.maxPrice_ p) as [s|[| |z]]; cbn in Ht.
    + left. unfold Js.string_truthy in Ht. apply negb_false_iff, String.eqb_eq in Ht.
      by subst.
    + by right; left.
    + done.
    + right; right. exists z. split; [done|].
      by apply negb_false_iff, Qeq_bool_iff in Ht.
  - intros Ht q Hq. apply matches_with_price; [done|].
    rewrite Ht. unfold DecimalFilter_matches. cbn [gte lte Decimal_lte].
    rewrite andb_true_r. destruct Hlower as (lo & -> & Hle). cbn [Decimal_gte].
    apply Qle_bool_iff. by apply Qle_trans with (Car.price c).
  - intros r w' (-> & _)%getCars_returns x (c' & -> & Hc')%list_elem_of_fmap.
    cbn. by apply page_rows_subseteq.
Qed.

Lemma getCars_price_bounds_witness :
  Sample.toyota ∈ matchSet
    (Sample.priced (Some (Js.Str "15000")) (Some (Js.Str "25000.50"))) Sample.store
  ∧ (15000 <= Car.price Sample.toyota)%Q
  ∧ (Car.price Sample.toyota <= 2500050 # 100)%Q.
Proof.
  assert (Sample.toyota ∈ matchSet
    (Sample.priced (Some (Js.Str "15000")) (Some (Js.Str "25000.50"))) Sample.store) as Hin.
  { vm_compute. apply list_elem_of_here. }
  destruct (getCars_price_bounds _ (Sample.world None) _ Hin)
    as ((lo & Hlo & Hle) & _ & Hhi & _).
  destruct (Hhi eq_refl) as (hi & Hhi' & Hle').
  split; [exact Hin|]. split.
  - vm_compute in Hlo. injection Hlo as <-. exact Hle.
  - vm_compute in Hhi'. injection Hhi' as <-. exact Hle'.
Defined.

(** C3 as stated fails for [maxPrice = 0], a number: the guard
    [if (maxPrice && maxPrice)] takes it for no bound, and a listing
    priced 20000 is in the match set and is returned. *)
Lemma getCars_maxPrice_zero_counterexample :
  GetCarsParams.maxPrice (Sample.priced None (Some (Js.Num (Js.of_Z 0))))
    = Some (Js.Num (Js.of_Z 0))
  ∧ Sample.toyota ∈ matchSet (Sample.priced None (Some (Js.Num (Js.of_Z 0)))) Sample.store
  ∧ (∃ r, getCars (Sample.priced None (Some (Js.Num (Js.of_Z 0)))) (Sample.world None)
            = (Normal r, Sample.world None)
          ∧ Sample.toyota ∈ Result.car <$> data r)
  ∧ ¬ (Car.price Sample.toyota <= 0)%Q.
Proof.
  split_and!.
  - reflexivity.
  - vm_compute. apply list_elem_of_here.
  - eexists. split; [apply getCars_succeeds; by vm_compute|].
    vm_compute. apply list_elem_of_further, list_elem_of_here.
  - by vm_compute.
Qed.

(** *** [getCars]: pages out of range *)

(** C4, amended.  For [page ≤ 0] and a positive [limit] the [skip] of the
    page fetch, [(page - 1) * limit], is negative; the fetch is refused,
    and [getCars] throws instead of answering as for page 1. *)
Theorem getCars_nonpositive_page p w :
  GetCarsParams.page_ p ≤ 0 → 0 < GetCarsParams.limit_ p →
  skip_of p < 0 ∧ ∃ message, getCars p w = (Abrupt (Error message), w).
Proof.
  intros Hp Hl. assert (skip_of p < 0) as Hs by (unfold skip_of; nia).
  split; [done|]. rewrite getCars_run.
  destruct (CarWhereInput_valid (getCars_where p)); [|eauto].
  destruct (Int_valid _ && Int_valid _); [|eauto].
  destruct (Z.leb_spec 0 (skip_of p)); [lia|eauto].
Qed.

Lemma getCars_nonpositive_page_witness :
  skip_of (Sample.paged 0 6) < 0
  ∧ ∃ message, getCars (Sample.paged 0 6) (Sample.world None)
                 = (Abrupt (Error message), Sample.world None).
Proof.
  apply (getCars_nonpositive_page (Sample.paged 0 6) (Sample.world None)).
  - vm_compute. discriminate.
  - reflexivity.
Defined.

(** C4 as stated fails: page 0 throws where page 1 returns two listings. *)
Lemma getCars_page_zero_counterexample :
  (∃ message, getCars (Sample.paged 0 6) (Sample.world None)
                = (Abrupt (Error message), Sample.world None))
  ∧ (∃ r, getCars (Sample.paged 1 6) (Sample.world None) = (Normal r, Sample.world None)
          ∧ Result.car <$> data r = [Sample.honda; Sample.toyota]).
Proof.
  split; eexists; [by vm_compute|].
  split; [apply getCars_succeeds; by vm_compute|]. by vm_compute.
Qed.

Lemma db_car_count_returns q w total w' :
  db_car_count q w = (Normal total, w') →
  CarWhereInput_valid q = true ∧ total = Z.of_nat (length (car_rows q (db w))) ∧ w' = w.
Proof.
  unfold db_car_count. run. destruct (CarWhereInput_valid q); cbn [negb]; [|done].
  by intros [= <- <-].
Qed.

(** C5, amended.  A page past the last one.  Take a call whose [where]
    the store accepts, [total] being what its count query returns, with
    [page] and [limit] integers, [limit] positive, and [limit] and the
    [skip] of the call, [(page - 1) * limit], no greater than
    [Number.MAX_SAFE_INTEGER].  Then a [page] above the ceiling of
    [total / limit] gets no error but an empty array, with [total] and
    [pages] as for any other page. *)
Theorem getCars_page_out_of_range p w total :
  db_car_count (getCars_where p) w = (Normal total, w) →
  0 < GetCarsParams.limit_ p →
  GetCarsParams.limit_ p ≤ Js.MAX_SAFE_INTEGER →
  skip_of p ≤ Js.MAX_SAFE_INTEGER →
  ceil_div total (GetCarsParams.limit_ p) < GetCarsParams.page_ p →
  getCars p w =
    (Normal (mkGetCarsResult []
               (mkPagination total (GetCarsParams.page_ p) (GetCarsParams.limit_ p)
                  (Js.of_Z (ceil_div total (GetCarsParams.limit_ p))))), w).
Proof.
  intros (Hv & -> & _)%db_car_count_returns Hl Hlmax Hsmax Hp.
  pose proof (ceil_div_bounds (Z.of_nat (length (car_rows (getCars_where p) (db w))))
                _ Hl) as Hb.
  assert (Z.of_nat (length (matchSet p (db w))) ≤ skip_of p) as Hs.
  { unfold skip_of, matchSet. nia. }
  rewrite getCars_succeeds; [|done|lia|].
  - unfold getCars_result, page_rows.
    rewrite paginate_beyond by (by rewrite merge_sort_Permutation).
    rewrite Math_ceil_div by lia. reflexivity.
  - unfold in_range, Js.MAX_SAFE_INTEGER in *. lia.
Qed.

Lemma getCars_page_out_of_range_witness :
  getCars (Sample.paged 3 6) Sample.lot_world =
    (Normal (mkGetCarsResult [] (mkPagination 10 3 6 (Js.of_Z 2))), Sample.lot_world).
Proof.
  apply (getCars_page_out_of_range (Sample.paged 3 6) Sample.lot_world 10).
  - vm_compute. reflexivity.
  - reflexivity.
  - vm_compute. discriminate.
  - vm_compute. discriminate.
  - vm_compute. reflexivity.
Defined.

(** C5 as stated fails for a negative [limit]: with [limit = -1] and two
    listings for sale, [pages] is the ceiling of [2 / -1], that is -2;
    page 1 is above it, and yet the call returns a listing. *)
Lemma getCars_page_above_pages_counterexample :
  ∃ r, getCars (Sample.paged 1 (-1)) (Sample.world None) = (Normal r, Sample.world None)
       ∧ total (pagination r) = 2
       ∧ pages (pagination r) = Js.of_Z (-2)
       ∧ -2 < CarListing.page (pagination r)
       ∧ Result.car <$> data r = [Sample.toyota]
       ∧ data r ≠ [].
Proof.
  exists (getCars_result (Sample.paged 1 (-1)) (Sample.world None)).
  split_and!; [by vm_compute..|]. by vm_compute.
Qed.

(** *** [getCars]: callers without a user row *)

Lemma getCars_result_cars p w :
  Result.car <$> data (getCars_result p w) = page_rows p (db w).
Proof.
  cbn [getCars_result data]. rewrite <- list_fmap_compose.
  rewrite <- (list_fmap_id (page_rows p (db w))) at 2. by apply list_fmap_ext.
Qed.

(** C10.  A caller who is not signed in, or has no user row, is served
    like any other: whenever the call returns for some caller it returns
    for this one, with the same pagination and the same listings; and
    every listing returned has [wishlisted = false], whatever rows other
    users have saved. *)
Theorem getCars_without_user p w :
  caller w = None →
  (∀ s r' w', getCars p (with_session s w) = (Normal r', w') →
     ∃ r, getCars p w = (Normal r, w)
          ∧ pagination r = pagination r'
          ∧ Result.car <$> data r = Result.car <$> data r')
  ∧ (∀ r w', getCars p w = (Normal r, w') →
       ∀ x, x ∈ data r → wishlisted x = false).
Proof.
  intros Hc. split.
  - intros s r' w' (-> & _ & Hv & Hs & Hr)%getCars_returns.
    exists (getCars_result p w). split; [by apply getCars_succeeds|].
    split; [done|]. by rewrite !getCars_result_cars.
  - intros r w' (-> & _)%getCars_returns x (c & -> & _)%list_elem_of_fmap.
    cbn. unfold wishlist. rewrite Hc. apply bool_decide_eq_false. set_solver.
Qed.

Lemma getCars_without_user_witness :
  caller (Sample.world None) = None
  ∧ (∃ r, getCars Sample.no_params (Sample.world None) = (Normal r, Sample.world None)
          ∧ Result.car <$> data r = [Sample.honda; Sample.toyota])
  ∧ ∀ r w', getCars Sample.no_params (Sample.world None) = (Normal r, w') →
      ∀ x, x ∈ data r → wishlisted x = false.
Proof.
  destruct (getCars_without_user Sample.no_params (Sample.world None) eq_refl)
    as [Hsame Hflags].
  split; [reflexivity|]. split; [|exact Hflags].
  destruct (Hsame (Some "clerk_bob")
              (getCars_result Sample.no_params (Sample.world (Some "clerk_bob")))
              (Sample.world (Some "clerk_bob")))
    as (r & Hr & _ & Hcars); [by vm_compute|].
  exists r. split; [exact Hr|]. rewrite Hcars. by vm_compute.
Defined.

(** *** The order of text values *)

Lemma String_compare_OT a b : String.compare a b = String_as_OT.compare a b.
Proof. revert b. induction a as [|x a IH]; intros [|y b]; cbn; auto. Qed.

#[local] Instance string_le_refl : Reflexive string_le.
Proof.
  intros s. unfold string_le, String.leb.
  pose proof (String.compare_antisym s s) as H.
  by destruct (String.compare s s).
Qed.

#[local] Instance string_le_trans : Transitive string_le.
Proof.
  intros a b c. unfold string_le, String.leb. intros Hab Hbc.
  destruct (String.compare a b) eqn:Eab; [| |done].
  - apply String.compare_eq_iff in Eab as ->. done.
  - destruct (String.compare b c) eqn:Ebc; [| |done].
    + apply String.compare_eq_iff in Ebc as <-. by rewrite Eab.
    + rewrite String_compare_OT in *.
      by rewrite (@transitivity _ String_as_OT.lt _ a b c Eab Ebc).
Qed.

#[local] Instance string_le_total : Total string_le.
Proof. intros a b. apply String.leb_total. Qed.

Lemma string_le_antisym a b : string_le a b → string_le b a → a = b.
Proof. apply String.leb_antisym. Qed.

(** *** [distinct] *)

Section distinct.
Context {A K : Type} (eqb : A → A → bool) (key : A → K).
Hypothesis eqb_key : ∀ x y, eqb x y = true ↔ key x = key y.

Lemma existsb_seen x seen :
  existsb (eqb x) seen = true ↔ ∃ y, y ∈ seen ∧ key y = key x.
Proof.
  rewrite existsb_exists. split.
  - intros (y & Hy%list_elem_of_In & Hk%eqb_key). eauto.
  - intros (y & Hy%list_elem_of_In & Hk). exists y. split; [done|]. by apply eqb_key.
Qed.

Lemma distinct_from_subseteq seen l x : x ∈ distinct_from eqb seen l → x ∈ l.
Proof.
  revert seen. induction l as [|a l IH]; intros seen; cbn; [done|].
  destruct (existsb (eqb a) seen).
  - intros H%IH. by right.
  - intros [->|H%IH]%elem_of_cons; [left|by right].
Qed.

Lemma distinct_from_keys seen l x :
  x ∈ l →
  (∃ y, y ∈ seen ∧ key y = key x) ∨ (∃ y, y ∈ distinct_from eqb seen l ∧ key y = key x).
Proof.
  revert seen. induction l as [|a l IH]; intros seen; [by intros ?%elem_of_nil|].
  cbn. intros [->|Hx]%elem_of_cons.
  - destruct (existsb (eqb a) seen) eqn:E.
    + left. by apply existsb_seen.
    + right. exists a. split; [left|done].
  - destruct (existsb (eqb a) seen) eqn:E.
    + apply IH, Hx.
    + destruct (IH (a :: seen) Hx) as [(y & [Hy|Hy]%elem_of_cons & Hk)|(y & Hy & Hk)].
      * right. exists y. split; [subst y; left|done].
      * left. eauto.
      * right. exists y. split; [by right|done].
Qed.

Lemma distinct_from_fresh seen l x y :
  x ∈ distinct_from eqb seen l → y ∈ seen → key x ≠ key y.
Proof.
  revert seen. induction l as [|a l IH]; intros seen; cbn; [by intros ?%elem_of_nil|].
  destruct (existsb (eqb a) seen) eqn:E.
  - apply IH.
  - intros [->|Hx]%elem_of_cons Hy.
    + intros Hk. apply not_true_iff_false in E. apply E, existsb_seen. eauto.
    + apply (IH (a :: seen)); [done|by right].
Qed.

Lemma distinct_from_NoDup seen l : NoDup (key <$> distinct_from eqb seen l).
Proof.
  revert seen. induction l as [|a l IH]; intros seen; cbn; [constructor|].
  destruct (existsb (eqb a) seen); [apply IH|].
  csimpl. constructor; [|apply IH].
  intros (x & Hk & Hx)%list_elem_of_fmap.
  eapply distinct_from_fresh; [exact Hx|left|done].
Qed.

Lemma distinct_from_StronglySorted (R : relation A) seen l :
  StronglySorted R l → StronglySorted R (distinct_from eqb seen l).
Proof.
  intros Hl. revert seen. induction Hl as [|a l Hl IH Ha]; intros seen; cbn; [constructor|].
  destruct (existsb (eqb a) seen); [apply IH|].
  constructor; [apply IH|].
  rewrite Forall_forall in *. intros x Hx%distinct_from_subseteq. by apply Ha.
Qed.
End distinct.

(** *** [getCarFilters] *)

Lemma car_rows_available st c : c ∈ car_rows where_available st ↔ c ∈ available st.
Proof.
  unfold car_rows, available. rewrite !list_elem_of_filter.
  unfold CarWhereInput_matches, CarWhere_matches. cbn.
  rewrite !andb_true_r, bool_decide_spec. tauto.
Qed.

Section facets.
Variables (f : CarField) (key : Car.t → string).
Hypothesis leb_key : ∀ a b, Car_leb f a b = String.leb (key a) (key b).

Lemma Car_eqb_key a b : Car_eqb f a b = true ↔ key a = key b.
Proof.
  unfold Car_eqb. rewrite !leb_key, andb_true_iff. split.
  - intros [? ?]. by apply string_le_antisym.
  - intros ->. split; apply (string_le_refl (key b)).
Qed.

#[local] Instance Car_order_asc_trans : Transitive (Car_order (f, asc)).
Proof.
  intros a b c. unfold Car_order. cbn. rewrite !leb_key. apply string_le_trans.
Qed.

#[local] Instance Car_order_asc_total : Total (Car_order (f, asc)).
Proof.
  intros a b. unfold Car_order. cbn. rewrite !leb_key. apply string_le_total.
Qed.

Lemma distinct_ascending_facet st :
  facet key st
    (key <$> car_distinct (Some f)
               (car_ordered (Some (f, asc)) (car_rows where_available st))).
Proof.
  cbn [car_distinct car_ordered]. unfold distinct_on. split_and!.
  - intros v. split.
    + intros (c & -> & Hc)%list_elem_of_fmap. exists c. split; [|done].
      apply distinct_from_subseteq in Hc. rewrite merge_sort_Permutation in Hc.
      by apply car_rows_available.
    + intros (c & Hc & <-). apply car_rows_available in Hc.
      rewrite <- (merge_sort_Permutation (Car_order (f, asc))) in Hc.
      destruct (distinct_from_keys _ key Car_eqb_key [] _ c Hc)
        as [(y & []%elem_of_nil & _)|(y & Hy & Hk)].
      apply list_elem_of_fmap. eauto.
  - apply (distinct_from_NoDup _ key Car_eqb_key).
  - apply StronglySorted_Sorted.
    apply (StronglySorted_fmap key (Car_order (f, asc))).
    + intros a b. unfold Car_order. cbn. by rewrite leb_key.
    + apply distinct_from_StronglySorted, StronglySorted_merge_sort; apply _.
Qed.
End facets.

Lemma car_rows_where_available st : car_rows where_available st = available st.
Proof.
  unfold car_rows, available. apply list_filter_iff. intros c.
  unfold CarWhereInput_matches, CarWhere_matches. cbn.
  rewrite !andb_true_r. apply bool_decide_spec.
Qed.

(** The least and the greatest of a list of prices. *)
Lemma Qmin_cases a b : Qmin a b = a ∨ Qmin a b = b.
Proof. unfold Qmin, GenericMinMax.gmin. destruct (a ?= b)%Q; auto. Qed.

Lemma Qmax_cases a b : Qmax a b = a ∨ Qmax a b = b.
Proof. unfold Qmax, GenericMinMax.gmax. destruct (a ?= b)%Q; auto. Qed.

Lemma foldr_Qmin x l :
  foldr Qmin x l ∈ x :: l ∧ ∀ p, p ∈ x :: l → (foldr Qmin x l <= p)%Q.
Proof.
  induction l as [|y l [IHin IHle]]; cbn.
  - split; [left|]. intros p ->%list_elem_of_singleton. apply Qle_refl.
  - split.
    + destruct (Qmin_cases y (foldr Qmin x l)) as [->| ->]; [right; left|].
      apply elem_of_cons in IHin as [->|?]; [left|by right; right].
    + intros p [->|[->|Hp]%elem_of_cons]%elem_of_cons.
      * eapply Qle_trans; [apply Q.le_min_r|]. apply IHle. left.
      * apply Q.le_min_l.
      * eapply Qle_trans; [apply Q.le_min_r|]. apply IHle. by right.
Qed.

Lemma foldr_Qmax x l :
  foldr Qmax x l ∈ x :: l ∧ ∀ p, p ∈ x :: l → (p <= foldr Qmax x l)%Q.
Proof.
  induction l as [|y l [IHin IHle]]; cbn.
  - split; [left|]. intros p ->%list_elem_of_singleton. apply Qle_refl.
  - split.
    + destruct (Qmax_cases y (foldr Qmax x l)) as [->| ->]; [right; left|].
      apply elem_of_cons in IHin as [->|?]; [left|by right; right].
    + intros p [->|[->|Hp]%elem_of_cons]%elem_of_cons.
      * eapply Qle_trans; [|apply Q.le_max_r]. apply IHle. left.
      * apply Q.le_max_l.
      * eapply Qle_trans; [|apply Q.le_max_r]. apply IHle. by right.
Qed.

Lemma getCarFilters_run w :
  getCarFilters w =
    (Normal (mkCarFilters
       (Car.brand <$> car_distinct (Some brand)
          (car_ordered (Some (brand, asc)) (car_rows where_available (db w))))
       (Car.bodyType <$> car_distinct (Some bodyType)
          (car_ordered (Some (bodyType, asc)) (car_rows where_available (db w))))
       (Car.fuelType <$> car_distinct (Some fuelType)
          (car_ordered (Some (fuelType, asc)) (car_rows where_available (db w))))
       (Car.transmission <$> car_distinct (Some transmission)
          (car_ordered (Some (transmission, asc)) (car_rows where_available (db w))))
       (mkPriceRange
          (price_or (Decimal_min (Car.price <$> available (db w))) 0)
          (price_or (Decimal_max (Car.price <$> available (db w))) 100000))), w).
Proof. rewrite <- car_rows_where_available. reflexivity. Qed.

(** C6.  [getCarFilters] always returns; the four lists are the brands,
    body types, fuel types and transmissions of the listings for sale,
    each value once and in ascending order; the price range is the least
    and the greatest price of those listings, or 0 and 100000 when there
    is none; and its [max] is never below its [min]. *)
Theorem getCarFilters_facets w :
  ∃ r, getCarFilters w = (Normal r, w)
    ∧ facet Car.brand (db w) (brands r)
    ∧ facet Car.bodyType (db w) (bodyTypes r)
    ∧ facet Car.fuelType (db w) (fuelTypes r)
    ∧ facet Car.transmission (db w) (transmissions r)
    ∧ (available (db w) = [] →
         priceRange r = mkPriceRange (Js.of_Z 0) (Js.of_Z 100000))
    ∧ (available (db w) ≠ [] →
         ∃ lo hi, priceRange r = mkPriceRange (Js.Finite lo) (Js.Finite hi)
           ∧ lo ∈ Car.price <$> available (db w)
           ∧ hi ∈ Car.price <$> available (db w)
           ∧ ∀ c, c ∈ available (db w) → (lo <= Car.price c <= hi)%Q)
    ∧ ∃ lo hi, min (priceRange r) = Js.Finite lo ∧ max (priceRange r) = Js.Finite hi
           ∧ (lo <= hi)%Q.
Proof.
  eexists. split; [apply getCarFilters_run|].
  cbn [brands bodyTypes fuelTypes transmissions priceRange].
  split_and!; try (by apply distinct_ascending_facet).
  - by intros ->.
  - intros Hne. destruct (available (db w)) as [|c l]; [done|]. csimpl.
    destruct (foldr_Qmin (Car.price c) (Car.price <$> l)) as [Hlo Hle].
    destruct (foldr_Qmax (Car.price c) (Car.price <$> l)) as [Hhi Hge].
    eexists _, _. split_and!; [reflexivity|done|done|].
    intros c' Hc'. split; [apply Hle|apply Hge];
      change (Car.price c :: (Car.price <$> l)) with (Car.price <$> c :: l);
      apply list_elem_of_fmap; eauto.
  - destruct (available (db w)) as [|c l]; csimpl.
    + exists 0%Q, 100000%Q. by split_and!.
    + destruct (foldr_Qmin (Car.price c) (Car.price <$> l)) as [_ Hle].
      destruct (foldr_Qmax (Car.price c) (Car.price <$> l)) as [_ Hge].
      eexists _, _. split_and!; [reflexivity..|].
      eapply Qle_trans; [apply Hle|apply Hge]; left.
Qed.

Lemma getCarFilters_facets_witness :
  available Sample.store ≠ []
  ∧ ∃ r, getCarFilters (Sample.world None) = (Normal r, Sample.world None)
      ∧ facet Car.brand Sample.store (brands r)
      ∧ ∃ lo hi, priceRange r = mkPriceRange (Js.Finite lo) (Js.Finite hi)
          ∧ ∀ c, c ∈ available Sample.store → (lo <= Car.price c <= hi)%Q.
Proof.
  assert (available Sample.store ≠ []) as Hne by (vm_compute; discriminate).
  split; [exact Hne|].
  destruct (getCarFilters_facets (Sample.world None))
    as (r & Hr & Hb & _ & _ & _ & _ & Hrange & _).
  exists r. split; [exact Hr|]. split; [exact Hb|].
  destruct (Hrange Hne) as (lo & hi & Hp & _ & _ & Hall).
  exists lo, hi. split; [exact Hp|exact Hall].
Defined.

Lemma getCarFilters_empty :
  ∃ r, getCarFilters (Sample.empty_world None) = (Normal r, Sample.empty_world None)
    ∧ r = mkCarFilters [] [] [] [] (mkPriceRange (Js.of_Z 0) (Js.of_Z 100000)).
Proof. eexists. split; [apply getCarFilters_run|]. reflexivity. Qed.

(** *** [getCarById] *)

(** An id that resolves to no car. *)
Lemma getCarById_not_found carId w :
  head (filter (λ c, Car.id c = carId) (cars (db w))) = None →
  getCarById carId w = (Normal (failure "Car not found"), w).
Proof.
  intros Hc. unfold getCarById. run. rewrite current_user_run.
  unfold db_car_findUnique. run. by rewrite Hc.
Qed.

(** An id that resolves: the call succeeds, and [userTestDrive] is the
    summary of the newest booking the query selects. *)
Lemma getCarById_found carId w car :
  head (filter (λ c, Car.id c = carId) (cars (db w))) = Some car →
  ∃ d, getCarById carId w = (Normal (success d), w)
    ∧ userTestDrive (testDriveInfo d) =
        (λ b, mkUserTestDrive (TestDriveBooking.id b) (TestDriveBooking.status b)
                (toISOString (TestDriveBooking.bookingDate b)))
        <$> head (merge_sort newer_first
                    (filter (λ b, TestDriveBooking_matches
                                    (mkTestDriveBookingWhere (Some carId)
                                       (User.id <$> caller w)
                                       (Some [PENDING; CONFIRMED; COMPLETED])) b)
                       (testDriveBookings (db w)))).
Proof.
  intros Hc. unfold getCarById. run. rewrite current_user_run.
  unfold db_car_findUnique. run. rewrite Hc.
  unfold db_userSavedCar_findUnique, db_testDriveBooking_findFirst_newest,
    db_dealershipInfo_findFirst_include, db_dealershipInfo_findFirst, include_workingHours.
  run.
  destruct (caller w) as [u|]; run;
    destruct (head (dealershipInfos (db w))); run;
    (eexists; split; [reflexivity|]); cbn [testDriveInfo userTestDrive];
    by destruct (head (merge_sort _ _)).
Qed.

#[local] Instance newer_first_trans : Transitive newer_first.
Proof. intros a b c. unfold newer_first. lia. Qed.

#[local] Instance newer_first_total : Total newer_first.
Proof. intros a b. unfold newer_first. lia. Qed.

Lemma head_StronglySorted {A} (R : relation A) `{!Reflexive R} (l : list A) x y :
  StronglySorted R l → head l = Some x → y ∈ l → R x y.
Proof.
  destruct 1 as [|a l _ Ha]; [done|]. intros [= ->] [->|Hy]%elem_of_cons; [done|].
  rewrite Forall_forall in Ha. by apply Ha.
Qed.

#[local] Instance newer_first_refl : Reflexive newer_first.
Proof. intros a. unfold newer_first. lia. Qed.

(** For a caller with a user row the booking returned is one of their own
    on that car, in one of the three states, and none of those is newer. *)
Lemma getCarById_own_booking carId w car u d b :
  head (filter (λ c, Car.id c = carId) (cars (db w))) = Some car →
  caller w = Some u →
  getCarById carId w = (Normal (success d), w) →
  userTestDrive (testDriveInfo d) = Some b →
  ∃ row, row ∈ testDriveBookings (db w)
    ∧ b = mkUserTestDrive (TestDriveBooking.id row) (TestDriveBooking.status row)
            (toISOString (TestDriveBooking.bookingDate row))
    ∧ TestDriveBooking.userId row = User.id u
    ∧ TestDriveBooking.carId row = carId
    ∧ TestDriveBooking.status row ∈ [PENDING; CONFIRMED; COMPLETED]
    ∧ ∀ row', row' ∈ testDriveBookings (db w) →
        TestDriveBooking.userId row' = User.id u →
        TestDriveBooking.carId row' = carId →
        TestDriveBooking.status row' ∈ [PENDING; CONFIRMED; COMPLETED] →
        TestDriveBooking.createdAt row' ≤ TestDriveBooking.createdAt row.
Proof.
  intros Hc Hu Hrun Hb. destruct (getCarById_found carId w car Hc) as (d' & Hrun' & Hd).
  rewrite Hrun in Hrun'. injection Hrun' as <-. rewrite Hb, Hu in Hd.
  destruct (head (merge_sort _ _)) as [row|] eqn:Hh; [|done]. cbn in Hd. injection Hd as ->.
  pose proof (head_Some_elem_of _ _ Hh) as Hrow. rewrite merge_sort_Permutation in Hrow.
  apply list_elem_of_filter in Hrow as [Hm Hin]. exists row.
  unfold TestDriveBooking_matches in Hm. cbn in Hm.
  apply Is_true_true in Hm. rewrite !andb_true_iff, !bool_decide_eq_true in Hm.
  destruct Hm as [[Hcar Huser] Hstatus]. split_and!; [done..|].
  intros row' Hin' Huser' Hcar' Hstatus'.
  apply (head_StronglySorted newer_first _ row row'
           (StronglySorted_merge_sort newer_first _) Hh).
  rewrite merge_sort_Permutation. apply list_elem_of_filter. split; [|done].
  unfold TestDriveBooking_matches. cbn.
  apply Is_true_true. rewrite !andb_true_iff, !bool_decide_eq_true. done.
Qed.

(** C7 at the failing input.  Nobody is signed in; Bob has a pending test
    drive of the Toyota; [getCarById] hands Bob's booking to the
    anonymous caller, because [userId: dbUser?.id] is [undefined] and the
    query is then not restricted to any user. *)
Theorem getCarById_anonymous_booking :
  caller (Sample.world None) = None
  ∧ TestDriveBooking.userId Sample.bobs_booking = User.id Sample.bob
  ∧ ∃ d, getCarById "c1" (Sample.world None) = (Normal (success d), Sample.world None)
      ∧ userTestDrive (testDriveInfo d)
          = Some (mkUserTestDrive "b1" PENDING (toISOString 100)).
Proof.
  split; [reflexivity|]. split; [reflexivity|].
  destruct (getCarById_found "c1" (Sample.world None) Sample.toyota eq_refl)
    as (d & Hrun & Hd).
  exists d. split; [exact Hrun|]. rewrite Hd. by vm_compute.
Qed.

(** *** The admin gate of the settings actions *)

Lemma saveWorkingHours_not_admin hours w :
  Settings.is_admin (caller w) = false →
  ∃ e, Settings.saveWorkingHours hours w = (Normal (failure e), w).
Proof.
  intros H. unfold Settings.saveWorkingHours, caller, db_user_findUnique in *. run.
  destruct (session w) as [uid|]; [|eauto].
  rewrite H. simpl. eauto.
Qed.

Lemma updateUserRole_not_admin id role w :
  Settings.is_admin (caller w) = false →
  ∃ e, Settings.updateUserRole id role w = (Normal (failure e), w).
Proof.
  intros H. unfold Settings.updateUserRole, caller, db_user_findUnique in *. run.
  destruct (Js.string_truthy id); simpl; [|eauto].
  destruct (Js.string_truthy role); simpl; [|eauto].
  destruct (session w) as [uid|]; [|eauto].
  rewrite H. simpl. eauto.
Qed.

(** C8.  When the caller is not signed in, or has no user row, or the
    role in their row is not [ADMIN], both [saveWorkingHours] and
    [updateUserRole] report a failure and leave the world as it was: no
    working hour deleted or created, no role updated, nothing
    revalidated.  The row looked at is the one of the session's
    [userId]; the arguments of the call, whatever they are, have no part
    in the decision. *)
Theorem settings_admin_gate w :
  (session w = None ∨ caller w = None ∨ ∃ u, caller w = Some u ∧ User.role u ≠ ADMIN) →
  (∀ workingHours, ∃ e,
     Settings.saveWorkingHours workingHours w = (Normal (failure e), w))
  ∧ (∀ id role, ∃ e,
       Settings.updateUserRole id role w = (Normal (failure e), w)).
Proof.
  intros H. assert (Settings.is_admin (caller w) = false) as Hna.
  { destruct H as [H|[H|(u & -> & Hu)]].
    - unfold caller. by rewrite H.
    - by rewrite H.
    - cbn. by apply bool_decide_eq_false. }
  split; intros; [by apply saveWorkingHours_not_admin|by apply updateUserRole_not_admin].
Qed.

Lemma settings_admin_gate_witness :
  caller (Sample.world (Some "clerk_bob")) = Some Sample.bob
  ∧ User.role Sample.bob ≠ ADMIN
  ∧ (∃ e, Settings.saveWorkingHours [] (Sample.world (Some "clerk_bob"))
            = (Normal (failure e), Sample.world (Some "clerk_bob")))
  ∧ (∃ e, Settings.updateUserRole "u2" "ADMIN" (Sample.world (Some "clerk_bob"))
            = (Normal (failure e), Sample.world (Some "clerk_bob"))).
Proof.
  assert (User.role Sample.bob ≠ ADMIN) as Hrole by discriminate.
  destruct (settings_admin_gate (Sample.world (Some "clerk_bob"))) as [Hs Hu].
  { right; right. exists Sample.bob. split; [reflexivity|exact Hrole]. }
  split; [reflexivity|]. split; [exact Hrole|].
  split; [apply Hs|apply Hu].
Defined.

(** *** [toggleSavedCar] *)

Lemma is_saved_spec st u c :
  is_saved st u c = true ↔
  ∃ s, s ∈ userSavedCars st ∧ UserSavedCar.userId s = u ∧ UserSavedCar.carId s = c.
Proof.
  unfold is_saved, saved_rows. rewrite bool_decide_eq_true. split.
  - intros Hne.
    destruct (filter _ (userSavedCars st)) as [|s l] eqn:E; [done|].
    assert (s ∈ s :: l) as Hs by left. rewrite <- E in Hs.
    apply list_elem_of_filter in Hs as [[? ?] ?]. eauto.
  - intros (s & Hin & Hu & Hc) E.
    by apply (filter_nil_not_elem_of _ _ s E).
Qed.

Lemma is_saved_ext st st' u c :
  (∀ s, UserSavedCar.userId s = u → UserSavedCar.carId s = c →
        s ∈ userSavedCars st' ↔ s ∈ userSavedCars st) →
  is_saved st' u c = is_saved st u c.
Proof.
  intros H. apply eq_true_iff_eq. rewrite !is_saved_spec.
  split; intros (s & Hin & Hu & Hc); exists s; (split; [by apply (H s Hu Hc)|done]).
Qed.

Lemma head_filter_Some {A} (P : A → Prop) `{∀ x, Decision (P x)} (l : list A) x :
  head (filter P l) = Some x → x ∈ l ∧ P x.
Proof.
  intros Hh%head_Some_elem_of. apply list_elem_of_filter in Hh. tauto.
Qed.

Lemma caller_Some w u :
  caller w = Some u →
  ∃ userId, session w = Some userId
    ∧ head (filter (λ u, User.clerkUserId u = userId) (users (db w))) = Some u
    ∧ u ∈ users (db w).
Proof.
  unfold caller. destruct (session w) as [userId|]; [|done].
  intros H. exists userId. split_and!; [done..|].
  by apply head_filter_Some in H as [? _].
Qed.

Lemma toggleSavedCar_step carId w u car :
  caller w = Some u →
  head (filter (λ c, Car.id c = carId) (cars (db w))) = Some car →
  ∃ r w', toggleSavedCar carId w = (Normal (success r), w')
    ∧ saved r = negb (is_saved (db w) (User.id u) carId)
    ∧ is_saved (db w') (User.id u) carId = saved r
    ∧ (∀ u' c', (u', c') ≠ (User.id u, carId) →
         is_saved (db w') u' c' = is_saved (db w) u' c')
    ∧ session w' = session w
    ∧ users (db w') = users (db w)
    ∧ cars (db w') = cars (db w).
Proof.
  intros Hu Hcar. destruct (caller_Some w u Hu) as (userId & Hs & Hrow & Hin).
  unfold toggleSavedCar, db_user_findUnique, db_car_findUnique,
    db_userSavedCar_findUnique. run. rewrite Hs, Hrow, Hcar.
  destruct (head (saved_rows (User.id u) carId (db w))) as [row|] eqn:E.
  - (* saved: the row is deleted *)
    unfold db_userSavedCar_delete, modify_db, revalidatePath. run. rewrite E.
    eexists _, _. split; [reflexivity|]. cbn [saved db session users cars with_userSavedCars].
    assert (is_saved (db w) (User.id u) carId = true) as Hsaved.
    { apply head_filter_Some in E as [? [? ?]]. apply is_saved_spec. eauto. }
    rewrite Hsaved. split_and!; try done.
    + apply not_true_is_false. rewrite is_saved_spec. cbn [userSavedCars with_userSavedCars].
      intros (s & [Hn _]%list_elem_of_filter & Hsu & Hsc). by apply Hn.
    + intros u' c' Hne. apply is_saved_ext. intros s Hsu Hsc. cbn [userSavedCars with_userSavedCars].
      rewrite list_elem_of_filter. split; [tauto|]. intros Hs'. split; [|done].
      intros [? ?]. apply Hne. congruence.
  - (* not saved: a row is created *)
    assert (saved_rows (User.id u) carId (db w) = []) as Hnone.
    { destruct (saved_rows (User.id u) carId (db w)); [done|by cbn in E]. }
    assert (is_saved (db w) (User.id u) carId = false) as Hsaved.
    { unfold is_saved. apply bool_decide_eq_false. by intros Hne. }
    unfold db_userSavedCar_create, modify_db, revalidatePath, uuid. run.
    rewrite (bool_decide_eq_false_2 (filter _ (users (db w)) = [])); last first.
    { intros Hnil. by apply (filter_nil_not_elem_of _ _ u Hnil). }
    rewrite (bool_decide_eq_false_2 (filter _ (cars (db w)) = [])); last first.
    { intros Hnil. by rewrite Hnil in Hcar. }
    cbn [orb]. rewrite (bool_decide_eq_false_2 (saved_rows _ _ _ ≠ [])); last first.
    { by intros Hne. }
    eexists _, _. split; [reflexivity|]. cbn [saved db session users cars with_userSavedCars].
    rewrite Hsaved. split_and!; try done.
    + apply is_saved_spec. cbn [userSavedCars with_userSavedCars]. eexists.
      split; [apply elem_of_app; right; left|done].
    + intros u' c' Hne. apply is_saved_ext. intros s Hsu Hsc. cbn [userSavedCars with_userSavedCars].
      rewrite elem_of_app, list_elem_of_singleton. split; [|tauto].
      intros [?| ->]; [done|]. cbn in Hsu, Hsc. exfalso. apply Hne. congruence.
Qed.

(** C2.  For a caller with a user row and a listing that exists,
    [toggleSavedCar] returns [saved = false] and the pair is no longer
    saved when it was saved, and [saved = true] and the pair is saved when
    it was not; no other pair changes.  Hence a second toggle by the same
    caller returns the negation of the first and every pair is saved
    after it exactly if it was before the first. *)
Theorem toggleSavedCar_toggles carId w u car :
  caller w = Some u →
  head (filter (λ c, Car.id c = carId) (cars (db w))) = Some car →
  ∃ r1 w1 r2 w2,
    toggleSavedCar carId w = (Normal (success r1), w1)
    ∧ saved r1 = negb (is_saved (db w) (User.id u) carId)
    ∧ is_saved (db w1) (User.id u) carId = saved r1
    ∧ (∀ u' c', (u', c') ≠ (User.id u, carId) →
         is_saved (db w1) u' c' = is_saved (db w) u' c')
    ∧ caller w1 = Some u
    ∧ toggleSavedCar carId w1 = (Normal (success r2), w2)
    ∧ saved r2 = negb (saved r1)
    ∧ ∀ u' c', is_saved (db w2) u' c' = is_saved (db w) u' c'.
Proof.
  intros Hu Hcar.
  destruct (toggleSavedCar_step carId w u car Hu Hcar)
    as (r1 & w1 & Hrun1 & Hr1 & Hs1 & Ho1 & Hsess & Husers & Hcars).
  assert (caller w1 = Some u) as Hu1 by (unfold caller in *; by rewrite Hsess, Husers).
  assert (head (filter (λ c, Car.id c = carId) (cars (db w1))) = Some car) as Hcar1
    by (by rewrite Hcars).
  destruct (toggleSavedCar_step carId w1 u car Hu1 Hcar1)
    as (r2 & w2 & Hrun2 & Hr2 & Hs2 & Ho2 & _).
  exists r1, w1, r2, w2. split_and!; try done.
  - by rewrite Hr2, Hs1.
  - intros u' c'. destruct (decide ((u', c') = (User.id u, carId))) as [[= -> ->]|Hne].
    + rewrite Hs2, Hr2, Hs1, Hr1. apply negb_involutive.
    + by rewrite Ho2, Ho1.
Qed.

Lemma toggleSavedCar_toggles_witness :
  ∃ r1 w1 r2 w2,
    toggleSavedCar "c1" (Sample.world (Some "clerk_bob")) = (Normal (success r1), w1)
    ∧ saved r1 = false
    ∧ is_saved (db w1) (User.id Sample.bob) "c1" = false
    ∧ toggleSavedCar "c1" w1 = (Normal (success r2), w2)
    ∧ saved r2 = true
    ∧ is_saved (db w2) (User.id Sample.bob) "c1" = true.
Proof.
  destruct (toggleSavedCar_toggles "c1" (Sample.world (Some "clerk_bob"))
              Sample.bob Sample.toyota eq_refl eq_refl)
    as (r1 & w1 & r2 & w2 & Hrun1 & Hr1 & Hs1 & _ & _ & Hrun2 & Hr2 & Hsame).
  exists r1, w1, r2, w2.
  assert (saved r1 = false) as Hf by (rewrite Hr1; reflexivity).
  split; [exact Hrun1|]. split; [exact Hf|].
  split; [rewrite Hs1; exact Hf|]. split; [exact Hrun2|].
  split; [rewrite Hr2, Hf; reflexivity|].
  rewrite Hsame. reflexivity.
Defined.

(** *** [getDealershipInfo] *)

Lemma db_workingHour_create_run data dealershipId w :
  (∃ d, d ∈ dealershipInfos (db w) ∧ DealershipInfo.id d = dealershipId) →
  (∀ h, h ∈ Schema.workingHours (db w) → WorkingHour.dealershipId h = dealershipId →
        WorkingHour.dayOfWeek h ≠ dayOfWeek data) →
  db_workingHour_create data dealershipId w =
    (Normal (WorkingHour.mk ("uuid-" +:+ pretty (uuids w)) dealershipId (dayOfWeek data)
               (openTime data) (closeTime data) (isOpen data) (clock w) (clock w)),
     mkWorld
       (with_workingHours (λ rows, rows ++ created_hours dealershipId (clock w) (uuids w) [data])
          (db w))
       (session w) (clock w) (S (uuids w)) (revalidated w)).
Proof.
  intros (d & Hd & Hid) Hfree. unfold db_workingHour_create, modify_db, uuid. run.
  rewrite (bool_decide_eq_false_2 (filter _ (dealershipInfos (db w)) = [])); last first.
  { intros Hnil. by apply (filter_nil_not_elem_of _ _ d Hnil). }
  rewrite (bool_decide_eq_false_2 (filter _ (Schema.workingHours (db w)) ≠ [])); last first.
  { intros Hne. apply Hne. apply elem_of_nil_inv. intros h [[Hh Hday] Hin]%list_elem_of_filter.
    by apply (Hfree h). }
  reflexivity.
Qed.

Lemma create_workingHours_run hs dealershipId w :
  (∃ d, d ∈ dealershipInfos (db w) ∧ DealershipInfo.id d = dealershipId) →
  NoDup (dayOfWeek <$> hs) →
  (∀ h, h ∈ Schema.workingHours (db w) → WorkingHour.dealershipId h = dealershipId →
        WorkingHour.dayOfWeek h ∉ dayOfWeek <$> hs) →
  create_workingHours hs dealershipId w =
    (Normal tt,
     mkWorld
       (with_workingHours (λ rows, rows ++ created_hours dealershipId (clock w) (uuids w) hs)
          (db w))
       (session w) (clock w) (length hs + uuids w)%nat (revalidated w)).
Proof.
  unfold create_workingHours.
  revert w. induction hs as [|h hs IH]; intros w Hd Hnd Hfree.
  - cbn. unfold with_workingHours. rewrite app_nil_r. by destruct w as [[]].
  - cbn [for_of]. run. rewrite db_workingHour_create_run; [|done|]; last first.
    { intros h' Hin Hid Hday. apply (Hfree h' Hin Hid). rewrite Hday. left. }
    apply NoDup_cons in Hnd as [Hh Hnd]. rewrite IH; [| |done|].
    + cbn. unfold with_workingHours. cbn. rewrite <- app_assoc. cbn.
      by rewrite Nat.add_succ_r.
    + cbn. done.
    + cbn. intros h' [Hin|Hin]%elem_of_app Hid.
      * intros Hday. apply (Hfree h' Hin Hid). by right.
      * apply list_elem_of_singleton in Hin as ->. cbn. done.
Qed.

Lemma created_hours_owned dealershipId t n hs :
  Forall (λ h, WorkingHour.dealershipId h = dealershipId)
    (created_hours dealershipId t n hs).
Proof. revert n. induction hs; intros n; cbn; constructor; auto. Qed.

Lemma created_hours_data dealershipId t n hs :
  WorkingHour_data <$> created_hours dealershipId t n hs = hs.
Proof.
  revert n. induction hs as [|[] hs IH]; intros n; cbn; [done|].
  by rewrite IH.
Qed.

Lemma filter_Forall {A} (P : A → Prop) `{∀ x, Decision (P x)} (l : list A) :
  Forall P l → filter P l = l.
Proof.
  induction 1 as [|x l Hx _ IH]; [done|].
  rewrite filter_cons, decide_True by done. by rewrite IH.
Qed.

(** The dealership row a first read creates, and the world after it. *)
Lemma db_dealershipInfo_create_run hs ordered w :
  dealershipInfos (db w) = [] → Schema.workingHours (db w) = [] →
  NoDup (dayOfWeek <$> hs) →
  db_dealershipInfo_create hs ordered w =
    (Normal (mkDealership (default_dealership w)
               (if ordered
                then merge_sort by_dayOfWeek
                       (created_hours (DealershipInfo.id (default_dealership w))
                          (clock w) (S (uuids w)) hs)
                else created_hours (DealershipInfo.id (default_dealership w))
                       (clock w) (S (uuids w)) hs)),
     mkWorld
       (mkStore (users (db w)) (cars (db w)) [default_dealership w]
          (created_hours (DealershipInfo.id (default_dealership w)) (clock w) (S (uuids w)) hs)
          (userSavedCars (db w)) (testDriveBookings (db w)))
       (session w) (clock w) (length hs + S (uuids w))%nat (revalidated w)).
Proof.
  intros Hd Hh Hnd. unfold db_dealershipInfo_create, transaction, modify_db, uuid. run.
  rewrite create_workingHours_run; [|cbn..].
  - unfold include_workingHours, with_workingHours, with_dealershipInfos. run. cbn.
    rewrite Hd, Hh. cbn.
    rewrite filter_Forall by apply created_hours_owned. reflexivity.
  - rewrite Hd. eexists. split; [left|done].
  - done.
  - rewrite Hh. by intros h ?%elem_of_nil.
Qed.

Lemma workingHours_owned_nil st :
  workingHours_owned st → dealershipInfos st = [] → Schema.workingHours st = [].
Proof.
  intros Hown Hd. apply elem_of_nil_inv. intros h Hh.
  destruct (Hown h Hh) as (d & Hin & _). rewrite Hd in Hin. by apply elem_of_nil in Hin.
Qed.

Lemma default_workingHours_sorted dealershipId t n :
  merge_sort by_dayOfWeek (created_hours dealershipId t n Settings.default_workingHours)
  = created_hours dealershipId t n Settings.default_workingHours.
Proof. reflexivity. Qed.

(** C9, amended.  When no dealership row exists (and so, every working
    hour being owned by a dealership, no working-hour row either) and the
    caller is signed in, [getDealershipInfo] creates one dealership row
    and seven working-hour rows of that dealership with the documented
    defaults, touches no other table, and returns that record; a second
    read returns the same record and creates nothing. *)
Theorem getDealershipInfo_first_read w userId :
  session w = Some userId →
  dealershipInfos (db w) = [] →
  workingHours_owned (db w) →
  ∃ d hs w',
    Settings.getDealershipInfo w =
      (Normal (success (Settings.mkDealershipData (mkDealership d hs)
                          (toISOString (DealershipInfo.createdAt d))
                          (toISOString (DealershipInfo.updatedAt d)))), w')
    ∧ dealershipInfos (db w') = [d]
    ∧ Schema.workingHours (db w') = hs
    ∧ Forall (λ h, WorkingHour.dealershipId h = DealershipInfo.id d) hs
    ∧ WorkingHour_data <$> hs =
        [ mkWorkingHourCreateInput MONDAY "09:00" "18:00" true;
          mkWorkingHourCreateInput TUESDAY "09:00" "18:00" true;
          mkWorkingHourCreateInput WEDNESDAY "09:00" "18:00" true;
          mkWorkingHourCreateInput THURSDAY "09:00" "18:00" true;
          mkWorkingHourCreateInput FRIDAY "09:00" "18:00" true;
          mkWorkingHourCreateInput SATURDAY "10:00" "16:00" true;
          mkWorkingHourCreateInput SUNDAY "10:00" "16:00" false ]
    ∧ users (db w') = users (db w)
    ∧ cars (db w') = cars (db w)
    ∧ userSavedCars (db w') = userSavedCars (db w)
    ∧ testDriveBookings (db w') = testDriveBookings (db w)
    ∧ Settings.getDealershipInfo w' =
        (Normal (success (Settings.mkDealershipData (mkDealership d hs)
                            (toISOString (DealershipInfo.createdAt d))
                            (toISOString (DealershipInfo.updatedAt d)))), w').
Proof.
  intros Hs Hd Hown. pose proof (workingHours_owned_nil _ Hown Hd) as Hh.
  exists (default_dealership w),
    (created_hours (DealershipInfo.id (default_dealership w)) (clock w) (S (uuids w))
       Settings.default_workingHours).
  eexists. split_and!.
  - unfold Settings.getDealershipInfo, db_dealershipInfo_findFirst_include,
      db_dealershipInfo_findFirst. run. rewrite Hs, Hd. cbn [head].
    rewrite db_dealershipInfo_create_run; [|done|done|].
    + rewrite default_workingHours_sorted. reflexivity.
    + apply (bool_decide_unpack _). by vm_compute.
  - reflexivity.
  - reflexivity.
  - apply created_hours_owned.
  - apply created_hours_data.
  - reflexivity.
  - reflexivity.
  - reflexivity.
  - reflexivity.
  - unfold Settings.getDealershipInfo, db_dealershipInfo_findFirst_include,
      db_dealershipInfo_findFirst, include_workingHours. run. rewrite Hs.
    cbn [db dealershipInfos head Schema.workingHours session].
    rewrite filter_Forall by apply created_hours_owned.
    rewrite default_workingHours_sorted. reflexivity.
Qed.

Lemma getDealershipInfo_first_read_witness :
  ∃ d hs w',
    Settings.getDealershipInfo (Sample.empty_world (Some "clerk_admin")) =
      (Normal (success (Settings.mkDealershipData (mkDealership d hs)
                          (toISOString (DealershipInfo.createdAt d))
                          (toISOString (DealershipInfo.updatedAt d)))), w')
    ∧ dealershipInfos (db w') = [d]
    ∧ length hs = 7%nat
    ∧ (isOpen <$> (WorkingHour_data <$> hs)) = [true; true; true; true; true; true; false].
Proof.
  assert (workingHours_owned (db (Sample.empty_world (Some "clerk_admin")))) as Hown.
  { intros h Hh. exfalso. revert Hh. cbn. apply not_elem_of_nil. }
  destruct (getDealershipInfo_first_read (Sample.empty_world (Some "clerk_admin"))
              "clerk_admin" eq_refl eq_refl Hown)
    as (d & hs & w' & Hrun & Hd & _ & _ & Hdata & _).
  exists d, hs, w'. split; [exact Hrun|]. split; [exact Hd|].
  split.
  - rewrite <- (length_fmap WorkingHour_data), Hdata. reflexivity.
  - rewrite Hdata. reflexivity.
Defined.

(** C9 as stated fails when nobody is signed in: the read is refused and
    no row is created. *)
Lemma getDealershipInfo_signed_out_counterexample :
  dealershipInfos (db (Sample.empty_world None)) = []
  ∧ Settings.getDealershipInfo (Sample.empty_world None) =
      (Normal (failure "Error fetching dealership infoUnauthorized"),
       Sample.empty_world None).
Proof. split; reflexivity. Qed.

(** *** The actions on the sample dealership *)

(** An admin does change a role: the gate is not shut for everyone. *)
Example updateUserRole_by_admin :
  ∃ w', Settings.updateUserRole "u2" "ADMIN" (Sample.world (Some "clerk_admin"))
          = (Normal (success tt), w')
        ∧ User.role <$> users (db w') = [ADMIN; ADMIN].
Proof. eexists. split; [by vm_compute|reflexivity]. Qed.

(** After the first read an admin replaces the seven rows by the one given. *)
Example saveWorkingHours_by_admin :
  ∃ w1 w2 h,
    (Settings.getDealershipInfo (Sample.world (Some "clerk_admin"))).2 = w1
    ∧ Settings.saveWorkingHours
        [WorkingHour.mk "" "" SUNDAY "12:00" "14:00" true 0 0] w1
      = (Normal (success tt), w2)
    ∧ Schema.workingHours (db w2) = [h]
    ∧ WorkingHour_data h = mkWorkingHourCreateInput SUNDAY "12:00" "14:00" true.
Proof. eexists _, _, _. split_and!; [reflexivity|by vm_compute|reflexivity..]. Qed.

(** A brand is matched whatever its case, and only listings for sale are. *)
Example getCars_brand_insensitive :
  ∃ r, getCars (GetCarsParams.mk None (Some "toyota") None None None None None None None None)
         (Sample.world None) = (Normal r, Sample.world None)
       ∧ Result.car <$> data r = [Sample.toyota]
       ∧ total (pagination r) = 1.
Proof. eexists. split_and!; [by vm_compute|reflexivity..]. Qed.

(** A [_] in the brand filter stands for any one character. *)
Example getCars_brand_wildcard :
  ∃ r, getCars (GetCarsParams.mk None (Some "toyot_") None None None None None None None None)
         (Sample.world None) = (Normal r, Sample.world None)
       ∧ Result.car <$> data r = [Sample.toyota].
Proof. eexists. split; [by vm_compute|reflexivity]. Qed.

(** A price bound is the double that [parseFloat] reads: a bound written
    with more digits than a double holds is the double next to it, and one
    beyond the doubles is [Infinity], which the client refuses. *)
Example getCars_maxPrice_rounded :
  ∃ r, getCars (Sample.priced None (Some (Js.Str "19999.9999999999999999")))
         (Sample.world None) = (Normal r, Sample.world None)
       ∧ Result.car <$> data r = [Sample.honda; Sample.toyota].
Proof. eexists. split; [by vm_compute|reflexivity]. Qed.

Example getCars_minPrice_overflow :
  ∃ message, getCars (Sample.priced (Some (Js.Str "1e400")) None) (Sample.world None)
               = (Abrupt (Error message), Sample.world None).
Proof. eexists. by vm_compute. Qed.

(** A search for [%] finds every listing for sale. *)
Example getCars_search_wildcard :
  ∃ r, getCars (with_search (Some "%") Sample.no_params) (Sample.world None)
         = (Normal r, Sample.world None)
       ∧ Result.car <$> data r = [Sample.honda; Sample.toyota].
Proof. eexists. split; [by vm_compute|reflexivity]. Qed.

(** A [take] beyond the 64-bit integers is refused. *)
Example getCars_limit_too_large :
  ∃ message, getCars (Sample.paged 1 (2 ^ 63)) (Sample.world None)
               = (Abrupt (Error message), Sample.world None).
Proof. eexists. by vm_compute. Qed.

(** A signed-in caller sees their own saved listing flagged. *)
Example getCars_wishlisted_for_bob :
  ∃ r, getCars Sample.no_params (Sample.world (Some "clerk_bob"))
         = (Normal r, Sample.world (Some "clerk_bob"))
       ∧ (λ x, (Car.id (Result.car x), wishlisted x)) <$> data r
           = [("c2", false); ("c1", true)].
Proof. eexists. split; [by vm_compute|reflexivity]. Qed.

(** ** Further properties of the actions *)

(** *** [getCars]: order, pages, flags, filters *)

Lemma sublist_reverse {A} (l k : list A) :
  l `sublist_of` k → reverse l `sublist_of` reverse k.
Proof.
  induction 1 as [|x l k _ IH|x l k _ IH]; rewrite ?reverse_cons.
  - done.
  - by apply sublist_app.
  - by apply sublist_inserts_r.
Qed.

Lemma paginate_sublist {A} (t s : option Z) (l : list A) :
  paginate t s l `sublist_of` l.
Proof.
  unfold paginate. destruct t as [n|]; [|apply sublist_drop].
  destruct (0 <=? n).
  - etransitivity; [apply sublist_take|apply sublist_drop].
  - rewrite <- (reverse_involutive l) at 2. apply sublist_reverse.
    etransitivity; [apply sublist_take|apply sublist_drop].
Qed.

Lemma StronglySorted_sublist {A} (R : relation A) (l k : list A) :
  l `sublist_of` k → StronglySorted R k → StronglySorted R l.
Proof.
  induction 1 as [|x l k Hlk IH|x l k Hlk IH]; intros Hk.
  - constructor.
  - apply StronglySorted_inv in Hk as [Hk Hx]. constructor; [by apply IH|].
    rewrite Forall_forall in *. intros y Hy. apply Hx.
    by apply (sublist_subseteq _ _ Hlk).
  - apply StronglySorted_inv in Hk as [Hk _]. by apply IH.
Qed.

Lemma StronglySorted_mono {A} (R1 R2 : relation A) (l : list A) :
  (∀ a b, R1 a b → R2 a b) → StronglySorted R1 l → StronglySorted R2 l.
Proof.
  intros HR. induction 1 as [|a l _ IH Ha]; constructor; [done|].
  eapply Forall_impl; [exact Ha|]. apply HR.
Qed.

Lemma Car_leb_trans f a b c :
  Car_leb f a b = true → Car_leb f b c = true → Car_leb f a c = true.
Proof.
  destruct f; cbn; rewrite ?Z.leb_le, ?Qle_bool_iff;
    [apply string_le_trans..|apply Qle_trans|lia].
Qed.

Lemma Car_leb_total f a b : Car_leb f a b = true ∨ Car_leb f b a = true.
Proof.
  destruct f; cbn; rewrite ?Z.leb_le, ?Qle_bool_iff;
    [apply String.leb_total..| |lia].
  destruct (Qlt_le_dec (Car.price b) (Car.price a)); [right; by apply Qlt_le_weak|by left].
Qed.

#[local] Instance Car_order_trans o : Transitive (Car_order o).
Proof.
  destruct o as [f []]; intros a b c; unfold Car_order; cbn.
  - apply Car_leb_trans.
  - intros ? ?. by eapply Car_leb_trans.
Qed.

#[local] Instance Car_order_total o : Total (Car_order o).
Proof.
  destruct o as [f []]; intros a b; unfold Car_order; cbn; apply Car_leb_total.
Qed.

Lemma ordered_matchSet_sorted p st :
  StronglySorted (Car_order (getCars_orderBy (GetCarsParams.sortBy_ p)))
    (ordered_matchSet p st).
Proof. apply StronglySorted_merge_sort; apply _. Qed.

Lemma getCars_result_page p w :
  Result.car <$> data (getCars_result p w) =
    paginate (Some (GetCarsParams.limit_ p)) (Some (skip_of p)) (ordered_matchSet p (db w)).
Proof. apply getCars_result_cars. Qed.

(** X1.  When [getCars] returns, the listings of the page come in the
    order asked for: by price going up for [priceAsc], by price going down
    for [priceDesc], and newest first otherwise. *)
Theorem getCars_sorted p w r w' :
  getCars p w = (Normal r, w') →
  match GetCarsParams.sortBy_ p with
  | priceAsc =>
      StronglySorted (λ a b, (Car.price a <= Car.price b)%Q) (Result.car <$> data r)
  | priceDesc =>
      StronglySorted (λ a b, (Car.price b <= Car.price a)%Q) (Result.car <$> data r)
  | newest =>
      StronglySorted (λ a b, Car.createdAt b ≤ Car.createdAt a) (Result.car <$> data r)
  end.
Proof.
  intros (-> & _)%getCars_returns. rewrite getCars_result_page.
  pose proof (StronglySorted_sublist _ _ _
    (paginate_sublist (Some (GetCarsParams.limit_ p)) (Some (skip_of p))
       (ordered_matchSet p (db w))) (ordered_matchSet_sorted p (db w))) as Hs.
  destruct (GetCarsParams.sortBy_ p); cbn in Hs;
    (eapply StronglySorted_mono; [|exact Hs]); intros a b; unfold Car_order; cbn;
    rewrite ?Z.leb_le, ?Qle_bool_iff; done.
Qed.

Lemma getCars_sorted_witness :
  ∃ r, getCars (Sample.sorted_by priceAsc) (Sample.world None) = (Normal r, Sample.world None)
    ∧ Result.car <$> data r = [Sample.honda; Sample.toyota]
    ∧ StronglySorted (λ a b, (Car.price a <= Car.price b)%Q) (Result.car <$> data r).
Proof.
  assert (getCars (Sample.sorted_by priceAsc) (Sample.world None)
    = (Normal (getCars_result (Sample.sorted_by priceAsc) (Sample.world None)),
       Sample.world None)) as Hrun by (vm_compute; reflexivity).
  eexists. split; [exact Hrun|]. split; [vm_compute; reflexivity|].
  exact (getCars_sorted _ _ _ _ Hrun).
Defined.

(** The pages of a list: the first [n] chunks of [m] members. *)
Lemma concat_pages {A} (l : list A) (m : nat) n :
  concat ((λ i, take m (drop (i * m) l)) <$> seq 0 n) = take (n * m) l.
Proof.
  induction n as [|n IH]; [done|].
  rewrite seq_S, fmap_app, concat_app, IH. cbn. rewrite app_nil_r.
  rewrite take_take_drop. f_equal. lia.
Qed.

Lemma getCars_where_with_page k p : getCars_where (with_page k p) = getCars_where p.
Proof. reflexivity. Qed.

Lemma page_rows_with_page p st (i : nat) :
  0 < GetCarsParams.limit_ p →
  page_rows (with_page (Z.of_nat i + 1) p) st =
    take (Z.to_nat (GetCarsParams.limit_ p))
      (drop (i * Z.to_nat (GetCarsParams.limit_ p)) (ordered_matchSet p st)).
Proof.
  intros Hl. unfold page_rows, paginate, skip_of, ordered_matchSet.
  change (GetCarsParams.limit_ (with_page _ p)) with (GetCarsParams.limit_ p).
  change (GetCarsParams.page_ (with_page (Z.of_nat i + 1) p)) with (Z.of_nat i + 1).
  cbn [default]. destruct (Z.leb_spec 0 (GetCarsParams.limit_ p)); [|lia].
  do 2 f_equal. unfold Datatypes.id.
  rewrite Z.add_simpl_r, Z2Nat.inj_mul, Nat2Z.id by lia. done.
Qed.

(** Two sorted lists of the same rows are one list when no two rows have
    the same key. *)
Lemma StronglySorted_unique {A} (R : relation A) (l k : list A) :
  (∀ a b, a ∈ l → b ∈ l → R a b → R b a → a = b) →
  StronglySorted R l → StronglySorted R k → l ≡ₚ k → l = k.
Proof.
  revert k. induction l as [|x l IH]; intros k Hanti Hl Hk Hp.
  - by apply Permutation_nil_l in Hp.
  - destruct k as [|y k]; [by apply Permutation_nil_r in Hp|].
    apply StronglySorted_inv in Hl as [Hl Hx]. apply StronglySorted_inv in Hk as [Hk Hy].
    rewrite Forall_forall in Hx, Hy.
    assert (x = y) as <-.
    { assert (x ∈ y :: k) as [->|Hxk]%elem_of_cons by (rewrite <- Hp; by left); [done|].
      assert (y ∈ x :: l) as [->|Hyl]%elem_of_cons by (rewrite Hp; by left); [done|].
      apply Hanti; [by left|by right|by apply Hx|by apply Hy]. }
    f_equal. apply IH; [|done..|by apply Permutation_cons_inv in Hp].
    intros a b Ha Hb. apply Hanti; by right.
Qed.

(** Listings created at different times have different keys for the
    default order. *)
Lemma keys_differ_newest (l : list Car.t) :
  NoDup (Car.createdAt <$> l) → keys_differ (Prisma.createdAt, desc) l.
Proof.
  intros Hnd a b [i Hi]%list_elem_of_lookup [j Hj]%list_elem_of_lookup.
  unfold Car_order. cbn. rewrite !Z.leb_le. intros Hab Hba.
  assert (i = j) as ->; [|congruence].
  apply (NoDup_lookup _ i j (Car.createdAt a) Hnd).
  - by rewrite list_lookup_fmap, Hi.
  - rewrite list_lookup_fmap, Hj. cbn. f_equal. lia.
Qed.

(** X2.  Take a call whose filters the store accepts, with a positive
    [limit], such that no two listings of its match set have the same sort
    key, and let [sorted] be these listings in the order asked for.  As
    long as [n * limit] is no greater than [Number.MAX_SAFE_INTEGER], the
    calls for the pages 1, 2, ..., n all return; their listings put end to
    end are the first [n * limit] members of [sorted], and from
    [n = pages] on they are [sorted] itself: no listing is left out or
    shown twice from one page to the next. *)
Theorem getCars_pages_tile p w n sorted :
  CarWhereInput_valid (getCars_where p) = true →
  0 < GetCarsParams.limit_ p →
  Z.of_nat n * GetCarsParams.limit_ p ≤ Js.MAX_SAFE_INTEGER →
  keys_differ (getCars_orderBy (GetCarsParams.sortBy_ p)) (matchSet p (db w)) →
  sorted ≡ₚ matchSet p (db w) →
  StronglySorted (Car_order (getCars_orderBy (GetCarsParams.sortBy_ p))) sorted →
  (∀ i, (i < n)%nat →
     getCars (with_page (Z.of_nat i + 1) p) w
       = (Normal (getCars_result (with_page (Z.of_nat i + 1) p) w), w))
  ∧ concat ((λ i, Result.car <$>
                    data (getCars_result (with_page (Z.of_nat i + 1) p) w)) <$> seq 0 n)
      = take (n * Z.to_nat (GetCarsParams.limit_ p)) sorted
  ∧ (ceil_div (Z.of_nat (length (matchSet p (db w)))) (GetCarsParams.limit_ p) ≤ Z.of_nat n →
     concat ((λ i, Result.car <$>
                     data (getCars_result (with_page (Z.of_nat i + 1) p) w)) <$> seq 0 n)
       = sorted).
Proof.
  intros Hv Hl Hmax Hkeys Hperm Hsorted.
  assert (sorted = ordered_matchSet p (db w)) as ->.
  { apply (StronglySorted_unique
             (Car_order (getCars_orderBy (GetCarsParams.sortBy_ p)))).
    - intros a b Ha Hb. apply Hkeys; by rewrite <- Hperm.
    - done.
    - apply ordered_matchSet_sorted.
    - unfold ordered_matchSet. by rewrite merge_sort_Permutation. }
  assert (concat ((λ i, Result.car <$>
                    data (getCars_result (with_page (Z.of_nat i + 1) p) w)) <$> seq 0 n)
      = take (n * Z.to_nat (GetCarsParams.limit_ p)) (ordered_matchSet p (db w))) as Hcat.
  { rewrite <- concat_pages. f_equal. apply list_fmap_ext. intros _ i _.
    rewrite getCars_result_cars. by apply page_rows_with_page. }
  split_and!.
  - intros i Hi.
    assert (skip_of (with_page (Z.of_nat i + 1) p) = Z.of_nat i * GetCarsParams.limit_ p)
      as Hskip.
    { unfold skip_of.
      change (GetCarsParams.limit_ (with_page _ p)) with (GetCarsParams.limit_ p).
      change (GetCarsParams.page_ (with_page (Z.of_nat i + 1) p)) with (Z.of_nat i + 1).
      lia. }
    apply getCars_succeeds; [done| |].
    + rewrite Hskip. nia.
    + unfold in_range. rewrite Hskip.
      change (GetCarsParams.limit_ (with_page _ p)) with (GetCarsParams.limit_ p).
      unfold Js.MAX_SAFE_INTEGER in Hmax. nia.
  - exact Hcat.
  - intros Hn. rewrite Hcat. apply take_ge.
    unfold ordered_matchSet. rewrite merge_sort_Permutation.
    pose proof (ceil_div_bounds (Z.of_nat (length (matchSet p (db w)))) _ Hl). nia.
Qed.

Lemma getCars_pages_tile_witness :
  ∃ sorted,
    sorted ≡ₚ Sample.lot
    ∧ StronglySorted (λ a b, Car.createdAt b ≤ Car.createdAt a) sorted
    ∧ concat ((λ i, Result.car <$>
                 data (getCars_result (with_page (Z.of_nat i + 1) (Sample.paged 1 6))
                         Sample.lot_world)) <$> seq 0 2)
      = sorted.
Proof.
  assert (matchSet (Sample.paged 1 6) (db Sample.lot_world) = Sample.lot) as Hm
    by (vm_compute; reflexivity).
  exists (reverse Sample.lot).
  assert (StronglySorted (Car_order (Prisma.createdAt, desc)) (reverse Sample.lot)) as Hs.
  { vm_compute. repeat (constructor; [|repeat (constructor; [reflexivity|]); constructor]).
    constructor. }
  destruct (getCars_pages_tile (Sample.paged 1 6) Sample.lot_world 2 (reverse Sample.lot))
    as (_ & _ & Hall).
  - vm_compute. reflexivity.
  - reflexivity.
  - vm_compute. discriminate.
  - rewrite Hm. apply keys_differ_newest.
    apply (bool_decide_unpack _). vm_compute. exact I.
  - rewrite Hm. apply reverse_Permutation.
  - exact Hs.
  - split; [apply reverse_Permutation|]. split.
    + eapply StronglySorted_mono; [|exact Hs].
      intros a b. unfold Car_order. cbn. by rewrite Z.leb_le.
    + apply Hall. vm_compute. discriminate.
Defined.

(** *** The wishlist flag *)

Lemma elem_of_wishlist w u carId :
  caller w = Some u →
  carId ∈ wishlist w ↔ is_saved (db w) (User.id u) carId = true.
Proof.
  intros Hu. unfold wishlist. rewrite Hu, is_saved_spec, elem_of_list_to_set.
  rewrite list_elem_of_fmap. setoid_rewrite list_elem_of_filter. split.
  - intros (s & -> & Hs & Hin). eauto.
  - intros (s & Hin & Hs & Hc). eauto.
Qed.

(** X3.  For a caller with a user row, each listing [getCars] returns
    carries [wishlisted] exactly when that user has saved the car. *)
Theorem getCars_wishlisted p w u r w' :
  caller w = Some u →
  getCars p w = (Normal r, w') →
  ∀ x, x ∈ data r → wishlisted x = is_saved (db w) (User.id u) (Car.id (Result.car x)).
Proof.
  intros Hu (-> & _)%getCars_returns x (c & -> & _)%list_elem_of_fmap. cbn.
  apply eq_true_iff_eq. rewrite bool_decide_eq_true. by apply elem_of_wishlist.
Qed.

Lemma getCars_wishlisted_witness :
  ∃ r, getCars Sample.no_params (Sample.world (Some "clerk_bob"))
         = (Normal r, Sample.world (Some "clerk_bob"))
    ∧ ∀ x, x ∈ data r →
        wishlisted x = is_saved Sample.store (User.id Sample.bob) (Car.id (Result.car x)).
Proof.
  assert (getCars Sample.no_params (Sample.world (Some "clerk_bob"))
    = (Normal (getCars_result Sample.no_params (Sample.world (Some "clerk_bob"))),
       Sample.world (Some "clerk_bob"))) as Hrun by (vm_compute; reflexivity).
  eexists. split; [exact Hrun|].
  exact (getCars_wishlisted Sample.no_params (Sample.world (Some "clerk_bob")) Sample.bob
           _ _ eq_refl Hrun).
Defined.

(** *** The filters of [getCars] *)

Lemma getCars_where_fields p :
  getCars_where p =
    mkCarWhereInput
      (CarWhere.mk (Some AVAILABLE)
         (if Js.string_truthy (GetCarsParams.brand_ p)
          then Some (equals (GetCarsParams.brand_ p) insensitive) else None)
         None None
         (if Js.string_truthy (GetCarsParams.bodyType_ p)
          then Some (equals (GetCarsParams.bodyType_ p) insensitive) else None)
         (if Js.string_truthy (GetCarsParams.fuelType_ p)
          then Some (equals (GetCarsParams.fuelType_ p) insensitive) else None)
         (if Js.string_truthy (GetCarsParams.transmission_ p)
          then Some (equals (GetCarsParams.transmission_ p) insensitive) else None)
         (Some (mkDecimalFilter
            (Some (Js.or_else (Js.parseFloat (GetCarsParams.minPrice_ p)) (Js.of_Z 0)))
            (if Js.truthy (GetCarsParams.maxPrice_ p)
             then Some (Js.parseFloat (GetCarsParams.maxPrice_ p)) else None))))
      (if Js.string_truthy (GetCarsParams.search_ p)
       then Some [ set_brand (contains (GetCarsParams.search_ p) insensitive) CarWhere.empty;
                   set_model (contains (GetCarsParams.search_ p) insensitive) CarWhere.empty;
                   set_description (contains (GetCarsParams.search_ p) insensitive)
                     CarWhere.empty ]
       else None).
Proof. where_cases p; reflexivity. Qed.

Lemma string_truthy_spec s : Js.string_truthy s = true ↔ s ≠ "".
Proof.
  unfold Js.string_truthy. rewrite negb_true_iff. split.
  - intros H ->. by rewrite String.eqb_refl in H.
  - intros H. by apply String.eqb_neq.
Qed.

(** **** Patterns without wildcards *)

Lemma wildcard_false c :
  wildcard c = false →
  Ascii.eqb c "%" = false ∧ Ascii.eqb c "_" = false ∧ Ascii.eqb c escape = false.
Proof. unfold wildcard. rewrite !orb_false_iff. tauto. Qed.

Lemma like_any p t :
  like (String "%" p) t =
    like p t || match t with String _ t' => like (String "%" p) t' | EmptyString => false end.
Proof. by destruct t. Qed.

(** A pattern without wildcards matches itself only. *)
Lemma like_literal p t : literal p = true → like p t = String.eqb p t.
Proof.
  revert t. induction p as [|c p IH]; intros t Hp.
  - by destruct t.
  - cbn [literal] in Hp. apply andb_prop in Hp as [Hc%negb_true_iff Hp].
    destruct (wildcard_false c Hc) as (H1 & H2 & H3).
    cbn [like]. rewrite H1, H2, H3. destruct t as [|d t]; [done|].
    cbn [String.eqb]. rewrite IH by done. by destruct (Ascii.eqb c d).
Qed.

Lemma like_literal_prefix p t :
  literal p = true → like (p +:+ "%") t = String.prefix p t.
Proof.
  revert t. induction p as [|c p IH]; intros t Hp.
  - change ("" +:+ "%") with "%". induction t as [|d t IHt]; [done|].
    rewrite like_any, IHt. cbn. by destruct t.
  - cbn [literal] in Hp. apply andb_prop in Hp as [Hc%negb_true_iff Hp].
    destruct (wildcard_false c Hc) as (H1 & H2 & H3).
    change (String c p +:+ "%") with (String c (p +:+ "%")).
    cbn [like]. rewrite H1, H2, H3. destruct t as [|d t]; [done|].
    cbn [String.prefix]. rewrite IH by done.
    destruct (Ascii.eqb_spec c d) as [->|Hne]; destruct (ascii_dec _ _); done.
Qed.

(** Between two [%] it matches the texts it occurs in. *)
Lemma like_literal_includes p t :
  literal p = true → like ("%" +:+ p +:+ "%") t = includes p t.
Proof.
  intros Hp. change ("%" +:+ p +:+ "%") with (String "%" (p +:+ "%")).
  induction t as [|d t IH].
  - rewrite like_any, like_literal_prefix by done. cbn. by rewrite orb_false_r.
  - rewrite like_any, like_literal_prefix, IH by done. reflexivity.
Qed.

Lemma wildcard_toLowerCase c : wildcard (toLowerCase_ascii c) = wildcard c.
Proof. destruct c as [[] [] [] [] [] [] [] []]; reflexivity. Qed.

Lemma literal_toLowerCase s : literal (toLowerCase s) = literal s.
Proof. induction s as [|c s IH]; [done|]. cbn. by rewrite wildcard_toLowerCase, IH. Qed.

Lemma toLowerCase_app a b : toLowerCase (a +:+ b) = toLowerCase a +:+ toLowerCase b.
Proof.
  induction a as [|c a IH]; [done|].
  change (String c a +:+ b) with (String c (a +:+ b)). cbn [toLowerCase].
  by rewrite IH.
Qed.

Lemma like_valid_literal s : literal s = true → like_valid s = true.
Proof.
  induction s as [|c s IH]; [done|]. cbn [literal like_valid].
  intros [Hc%negb_true_iff Hs]%andb_prop.
  destruct (wildcard_false c Hc) as (_ & _ & ->). by apply IH.
Qed.

Lemma matches_equals_literal s v :
  literal s = true →
  StringFilter_matches (equals s insensitive) v = true ↔ same_insensitive s v.
Proof.
  intros Hs. cbn. rewrite like_literal by (by rewrite literal_toLowerCase).
  apply String.eqb_eq.
Qed.

Lemma matches_contains_literal s v :
  literal s = true →
  StringFilter_matches (contains s insensitive) v = true ↔ occurs_insensitive s v.
Proof.
  intros Hs. cbn. rewrite !toLowerCase_app.
  change (toLowerCase "%") with "%".
  by rewrite like_literal_includes by (by rewrite literal_toLowerCase).
Qed.

Lemma holds_equals_insensitive s v :
  literal s = true →
  holds StringFilter_matches
    (if Js.string_truthy s then Some (equals s insensitive) else None) v = true
  ↔ (s ≠ "" → same_insensitive s v).
Proof.
  intros Hl. destruct (Js.string_truthy s) eqn:E; cbn [holds].
  - rewrite matches_equals_literal by done. apply string_truthy_spec in E. tauto.
  - split; [|done]. intros _ Hs. apply string_truthy_spec in Hs. congruence.
Qed.

(** X4.  Take a call whose search text and brand, body type, fuel type
    and transmission filters have none of the characters [%], [_] and
    backslash, which the database reads as wildcards and escape.  A car
    is in its match set exactly when it is in the table with status
    AVAILABLE; its brand, model or description contains the search text,
    when one is given; its brand, body type, fuel type and transmission
    equal the ones given; all of this whatever the case of the letters;
    and its price is within the bounds.  An empty string for a filter is
    no filter. *)
Theorem getCars_matchSet p st c :
  literal (GetCarsParams.search_ p) = true →
  literal (GetCarsParams.brand_ p) = true →
  literal (GetCarsParams.bodyType_ p) = true →
  literal (GetCarsParams.fuelType_ p) = true →
  literal (GetCarsParams.transmission_ p) = true →
  c ∈ matchSet p st ↔
    c ∈ cars st
    ∧ Car.status c = AVAILABLE
    ∧ (GetCarsParams.search_ p ≠ "" →
         occurs_insensitive (GetCarsParams.search_ p) (Car.brand c)
         ∨ occurs_insensitive (GetCarsParams.search_ p) (Car.model c)
         ∨ occurs_insensitive (GetCarsParams.search_ p) (Car.description c))
    ∧ (GetCarsParams.brand_ p ≠ "" → same_insensitive (GetCarsParams.brand_ p) (Car.brand c))
    ∧ (GetCarsParams.bodyType_ p ≠ "" →
         same_insensitive (GetCarsParams.bodyType_ p) (Car.bodyType c))
    ∧ (GetCarsParams.fuelType_ p ≠ "" →
         same_insensitive (GetCarsParams.fuelType_ p) (Car.fuelType c))
    ∧ (GetCarsParams.transmission_ p ≠ "" →
         same_insensitive (GetCarsParams.transmission_ p) (Car.transmission c))
    ∧ Decimal_gte (Car.price c)
        (Some (Js.or_else (Js.parseFloat (GetCarsParams.minPrice_ p)) (Js.of_Z 0))) = true
    ∧ Decimal_lte (Car.price c)
        (if Js.truthy (GetCarsParams.maxPrice_ p)
         then Some (Js.parseFloat (GetCarsParams.maxPrice_ p)) else None) = true.
Proof.
  intros Hsearch Hbrand HbodyType HfuelType Htransmission.
  rewrite matchSet_elem, getCars_where_fields.
  unfold CarWhereInput_matches, CarWhere_matches.
  cbn [fields OR CarWhere.status CarWhere.brand CarWhere.model CarWhere.description
       CarWhere.bodyType CarWhere.fuelType CarWhere.transmission CarWhere.price].
  rewrite !andb_true_iff, !holds_equals_insensitive by done.
  cbn [holds]. rewrite bool_decide_eq_true, ?andb_true_r.
  unfold DecimalFilter_matches. cbn [gte lte]. rewrite andb_true_iff.
  assert (holds (λ alternatives c0, existsb (λ a, CarWhere_matches a c0) alternatives)
            (if Js.string_truthy (GetCarsParams.search_ p)
             then Some [ set_brand (contains (GetCarsParams.search_ p) insensitive)
                           CarWhere.empty;
                         set_model (contains (GetCarsParams.search_ p) insensitive)
                           CarWhere.empty;
                         set_description (contains (GetCarsParams.search_ p) insensitive)
                           CarWhere.empty ]
             else None) c = true
          ↔ (GetCarsParams.search_ p ≠ "" →
               occurs_insensitive (GetCarsParams.search_ p) (Car.brand c)
               ∨ occurs_insensitive (GetCarsParams.search_ p) (Car.model c)
               ∨ occurs_insensitive (GetCarsParams.search_ p) (Car.description c))) as ->.
  { destruct (Js.string_truthy (GetCarsParams.search_ p)) eqn:E.
    - apply string_truthy_spec in E. unfold CarWhere_matches.
      cbn [holds existsb set_brand set_model set_description CarWhere.empty
           CarWhere.status CarWhere.brand CarWhere.model CarWhere.description
           CarWhere.bodyType CarWhere.fuelType CarWhere.transmission CarWhere.price].
      rewrite ?andb_true_r, ?orb_false_r, !orb_true_iff. cbn [andb].
      rewrite !matches_contains_literal by done. tauto.
    - cbn. split; [|done]. intros _ Hs. apply string_truthy_spec in Hs. congruence. }
  tauto.
Qed.

Lemma getCars_matchSet_witness :
  Sample.toyota ∈ matchSet
    (GetCarsParams.mk (Some "oyo") (Some "TOYOTA") None None None None None None None None)
    Sample.store.
Proof.
  apply getCars_matchSet; [reflexivity..|]. split_and!.
  - apply list_elem_of_here.
  - reflexivity.
  - intros _. left. reflexivity.
  - intros _. reflexivity.
  - intros H. exfalso. apply H. reflexivity.
  - intros H. exfalso. apply H. reflexivity.
  - intros H. exfalso. apply H. reflexivity.
  - vm_compute. reflexivity.
  - vm_compute. reflexivity.
Defined.

(** **** Wildcards *)

Lemma like_percent t : like "%" t = true.
Proof. induction t as [|c t IH]; [done|]. rewrite like_any, IH. by destruct t. Qed.

(** A pattern made of [%] matches every text. *)
Lemma like_percents p t : percents p = true → p ≠ "" → like p t = true.
Proof.
  induction p as [|c p IH]; [done|]. cbn [percents].
  intros [->%Ascii.eqb_eq Hp]%andb_prop _.
  destruct p as [|d p]; [apply like_percent|].
  rewrite like_any, IH by done. done.
Qed.

Lemma percents_toLowerCase s : percents s = true → toLowerCase s = s.
Proof.
  induction s as [|c s IH]; [done|]. cbn [percents toLowerCase].
  intros [->%Ascii.eqb_eq Hs]%andb_prop. by rewrite IH.
Qed.

Lemma percents_app a b : percents a = true → percents b = true → percents (a +:+ b) = true.
Proof.
  intros Ha Hb. induction a as [|c a IH]; [done|].
  change (String c a +:+ b) with (String c (a +:+ b)). cbn [percents] in *.
  apply andb_prop in Ha as [-> Ha]. by apply IH.
Qed.

(** X24.  The search text is handed to the database as a pattern, in
    which [%] stands for any run of characters: a search text made of
    [%] only excludes nothing, and the call selects the listings it
    selects with no search text. *)
Theorem getCars_search_percent p st search :
  search ≠ "" → percents search = true →
  matchSet (with_search (Some search) p) st = matchSet (with_search None p) st.
Proof.
  intros Hne%string_truthy_spec Hsearch.
  unfold matchSet, car_rows. apply list_filter_iff. intros c.
  rewrite !Is_true_true, !getCars_where_fields. unfold CarWhereInput_matches.
  cbn [fields OR]. rewrite !andb_true_iff.
  change (GetCarsParams.search_ (with_search (Some search) p)) with search.
  change (GetCarsParams.search_ (with_search None p)) with "".
  change (GetCarsParams.brand_ (with_search _ p)) with (GetCarsParams.brand_ p).
  change (GetCarsParams.bodyType_ (with_search _ p)) with (GetCarsParams.bodyType_ p).
  change (GetCarsParams.fuelType_ (with_search _ p)) with (GetCarsParams.fuelType_ p).
  change (GetCarsParams.transmission_ (with_search _ p))
    with (GetCarsParams.transmission_ p).
  change (GetCarsParams.minPrice_ (with_search _ p)) with (GetCarsParams.minPrice_ p).
  change (GetCarsParams.maxPrice_ (with_search _ p)) with (GetCarsParams.maxPrice_ p).
  rewrite Hne. cbn [Js.string_truthy String.eqb negb holds existsb].
  assert (CarWhere_matches (set_brand (contains search insensitive) CarWhere.empty) c = true)
    as ->; [|tauto].
  unfold CarWhere_matches.
  cbn [holds set_brand CarWhere.empty CarWhere.status CarWhere.brand CarWhere.model
       CarWhere.description CarWhere.bodyType CarWhere.fuelType CarWhere.transmission
       CarWhere.price andb].
  rewrite !andb_true_r. cbn [StringFilter_matches StringFilter_pattern fold_case].
  assert (percents ("%" +:+ search +:+ "%") = true) as Hp
    by (apply (percents_app "%"); [done|by apply percents_app]).
  rewrite percents_toLowerCase by done. by apply like_percents.
Qed.

Lemma getCars_search_percent_witness :
  matchSet (with_search (Some "%") Sample.no_params) Sample.store
    = [Sample.toyota; Sample.honda]
  ∧ matchSet (with_search (Some "zzz") Sample.no_params) Sample.store = [].
Proof.
  split; [|vm_compute; reflexivity].
  rewrite (getCars_search_percent Sample.no_params Sample.store "%");
    [|discriminate|reflexivity].
  vm_compute. reflexivity.
Defined.

(** *** [toggleSavedCar]: refusals and invariants *)

(** X5.  [toggleSavedCar] throws "Error toggling saved car:
    Unauthorized" when nobody is signed in and "Error toggling saved car:
    User not found" when the session has no user row, and returns the
    failure "Car not found" for a car that does not exist; in each case the
    world is left as it was. *)
Theorem toggleSavedCar_refusals carId w :
  (session w = None →
     toggleSavedCar carId w
       = (Abrupt (Error "Error toggling saved car: Unauthorized"), w))
  ∧ (is_Some (session w) → caller w = None →
       toggleSavedCar carId w
         = (Abrupt (Error "Error toggling saved car: User not found"), w))
  ∧ (is_Some (caller w) → car_of_id (db w) carId = None →
       toggleSavedCar carId w = (Normal (failure "Car not found"), w)).
Proof.
  unfold toggleSavedCar, caller, car_of_id, db_user_findUnique, db_car_findUnique. run.
  split_and!.
  - by intros ->.
  - intros [userId ->] ->. done.
  - destruct (session w) as [userId|]; [|by intros [? [=]]].
    intros [u ->] ->. done.
Qed.

Lemma toggleSavedCar_refusals_witness :
  toggleSavedCar "c1" (Sample.world None)
    = (Abrupt (Error "Error toggling saved car: Unauthorized"), Sample.world None)
  ∧ toggleSavedCar "c1" (Sample.world (Some "clerk_stranger"))
      = (Abrupt (Error "Error toggling saved car: User not found"),
         Sample.world (Some "clerk_stranger"))
  ∧ toggleSavedCar "c9" (Sample.world (Some "clerk_bob"))
      = (Normal (failure "Car not found"), Sample.world (Some "clerk_bob")).
Proof.
  split_and!.
  - apply (toggleSavedCar_refusals "c1" (Sample.world None)). reflexivity.
  - apply (toggleSavedCar_refusals "c1" (Sample.world (Some "clerk_stranger"))).
    + by eexists.
    + reflexivity.
  - apply (toggleSavedCar_refusals "c9" (Sample.world (Some "clerk_bob"))).
    + by eexists.
    + reflexivity.
Defined.

Lemma toggleSavedCar_saved carId w u car row :
  caller w = Some u → car_of_id (db w) carId = Some car →
  head (saved_rows (User.id u) carId (db w)) = Some row →
  toggleSavedCar carId w =
    (Normal (success (mkToggleSaved false "Car removed from favorites")),
     mkWorld
       (with_userSavedCars
          (filter (λ s, ¬ (UserSavedCar.userId s = User.id u ∧ UserSavedCar.carId s = carId)))
          (db w))
       (session w) (clock w) (uuids w) (revalidated w ++ ["/saved-cars"])).
Proof.
  intros Hu Hcar E. destruct (caller_Some w u Hu) as (userId & Hs & Hrow & Hin).
  unfold car_of_id in Hcar.
  unfold toggleSavedCar, db_user_findUnique, db_car_findUnique,
    db_userSavedCar_findUnique. run. rewrite Hs, Hrow, Hcar, E.
  unfold db_userSavedCar_delete, modify_db, revalidatePath. run. rewrite E.
  cbn [db session clock uuids revalidated]. by rewrite ?Hs.
Qed.

Lemma toggleSavedCar_unsaved carId w u car :
  caller w = Some u → car_of_id (db w) carId = Some car →
  saved_rows (User.id u) carId (db w) = [] →
  toggleSavedCar carId w =
    (Normal (success (mkToggleSaved true "Car added to favorites")),
     mkWorld
       (with_userSavedCars
          (λ rows, rows ++ [UserSavedCar.mk ("uuid-" +:+ pretty (uuids w)) (User.id u)
                              carId (clock w)])
          (db w))
       (session w) (clock w) (S (uuids w)) (revalidated w ++ ["/saved-cars"])).
Proof.
  intros Hu Hcar E. destruct (caller_Some w u Hu) as (userId & Hs & Hrow & Hin).
  unfold car_of_id in Hcar.
  unfold toggleSavedCar, db_user_findUnique, db_car_findUnique,
    db_userSavedCar_findUnique. run. rewrite Hs, Hrow, Hcar, E. cbn [head].
  unfold db_userSavedCar_create, modify_db, revalidatePath, uuid. run.
  rewrite (bool_decide_eq_false_2 (filter _ (users (db w)) = [])); last first.
  { intros Hnil. by apply (filter_nil_not_elem_of _ _ u Hnil). }
  rewrite (bool_decide_eq_false_2 (filter _ (cars (db w)) = [])); last first.
  { intros Hnil. by rewrite Hnil in Hcar. }
  cbn [orb]. rewrite (bool_decide_eq_false_2 (saved_rows _ _ _ ≠ [])) by (by intros Hne).
  cbn [db session clock uuids revalidated]. by rewrite ?Hs.
Qed.

Lemma toggleSavedCar_refused_world carId w :
  caller w = None ∨ car_of_id (db w) carId = None → (toggleSavedCar carId w).2 = w.
Proof.
  unfold toggleSavedCar, caller, car_of_id, db_user_findUnique, db_car_findUnique. run.
  destruct (session w) as [userId|]; [|done].
  destruct (head (filter _ (users (db w)))) as [u|]; [|done].
  intros [?|Hc]; [done|]. by rewrite Hc.
Qed.

(** What a call can do to the world: nothing, or one of the two above. *)
Lemma toggleSavedCar_world carId w :
  (toggleSavedCar carId w).2 = w
  ∨ ∃ u car,
      caller w = Some u ∧ car_of_id (db w) carId = Some car
      ∧ ((saved_rows (User.id u) carId (db w) ≠ []
          ∧ (toggleSavedCar carId w).2 =
              mkWorld
                (with_userSavedCars
                   (filter (λ s, ¬ (UserSavedCar.userId s = User.id u
                                    ∧ UserSavedCar.carId s = carId)))
                   (db w))
                (session w) (clock w) (uuids w) (revalidated w ++ ["/saved-cars"]))
         ∨ (saved_rows (User.id u) carId (db w) = []
            ∧ (toggleSavedCar carId w).2 =
                mkWorld
                  (with_userSavedCars
                     (λ rows, rows ++ [UserSavedCar.mk ("uuid-" +:+ pretty (uuids w))
                                         (User.id u) carId (clock w)])
                     (db w))
                  (session w) (clock w) (S (uuids w)) (revalidated w ++ ["/saved-cars"]))).
Proof.
  destruct (caller w) as [u|] eqn:Hu;
    [|left; apply toggleSavedCar_refused_world; by left].
  destruct (car_of_id (db w) carId) as [car|] eqn:Hcar;
    [|left; apply toggleSavedCar_refused_world; by right].
  right. exists u, car. split; [done|]. split; [done|].
  destruct (saved_rows (User.id u) carId (db w)) as [|row rows] eqn:E.
  - right. split; [done|]. by rewrite (toggleSavedCar_unsaved carId w u car).
  - left. split; [done|]. rewrite (toggleSavedCar_saved carId w u car row); [done..|].
    by rewrite E.
Qed.

Lemma toggleSavedCar_saved_refer carId w :
  saved_refer (db w) → saved_refer (db (toggleSavedCar carId w).2).
Proof.
  destruct (toggleSavedCar_world carId w)
    as [->|(u & car & Hu & Hcar & [[Hne ->]|[Hnil ->]])]; [done| |];
    unfold saved_refer; cbn [db userSavedCars with_userSavedCars users cars].
  - intros Href s [_ Hs]%list_elem_of_filter. by apply Href.
  - intros Href s [Hs| ->%list_elem_of_singleton]%elem_of_app; [by apply Href|].
    cbn. destruct (caller_Some w u Hu) as (_ & _ & _ & Hin).
    apply head_filter_Some in Hcar as [Hc Hid]. split; eauto.
Qed.

Lemma Sample_saved_refer : saved_refer Sample.store.
Proof.
  intros s ->%list_elem_of_singleton. split.
  - exists Sample.bob. split; [apply list_elem_of_further, list_elem_of_here|reflexivity].
  - exists Sample.toyota. split; [apply list_elem_of_here|reflexivity].
Qed.

(** X6.  Whatever its argument and its outcome, [toggleSavedCar] keeps
    the saved-car table free of duplicate (user, car) pairs and every
    saved row pointing to an existing user and car, and writes to no other
    table. *)
Theorem toggleSavedCar_keeps_invariants carId w :
  (saved_unique (db w) → saved_unique (db (toggleSavedCar carId w).2))
  ∧ (saved_refer (db w) → saved_refer (db (toggleSavedCar carId w).2))
  ∧ users (db (toggleSavedCar carId w).2) = users (db w)
  ∧ cars (db (toggleSavedCar carId w).2) = cars (db w)
  ∧ testDriveBookings (db (toggleSavedCar carId w).2) = testDriveBookings (db w)
  ∧ dealershipInfos (db (toggleSavedCar carId w).2) = dealershipInfos (db w)
  ∧ Schema.workingHours (db (toggleSavedCar carId w).2) = Schema.workingHours (db w).
Proof.
  split; [|split; [apply toggleSavedCar_saved_refer|]].
  all: destruct (toggleSavedCar_world carId w)
    as [->|(u & car & Hu & Hcar & [[Hne ->]|[Hnil ->]])]; [done| |];
    cbn [db with_userSavedCars users cars testDriveBookings dealershipInfos
         Schema.workingHours]; try done.
  - unfold saved_unique. cbn [userSavedCars with_userSavedCars]. intros Hnd.
    eapply sublist_NoDup; [exact Hnd|]. apply fmap_sublist, sublist_filter.
  - unfold saved_unique. cbn [userSavedCars with_userSavedCars]. intros Hnd.
    rewrite fmap_app. apply NoDup_app. split_and!; [done| |apply NoDup_singleton].
    intros k (s & -> & Hs)%list_elem_of_fmap [= Hsu Hsc]%list_elem_of_singleton.
    apply (filter_nil_not_elem_of _ _ s Hnil); [by split|done].
Qed.

Lemma toggleSavedCar_keeps_invariants_witness :
  saved_unique Sample.store
  ∧ saved_unique (db (toggleSavedCar "c2" (Sample.world (Some "clerk_bob"))).2)
  ∧ saved_refer (db (toggleSavedCar "c2" (Sample.world (Some "clerk_bob"))).2)
  ∧ length (userSavedCars (db (toggleSavedCar "c2" (Sample.world (Some "clerk_bob"))).2))
      = 2%nat.
Proof.
  assert (saved_unique Sample.store) as Hu by (apply NoDup_singleton).
  destruct (toggleSavedCar_keeps_invariants "c2" (Sample.world (Some "clerk_bob")))
    as (Hunique & Hrefer & _).
  split; [exact Hu|]. split; [exact (Hunique Hu)|].
  split; [exact (Hrefer Sample_saved_refer)|]. vm_compute. reflexivity.
Defined.

(** *** [getCarById]: the listing, its flag and the dealership *)

(** X7.  [getCarById] returns the failure "Car not found" for an id
    that no listing has.  For the id of a listing it returns that listing,
    with [wishlisted] set exactly when the caller has a user row that has
    saved the car, and with the first dealership row and the working hours
    of that dealership, or no dealership when the table is empty; nothing
    is changed. *)
Theorem getCarById_details carId w :
  (car_of_id (db w) carId = None →
     getCarById carId w = (Normal (failure "Car not found"), w))
  ∧ (∀ car, car_of_id (db w) carId = Some car →
       ∃ d, getCarById carId w = (Normal (success d), w)
         ∧ Result.car (details d) = car
         ∧ Car.id car = carId
         ∧ wishlisted (details d) =
             match caller w with
             | Some u => is_saved (db w) (User.id u) carId
             | None => false
             end
         ∧ testDrive_dealership (testDriveInfo d) =
             (λ i, serializeDealership
                     (mkDealership i
                        (filter (λ h, WorkingHour.dealershipId h = DealershipInfo.id i)
                           (Schema.workingHours (db w)))))
             <$> head (dealershipInfos (db w))).
Proof.
  split; [apply getCarById_not_found|].
  intros car Hc. unfold car_of_id in Hc. unfold getCarById. run. rewrite current_user_run.
  unfold db_car_findUnique. run. rewrite Hc.
  unfold db_userSavedCar_findUnique, db_testDriveBooking_findFirst_newest,
    db_dealershipInfo_findFirst_include, db_dealershipInfo_findFirst, include_workingHours.
  run. apply head_filter_Some in Hc as [_ Hid].
  destruct (caller w) as [u|]; run;
    destruct (head (dealershipInfos (db w))); run;
    (eexists; split; [reflexivity|]);
    cbn [details testDriveInfo testDrive_dealership wishlisted serializeCarData Result.car];
    (split_and!; [done..| |done]); try done.
  all: unfold is_saved; apply eq_true_iff_eq;
    rewrite !bool_decide_eq_true;
    destruct (saved_rows (User.id u) carId (db w)) as [|row rows]; cbn;
    split; (done || (intros []; done) || eauto).
Qed.

Lemma getCarById_details_witness :
  ∃ d, getCarById "c1" (Sample.world (Some "clerk_bob"))
         = (Normal (success d), Sample.world (Some "clerk_bob"))
    ∧ Result.car (details d) = Sample.toyota
    ∧ wishlisted (details d) = true
    ∧ testDrive_dealership (testDriveInfo d) = None.
Proof.
  destruct (getCarById_details "c1" (Sample.world (Some "clerk_bob"))) as [_ Hfound].
  destruct (Hfound Sample.toyota eq_refl) as (d & Hrun & Hcar & _ & Hw & Hd).
  exists d. split; [exact Hrun|]. split; [exact Hcar|].
  split; [rewrite Hw; reflexivity|rewrite Hd; reflexivity].
Defined.

Lemma booking_query_own st userId carId :
  filter (λ b, TestDriveBooking_matches
                 (mkTestDriveBookingWhere (Some carId) (Some userId)
                    (Some [PENDING; CONFIRMED; COMPLETED])) b)
    (testDriveBookings st)
  = own_bookings st userId carId.
Proof.
  unfold own_bookings. apply list_filter_iff. intros b.
  unfold TestDriveBooking_matches. cbn.
  rewrite Is_true_true, !andb_true_iff, !bool_decide_eq_true. tauto.
Qed.

(** X23.  For a caller with a user row and the id of a listing,
    [getCarById] returns [userTestDrive = null] exactly when the user has
    no pending, confirmed or completed booking of that car; otherwise it
    returns the id, status and date of one of these bookings of the user,
    and none of them was created later.  A booking of another user, of
    another car or in another state is never returned. *)
Theorem getCarById_user_test_drive carId w car u :
  car_of_id (db w) carId = Some car → caller w = Some u →
  ∃ d, getCarById carId w = (Normal (success d), w)
    ∧ (userTestDrive (testDriveInfo d) = None ↔ own_bookings (db w) (User.id u) carId = [])
    ∧ ∀ b, userTestDrive (testDriveInfo d) = Some b →
        ∃ row, row ∈ own_bookings (db w) (User.id u) carId
          ∧ b = mkUserTestDrive (TestDriveBooking.id row) (TestDriveBooking.status row)
                  (toISOString (TestDriveBooking.bookingDate row))
          ∧ ∀ row', row' ∈ own_bookings (db w) (User.id u) carId →
              TestDriveBooking.createdAt row' ≤ TestDriveBooking.createdAt row.
Proof.
  intros Hc Hu. destruct (getCarById_found carId w car Hc) as (d & Hrun & Hd).
  exists d. split; [exact Hrun|]. rewrite Hu in Hd. cbn [fmap option_fmap option_map] in Hd.
  rewrite booking_query_own in Hd. rewrite Hd. split.
  - split.
    + intros Hn.
      destruct (merge_sort newer_first (own_bookings (db w) (User.id u) carId))
        as [|row rows] eqn:E; [|done].
      pose proof (merge_sort_Permutation newer_first
                    (own_bookings (db w) (User.id u) carId)) as Hp.
      rewrite E in Hp. by apply Permutation_nil_l in Hp.
    + intros ->. reflexivity.
  - intros b Hb.
    destruct (head (merge_sort newer_first (own_bookings (db w) (User.id u) carId)))
      as [row|] eqn:Hh; [|done].
    injection Hb as <-. exists row. split_and!; [|done|].
    + apply head_Some_elem_of in Hh. by rewrite merge_sort_Permutation in Hh.
    + intros row' Hin'.
      apply (head_StronglySorted newer_first _ row row'
               (StronglySorted_merge_sort newer_first _) Hh).
      by rewrite merge_sort_Permutation.
Qed.

Lemma getCarById_user_test_drive_witness :
  ∃ d, getCarById "c1" (Sample.world (Some "clerk_bob"))
         = (Normal (success d), Sample.world (Some "clerk_bob"))
    ∧ userTestDrive (testDriveInfo d) = Some (mkUserTestDrive "b1" PENDING (toISOString 100)).
Proof.
  destruct (getCarById_user_test_drive "c1" (Sample.world (Some "clerk_bob"))
              Sample.toyota Sample.bob eq_refl eq_refl) as (d & Hrun & Hnone & Hsome).
  exists d. split; [exact Hrun|].
  assert (own_bookings (db (Sample.world (Some "clerk_bob"))) (User.id Sample.bob) "c1"
          = [Sample.bobs_booking]) as Hown by (vm_compute; reflexivity).
  rewrite Hown in Hnone, Hsome.
  destruct (userTestDrive (testDriveInfo d)) as [b|].
  - destruct (Hsome b eq_refl) as (row & Hrow & -> & _).
    apply list_elem_of_singleton in Hrow. rewrite Hrow. reflexivity.
  - destruct Hnone as [Hnone _]. discriminate (Hnone eq_refl).
Defined.

(** *** [getSavedCars] *)

Lemma include_car_run s w c :
  car_of_id (db w) (UserSavedCar.carId s) = Some c →
  include_car s w = (Normal (mkSavedCarWithCar s c), w).
Proof. unfold car_of_id, include_car. run. by intros ->. Qed.

Lemma mapM_include_car_run l w :
  (∀ s, s ∈ l → is_Some (car_of_id (db w) (UserSavedCar.carId s))) →
  ∃ rs, mapM include_car l w = (Normal rs, w)
    ∧ saved_row <$> rs = l
    ∧ Forall (λ r, car_of_id (db w) (UserSavedCar.carId (saved_row r)) = Some (saved_car r)) rs.
Proof.
  induction l as [|s l IH]; intros Hl.
  - exists []. by split_and!.
  - destruct IH as (rs & Hrun & Hrows & Hcars); [intros s' Hs'; apply Hl; by right|].
    destruct (Hl s) as [c Hc]; [left|].
    exists (mkSavedCarWithCar s c :: rs). cbn [mapM]. run.
    rewrite (include_car_run s w c Hc), Hrun. split_and!; [done|by rewrite <- Hrows|].
    constructor; [done|exact Hcars].
Qed.

(** X8.  [getSavedCars] returns the failure "Unauthorized" when nobody
    is signed in and the failure "User not found" when the session has no
    user row; it does not throw, and the world is left as it was. *)
Theorem getSavedCars_refusals w :
  (session w = None → getSavedCars w = (Normal (failure "Unauthorized"), w))
  ∧ (is_Some (session w) → caller w = None →
       getSavedCars w = (Normal (failure "User not found"), w)).
Proof.
  unfold getSavedCars, caller, db_user_findUnique. run. split.
  - by intros ->.
  - intros [userId ->] ->. done.
Qed.

Lemma getSavedCars_refusals_witness :
  getSavedCars (Sample.world None) = (Normal (failure "Unauthorized"), Sample.world None)
  ∧ getSavedCars (Sample.world (Some "clerk_stranger"))
      = (Normal (failure "User not found"), Sample.world (Some "clerk_stranger")).
Proof.
  split.
  - apply (getSavedCars_refusals (Sample.world None)). reflexivity.
  - apply (getSavedCars_refusals (Sample.world (Some "clerk_stranger"))).
    + by eexists.
    + reflexivity.
Defined.

Lemma saved_refer_car st s :
  saved_refer st → s ∈ userSavedCars st → is_Some (car_of_id st (UserSavedCar.carId s)).
Proof.
  intros Href Hs. destruct (Href s Hs) as (_ & c & Hc & Hid). unfold car_of_id.
  destruct (filter _ (cars st)) as [|c' l] eqn:E; [|by eexists].
  by destruct (filter_nil_not_elem_of _ _ c E).
Qed.

Lemma elem_of_saved_by st userId s :
  s ∈ saved_by st userId ↔ s ∈ userSavedCars st ∧ UserSavedCar.userId s = userId.
Proof.
  unfold saved_by. rewrite merge_sort_Permutation, list_elem_of_filter. tauto.
Qed.

(** The call of a caller with a user row, in terms of the joined rows. *)
Lemma getSavedCars_run w u :
  caller w = Some u → saved_refer (db w) →
  ∃ rs, getSavedCars w =
          (Normal (success ((λ saved, serializeCarData (saved_car saved) true) <$> rs)), w)
    ∧ saved_row <$> rs = saved_by (db w) (User.id u)
    ∧ Forall (λ r, car_of_id (db w) (UserSavedCar.carId (saved_row r)) = Some (saved_car r))
        rs
    ∧ (λ x, Car.id (Result.car x)) <$>
        ((λ saved, serializeCarData (saved_car saved) true) <$> rs)
      = UserSavedCar.carId <$> saved_by (db w) (User.id u).
Proof.
  intros Hu Href. destruct (caller_Some w u Hu) as (userId & Hs & Hrow & Hin).
  destruct (mapM_include_car_run (saved_by (db w) (User.id u)) w)
    as (rs & Hrun & Hrows & Hcars).
  { intros s [Hs' _]%elem_of_saved_by. by apply saved_refer_car. }
  exists rs. split_and!; [|done..|].
  - unfold getSavedCars, db_user_findUnique, db_userSavedCar_findMany_include_car. run.
    rewrite Hs, Hrow. fold (saved_by (db w) (User.id u)). by rewrite Hrun.
  - rewrite <- Hrows, <- !list_fmap_compose. apply Forall_fmap_ext_1.
    eapply Forall_impl; [exact Hcars|]. intros r Hr. cbn.
    by apply head_filter_Some in Hr as [_ ?].
Qed.

Lemma saved_ids_spec st userId carId :
  carId ∈ UserSavedCar.carId <$> saved_by st userId ↔ is_saved st userId carId = true.
Proof.
  rewrite list_elem_of_fmap, is_saved_spec. setoid_rewrite elem_of_saved_by. split.
  - intros (s & -> & Hin' & Hsu). eauto.
  - intros (s & Hin' & Hsu & Hsc). eauto.
Qed.

(** X9.  For a caller with a user row, on a store whose saved rows
    point to existing cars, [getSavedCars] returns one listing for each row
    the user has saved, in the order of these rows newest first; each
    listing is the car of its row, serialized with [wishlisted] set.  So a
    car is in the result exactly when the user has saved it. *)
Theorem getSavedCars_result w u :
  caller w = Some u → saved_refer (db w) →
  ∃ cars, getSavedCars w = (Normal (success cars), w)
    ∧ Forall (λ x, wishlisted x = true) cars
    ∧ (λ x, Car.id (Result.car x)) <$> cars
        = UserSavedCar.carId <$> saved_by (db w) (User.id u)
    ∧ Forall (λ x, car_of_id (db w) (Car.id (Result.car x)) = Some (Result.car x)) cars
    ∧ Forall (λ x, x = serializeCarData (Result.car x) true) cars
    ∧ StronglySorted saved_newer_first (saved_by (db w) (User.id u))
    ∧ ∀ carId, carId ∈ (λ x, Car.id (Result.car x)) <$> cars
               ↔ is_saved (db w) (User.id u) carId = true.
Proof.
  intros Hu Href.
  destruct (getSavedCars_run w u Hu Href) as (rs & Hrun & Hrows & Hcars & Hmap).
  exists ((λ saved, serializeCarData (saved_car saved) true) <$> rs). split_and!.
  - exact Hrun.
  - apply Forall_fmap, Forall_true. done.
  - exact Hmap.
  - apply Forall_fmap. rewrite Forall_forall in *. intros r Hr. cbn.
    rewrite <- (Hcars r Hr). f_equal.
    specialize (Hcars r Hr). by apply head_filter_Some in Hcars as [_ ?].
  - apply Forall_fmap, Forall_true. done.
  - apply StronglySorted_merge_sort.
    + intros a b c. unfold saved_newer_first. lia.
    + intros a b. unfold saved_newer_first. lia.
  - intros carId. rewrite Hmap. apply saved_ids_spec.
Qed.

Lemma getSavedCars_result_witness :
  ∃ cars, getSavedCars (Sample.world (Some "clerk_bob"))
            = (Normal (success cars), Sample.world (Some "clerk_bob"))
    ∧ (λ x, Car.id (Result.car x)) <$> cars = ["c1"]
    ∧ Forall (λ x, wishlisted x = true) cars.
Proof.
  destruct (getSavedCars_result (Sample.world (Some "clerk_bob")) Sample.bob eq_refl
              Sample_saved_refer) as (cars & Hrun & Hw & Hids & _).
  exists cars. split; [exact Hrun|]. split; [rewrite Hids; reflexivity|exact Hw].
Defined.

(** X10.  After a [toggleSavedCar] of an existing car by a caller with
    a user row, [getSavedCars] lists that car exactly when the toggle
    answered [saved = true], and lists any other car exactly when the user
    had saved it before. *)
Theorem toggleSavedCar_then_getSavedCars carId w u car :
  caller w = Some u → car_of_id (db w) carId = Some car → saved_refer (db w) →
  ∃ r w1 cars,
    toggleSavedCar carId w = (Normal (success r), w1)
    ∧ getSavedCars w1 = (Normal (success cars), w1)
    ∧ (carId ∈ (λ x, Car.id (Result.car x)) <$> cars ↔ saved r = true)
    ∧ ∀ carId', carId' ≠ carId →
        carId' ∈ (λ x, Car.id (Result.car x)) <$> cars
        ↔ is_saved (db w) (User.id u) carId' = true.
Proof.
  intros Hu Hcar Href.
  destruct (toggleSavedCar_step carId w u car Hu Hcar)
    as (r & w1 & Hrun & Hr & Hs1 & Ho & Hsess & Husers & Hcars).
  assert (caller w1 = Some u) as Hu1 by (unfold caller in *; by rewrite Hsess, Husers).
  assert (saved_refer (db w1)) as Href1.
  { pose proof (toggleSavedCar_saved_refer carId w Href) as H. by rewrite Hrun in H. }
  destruct (getSavedCars_run w1 u Hu1 Href1) as (rs & Hget & _ & _ & Hmap).
  eexists r, w1, _. split_and!; [done..| |].
  - by rewrite Hmap, saved_ids_spec, Hs1.
  - intros carId' Hne. rewrite Hmap, saved_ids_spec, Ho; [done|]. congruence.
Qed.

Lemma toggleSavedCar_then_getSavedCars_witness :
  ∃ r w1 cars,
    toggleSavedCar "c2" (Sample.world (Some "clerk_bob")) = (Normal (success r), w1)
    ∧ getSavedCars w1 = (Normal (success cars), w1)
    ∧ ("c2" ∈ (λ x, Car.id (Result.car x)) <$> cars ↔ saved r = true)
    ∧ "c1" ∈ (λ x, Car.id (Result.car x)) <$> cars.
Proof.
  destruct (toggleSavedCar_then_getSavedCars "c2" (Sample.world (Some "clerk_bob"))
              Sample.bob Sample.honda eq_refl eq_refl Sample_saved_refer)
    as (r & w1 & cars & Hrun & Hget & Hnew & Hold).
  exists r, w1, cars. split; [exact Hrun|]. split; [exact Hget|]. split; [exact Hnew|].
  apply Hold; [discriminate|reflexivity].
Defined.

(** *** [getDealershipInfo] on an existing dealership *)

#[local] Instance by_dayOfWeek_trans : Transitive by_dayOfWeek.
Proof. intros a b c. unfold by_dayOfWeek. lia. Qed.

#[local] Instance by_dayOfWeek_total : Total by_dayOfWeek.
Proof. intros a b. unfold by_dayOfWeek. lia. Qed.

Lemma getDealershipInfo_existing_run w d :
  is_Some (session w) → head (dealershipInfos (db w)) = Some d →
  Settings.getDealershipInfo w =
    (Normal (success (Settings.mkDealershipData
                        (mkDealership d
                           (merge_sort by_dayOfWeek (hours_of (db w) (DealershipInfo.id d))))
                        (toISOString (DealershipInfo.createdAt d))
                        (toISOString (DealershipInfo.updatedAt d)))), w).
Proof.
  intros [userId Hs] Hd.
  unfold Settings.getDealershipInfo, db_dealershipInfo_findFirst_include,
    db_dealershipInfo_findFirst, include_workingHours. run. by rewrite Hs, Hd.
Qed.

(** X11.  For a signed-in caller, when a dealership row exists
    [getDealershipInfo] returns the first one with exactly its working
    hours, ordered by day of the week, and creates or changes nothing. *)
Theorem getDealershipInfo_existing w d :
  is_Some (session w) → head (dealershipInfos (db w)) = Some d →
  ∃ hs, Settings.getDealershipInfo w =
          (Normal (success (Settings.mkDealershipData (mkDealership d hs)
                              (toISOString (DealershipInfo.createdAt d))
                              (toISOString (DealershipInfo.updatedAt d)))), w)
    ∧ hs ≡ₚ hours_of (db w) (DealershipInfo.id d)
    ∧ StronglySorted by_dayOfWeek hs.
Proof.
  intros Hs Hd.
  exists (merge_sort by_dayOfWeek (hours_of (db w) (DealershipInfo.id d))). split_and!.
  - by apply getDealershipInfo_existing_run.
  - apply merge_sort_Permutation.
  - apply StronglySorted_merge_sort; apply _.
Qed.

Lemma getDealershipInfo_existing_witness :
  ∃ d hs, head (dealershipInfos (db Sample.open_world)) = Some d
    ∧ Settings.getDealershipInfo Sample.open_world =
        (Normal (success (Settings.mkDealershipData (mkDealership d hs)
                            (toISOString (DealershipInfo.createdAt d))
                            (toISOString (DealershipInfo.updatedAt d)))), Sample.open_world)
    ∧ StronglySorted by_dayOfWeek hs
    ∧ length hs = 7%nat.
Proof.
  destruct (getDealershipInfo_existing Sample.open_world
              (default_dealership (Sample.world (Some "clerk_admin"))))
    as (hs & Hrun & Hperm & Hsorted).
  - exists "clerk_admin". vm_compute. reflexivity.
  - vm_compute. reflexivity.
  - exists (default_dealership (Sample.world (Some "clerk_admin"))), hs.
    split; [vm_compute; reflexivity|]. split; [exact Hrun|]. split; [exact Hsorted|].
    rewrite (Permutation_length Hperm). vm_compute. reflexivity.
Defined.

(** *** [saveWorkingHours] by an admin *)

Lemma admin_session w :
  admin w → ∃ userId u, session w = Some userId
    ∧ head (filter (λ u, User.clerkUserId u = userId) (users (db w))) = Some u
    ∧ User.role u = ADMIN.
Proof.
  unfold admin. destruct (caller w) as [u|] eqn:Hu; [|done]. cbn.
  intros Hr%bool_decide_eq_true. destruct (caller_Some w u Hu) as (userId & Hs & Hrow & _).
  eauto.
Qed.

Lemma for_of_fmap {A B} (g : A → B) (body : B → Action unit) (l : list A) :
  for_of l (λ x, body (g x)) = for_of (g <$> l) body.
Proof. induction l as [|x l IH]; [done|]. cbn. by rewrite IH. Qed.

(** The world after an admin has replaced the hours of [d] by [hs]. *)
Lemma saveWorkingHours_replaces hs w d :
  admin w → head (dealershipInfos (db w)) = Some d →
  NoDup (WorkingHour.dayOfWeek <$> hs) →
  Settings.saveWorkingHours hs w =
    (Normal (success tt),
     mkWorld
       (with_workingHours
          (λ rows, filter (λ h, WorkingHour.dealershipId h ≠ DealershipInfo.id d) rows
                   ++ created_hours (DealershipInfo.id d) (clock w) (uuids w)
                        (WorkingHour_data <$> hs))
          (db w))
       (session w) (clock w) (length hs + uuids w)%nat
       (revalidated w ++ ["/admin/settings"; "/"])).
Proof.
  intros (userId & u & Hs & Hrow & Hr)%admin_session Hd Hnd.
  pose proof (create_workingHours_run (WorkingHour_data <$> hs) (DealershipInfo.id d)
    (mkWorld
       (with_workingHours (filter (λ h, WorkingHour.dealershipId h ≠ DealershipInfo.id d))
          (db w))
       (session w) (clock w) (uuids w) (revalidated w))) as Hc.
  unfold create_workingHours in Hc. rewrite <- for_of_fmap in Hc.
  unfold Settings.saveWorkingHours, db_user_findUnique, db_dealershipInfo_findFirst,
    db_workingHour_deleteMany, modify_db, revalidatePath. run.
  rewrite Hs, Hrow. cbn [Settings.is_admin]. rewrite bool_decide_eq_true_2 by done.
  cbn [negb]. rewrite Hd. cbn [db session clock uuids revalidated] in *.
  unfold WorkingHour_data in Hc. rewrite Hc.
  - cbn [db session clock uuids revalidated with_workingHours Schema.workingHours users cars
         dealershipInfos userSavedCars testDriveBookings].
    rewrite length_fmap, <- app_assoc, Hs. reflexivity.
  - exists d. split; [|done]. cbn. by apply head_Some_elem_of.
  - rewrite <- list_fmap_compose. exact Hnd.
  - cbn. intros h [Hne _]%list_elem_of_filter Heq. done.
Qed.

(** The hours of [d] once they have been replaced by [hs]. *)
Lemma hours_of_replaced st d t n (hs : list WorkingHourCreateInput) :
  WorkingHour_data <$>
    hours_of
      (with_workingHours
         (λ rows, filter (λ h, WorkingHour.dealershipId h ≠ DealershipInfo.id d) rows
                  ++ created_hours (DealershipInfo.id d) t n hs) st)
      (DealershipInfo.id d)
  = hs.
Proof.
  unfold hours_of. cbn [Schema.workingHours with_workingHours]. rewrite filter_app.
  rewrite (filter_Forall _ (created_hours _ _ _ _)) by apply created_hours_owned.
  replace (filter _ (filter _ _)) with (@nil WorkingHour.t);
    [cbn [app]; apply created_hours_data|].
  symmetry. apply elem_of_nil_inv. intros h [Hh [Hne _]%list_elem_of_filter]%list_elem_of_filter.
  done.
Qed.

(** X12.  When an admin saves working hours with no day given twice
    and a dealership row exists, the call succeeds and the hours of the
    first dealership are then exactly the ones given, in the order given;
    the hours of any other dealership and all other tables are untouched,
    and the paths "/admin/settings" and "/" are revalidated. *)
Theorem saveWorkingHours_replaces_hours hs w d :
  admin w → head (dealershipInfos (db w)) = Some d →
  NoDup (WorkingHour.dayOfWeek <$> hs) →
  ∃ w', Settings.saveWorkingHours hs w = (Normal (success tt), w')
    ∧ WorkingHour_data <$> hours_of (db w') (DealershipInfo.id d) = WorkingHour_data <$> hs
    ∧ (∀ other, other ≠ DealershipInfo.id d →
         hours_of (db w') other = hours_of (db w) other)
    ∧ users (db w') = users (db w)
    ∧ cars (db w') = cars (db w)
    ∧ dealershipInfos (db w') = dealershipInfos (db w)
    ∧ userSavedCars (db w') = userSavedCars (db w)
    ∧ testDriveBookings (db w') = testDriveBookings (db w)
    ∧ revalidated w' = revalidated w ++ ["/admin/settings"; "/"].
Proof.
  intros Ha Hd Hnd. eexists. split; [by apply saveWorkingHours_replaces|].
  cbn [db with_workingHours users cars dealershipInfos userSavedCars testDriveBookings
       revalidated].
  split_and!; try done.
  - apply hours_of_replaced.
  - intros other Hother. unfold hours_of. cbn [Schema.workingHours with_workingHours]. rewrite filter_app.
    replace (filter _ (created_hours _ _ _ _)) with (@nil WorkingHour.t).
    + rewrite app_nil_r, list_filter_filter. apply list_filter_iff. intros h.
      split; [tauto|]. intros Hh. split; [done|]. congruence.
    + symmetry. apply elem_of_nil_inv. intros h [Hh Hin]%list_elem_of_filter.
      pose proof (created_hours_owned (DealershipInfo.id d) (clock w) (uuids w)
                    (WorkingHour_data <$> hs)) as Hown.
      rewrite Forall_forall in Hown. apply Hother. rewrite <- Hh. by apply Hown.
Qed.

Lemma saveWorkingHours_replaces_hours_witness :
  ∃ w', Settings.saveWorkingHours [Sample.sunday] Sample.open_world
          = (Normal (success tt), w')
    ∧ WorkingHour_data <$>
        hours_of (db w')
          (DealershipInfo.id (default_dealership (Sample.world (Some "clerk_admin"))))
      = [WorkingHour_data Sample.sunday].
Proof.
  destruct (saveWorkingHours_replaces_hours [Sample.sunday] Sample.open_world
              (default_dealership (Sample.world (Some "clerk_admin"))))
    as (w' & Hrun & Hhours & _).
  - vm_compute. reflexivity.
  - vm_compute. reflexivity.
  - apply NoDup_singleton.
  - exists w'. split; [exact Hrun|exact Hhours].
Defined.

(** The action of an admin in terms of the nested creates. *)
Lemma saveWorkingHours_admin hs w d :
  admin w → head (dealershipInfos (db w)) = Some d →
  Settings.saveWorkingHours hs w =
    match create_workingHours (WorkingHour_data <$> hs) (DealershipInfo.id d)
            (mkWorld
               (with_workingHours
                  (filter (λ h, WorkingHour.dealershipId h ≠ DealershipInfo.id d)) (db w))
               (session w) (clock w) (uuids w) (revalidated w)) with
    | (Normal _, w') =>
        (Normal (success tt),
         mkWorld (db w') (session w') (clock w') (uuids w')
           (revalidated w' ++ ["/admin/settings"; "/"]))
    | (Abrupt e, w') =>
        (Normal (failure ("Error saving working hours: " +:+ getErrorMessage e)), w')
    end.
Proof.
  intros (userId & u & Hs & Hrow & Hr)%admin_session Hd.
  unfold create_workingHours. rewrite <- for_of_fmap. unfold WorkingHour_data.
  unfold Settings.saveWorkingHours, db_user_findUnique, db_dealershipInfo_findFirst,
    db_workingHour_deleteMany, modify_db, revalidatePath. run.
  rewrite Hs, Hrow. cbn [Settings.is_admin]. rewrite bool_decide_eq_true_2 by done.
  cbn [negb]. rewrite Hd. cbn [db session clock uuids revalidated]. rewrite <- Hs.
  destruct (for_of hs _ _) as [[[]|e] w']; [|done].
  by rewrite <- app_assoc.
Qed.

(** X13.  When no dealership row exists, [saveWorkingHours] by an admin
    returns the failure "Error saving working hours: Dealership info not
    found" and changes nothing. *)
Theorem saveWorkingHours_no_dealership hs w :
  admin w → dealershipInfos (db w) = [] →
  Settings.saveWorkingHours hs w =
    (Normal (failure "Error saving working hours: Dealership info not found"), w).
Proof.
  intros (userId & u & Hs & Hrow & Hr)%admin_session Hd.
  unfold Settings.saveWorkingHours, db_user_findUnique, db_dealershipInfo_findFirst. run.
  rewrite Hs, Hrow. cbn [Settings.is_admin]. rewrite bool_decide_eq_true_2 by done.
  cbn [negb]. by rewrite Hd.
Qed.

Lemma saveWorkingHours_no_dealership_witness :
  Settings.saveWorkingHours [Sample.sunday] (Sample.world (Some "clerk_admin"))
    = (Normal (failure "Error saving working hours: Dealership info not found"),
       Sample.world (Some "clerk_admin")).
Proof.
  apply (saveWorkingHours_no_dealership [Sample.sunday] (Sample.world (Some "clerk_admin"))).
  - vm_compute. reflexivity.
  - reflexivity.
Defined.

Lemma for_of_app {A} (body : A → Action unit) (l1 l2 : list A) w :
  for_of (l1 ++ l2) body w =
    match for_of l1 body w with
    | (Normal _, w') => for_of l2 body w'
    | (Abrupt e, w') => (Abrupt e, w')
    end.
Proof.
  revert w. induction l1 as [|x l1 IH]; intros w; [done|].
  cbn [app for_of]. run. destruct (body x w) as [[[]|e] w']; [apply IH|done].
Qed.

Lemma db_workingHour_create_duplicate data dealershipId w :
  (∃ d, d ∈ dealershipInfos (db w) ∧ DealershipInfo.id d = dealershipId) →
  (∃ h, h ∈ Schema.workingHours (db w) ∧ WorkingHour.dealershipId h = dealershipId
        ∧ WorkingHour.dayOfWeek h = dayOfWeek data) →
  db_workingHour_create data dealershipId w =
    (Abrupt (PrismaError "P2002"
               "Unique constraint failed on the fields: (dealershipId, dayOfWeek)"), w).
Proof.
  intros (d & Hd & Hid) (h & Hh & Hhd & Hday). unfold db_workingHour_create. run.
  rewrite (bool_decide_eq_false_2 (filter _ (dealershipInfos (db w)) = [])); last first.
  { intros Hnil. by apply (filter_nil_not_elem_of _ _ d Hnil). }
  rewrite (bool_decide_eq_true_2 (filter _ (Schema.workingHours (db w)) ≠ [])); [done|].
  intros Hnil. by apply (filter_nil_not_elem_of _ _ h Hnil).
Qed.

Lemma created_hours_days dealershipId t n hs :
  WorkingHour.dayOfWeek <$> created_hours dealershipId t n hs = dayOfWeek <$> hs.
Proof. revert n. induction hs as [|h hs IH]; intros n; cbn; [done|]. by rewrite IH. Qed.

(** X14.  [saveWorkingHours] is not atomic.  When an admin gives a day
    for the second time, the call returns a failure, but the former hours
    of the dealership have already been deleted and the entries before the
    repeated one have been created: the dealership is left with these
    entries only, and no path is revalidated. *)
Theorem saveWorkingHours_duplicate_day pre h post w d :
  admin w → head (dealershipInfos (db w)) = Some d →
  NoDup (WorkingHour.dayOfWeek <$> pre) →
  WorkingHour.dayOfWeek h ∈ WorkingHour.dayOfWeek <$> pre →
  ∃ error w', Settings.saveWorkingHours (pre ++ h :: post) w = (Normal (failure error), w')
    ∧ WorkingHour_data <$> hours_of (db w') (DealershipInfo.id d) = WorkingHour_data <$> pre
    ∧ revalidated w' = revalidated w.
Proof.
  intros Ha Hd Hnd Hdup. rewrite (saveWorkingHours_admin _ w d) by done.
  unfold create_workingHours. rewrite fmap_app, for_of_app.
  fold (create_workingHours (WorkingHour_data <$> pre) (DealershipInfo.id d)).
  rewrite create_workingHours_run; last first.
  { cbn. intros h' [Hne _]%list_elem_of_filter Heq. done. }
  { by rewrite <- list_fmap_compose. }
  { exists d. split; [|done]. cbn. by apply head_Some_elem_of. }
  cbn [fmap list_fmap for_of]. run.
  rewrite db_workingHour_create_duplicate.
  - eexists _, _. split; [reflexivity|].
    cbn [db with_workingHours revalidated]. split; [|done].
    unfold hours_of. cbn [Schema.workingHours with_workingHours]. rewrite filter_app.
    rewrite (filter_Forall _ (created_hours _ _ _ _)) by apply created_hours_owned.
    replace (filter _ (filter _ _)) with (@nil WorkingHour.t);
      [cbn [app]; apply created_hours_data|].
    symmetry. apply elem_of_nil_inv.
    intros h' [Hh [Hne _]%list_elem_of_filter]%list_elem_of_filter. done.
  - exists d. split; [|done]. cbn. by apply head_Some_elem_of.
  - cbn [db with_workingHours Schema.workingHours].
    assert (dayOfWeek (WorkingHour_data h)
              ∈ WorkingHour.dayOfWeek <$>
                  created_hours (DealershipInfo.id d) (clock w) (uuids w)
                    (WorkingHour_data <$> pre)) as (h' & Hday & Hin)%list_elem_of_fmap.
    { rewrite created_hours_days, <- list_fmap_compose. exact Hdup. }
    exists h'. split_and!; [apply elem_of_app; by right| |done].
    pose proof (created_hours_owned (DealershipInfo.id d) (clock w) (uuids w)
                  (WorkingHour_data <$> pre)) as Hown.
    rewrite Forall_forall in Hown. by apply Hown.
Qed.

Lemma saveWorkingHours_duplicate_day_witness :
  ∃ error w',
    Settings.saveWorkingHours [Sample.sunday; Sample.sunday_late] Sample.open_world
      = (Normal (failure error), w')
    ∧ WorkingHour_data <$>
        hours_of (db w')
          (DealershipInfo.id (default_dealership (Sample.world (Some "clerk_admin"))))
      = [WorkingHour_data Sample.sunday]
    ∧ revalidated w' = revalidated Sample.open_world.
Proof.
  apply (saveWorkingHours_duplicate_day [Sample.sunday] Sample.sunday_late []
           Sample.open_world (default_dealership (Sample.world (Some "clerk_admin")))).
  - vm_compute. reflexivity.
  - vm_compute. reflexivity.
  - apply NoDup_singleton.
  - apply list_elem_of_here.
Defined.

(** X15.  After an admin has saved working hours with no day given
    twice, [getDealershipInfo] returns the same dealership with the hours
    just saved, ordered by day of the week. *)
Theorem saveWorkingHours_then_getDealershipInfo hs w d :
  admin w → head (dealershipInfos (db w)) = Some d →
  NoDup (WorkingHour.dayOfWeek <$> hs) →
  ∃ w' rows,
    Settings.saveWorkingHours hs w = (Normal (success tt), w')
    ∧ Settings.getDealershipInfo w' =
        (Normal (success (Settings.mkDealershipData (mkDealership d rows)
                            (toISOString (DealershipInfo.createdAt d))
                            (toISOString (DealershipInfo.updatedAt d)))), w')
    ∧ WorkingHour_data <$> rows ≡ₚ WorkingHour_data <$> hs
    ∧ StronglySorted by_dayOfWeek rows.
Proof.
  intros Ha Hd Hnd. destruct (admin_session w Ha) as (userId & _ & Hs & _).
  eexists _, _. split; [by apply saveWorkingHours_replaces|]. split_and!.
  - apply getDealershipInfo_existing_run.
    + cbn [session]. rewrite Hs. by eexists.
    + exact Hd.
  - cbn [db]. rewrite merge_sort_Permutation. by rewrite hours_of_replaced.
  - apply StronglySorted_merge_sort; apply _.
Qed.

Lemma saveWorkingHours_then_getDealershipInfo_witness :
  ∃ w' rows,
    Settings.saveWorkingHours [Sample.sunday] Sample.open_world = (Normal (success tt), w')
    ∧ Settings.getDealershipInfo w' =
        (Normal (success
           (Settings.mkDealershipData
              (mkDealership (default_dealership (Sample.world (Some "clerk_admin"))) rows)
              (toISOString 1000) (toISOString 1000))), w')
    ∧ WorkingHour_data <$> rows ≡ₚ [WorkingHour_data Sample.sunday].
Proof.
  destruct (saveWorkingHours_then_getDealershipInfo [Sample.sunday] Sample.open_world
              (default_dealership (Sample.world (Some "clerk_admin"))))
    as (w' & rows & Hsave & Hget & Hrows & _).
  - vm_compute. reflexivity.
  - vm_compute. reflexivity.
  - apply NoDup_singleton.
  - exists w', rows. split; [exact Hsave|]. split; [exact Hget|exact Hrows].
Defined.

(** *** [updateUserRole] *)

(** X16.  [updateUserRole] with an empty [id] returns the failure
    "Error updating user role: Missing user", and with an [id] but an
    empty [role] the failure "Error updating user role: Missing role";
    this holds for every caller, the arguments being tested before the
    session, and nothing is changed. *)
Theorem updateUserRole_missing_argument id role w :
  (id = "" →
     Settings.updateUserRole id role w
       = (Normal (failure "Error updating user role: Missing user"), w))
  ∧ (id ≠ "" → role = "" →
       Settings.updateUserRole id role w
         = (Normal (failure "Error updating user role: Missing role"), w)).
Proof.
  unfold Settings.updateUserRole. run. split.
  - by intros ->.
  - intros Hid%string_truthy_spec ->. by rewrite Hid.
Qed.

Lemma updateUserRole_missing_argument_witness :
  Settings.updateUserRole "" "ADMIN" (Sample.world (Some "clerk_admin"))
    = (Normal (failure "Error updating user role: Missing user"),
       Sample.world (Some "clerk_admin"))
  ∧ Settings.updateUserRole "u2" "" (Sample.world (Some "clerk_admin"))
      = (Normal (failure "Error updating user role: Missing role"),
         Sample.world (Some "clerk_admin")).
Proof.
  split.
  - apply (updateUserRole_missing_argument "" "ADMIN" (Sample.world (Some "clerk_admin"))).
    reflexivity.
  - apply (updateUserRole_missing_argument "u2" "" (Sample.world (Some "clerk_admin"))).
    + discriminate.
    + reflexivity.
Defined.

Lemma updateUserRole_admin id role w :
  admin w → id ≠ "" → role ≠ "" →
  Settings.updateUserRole id role w =
    match UserRole_of_string role with
    | None =>
        (Normal (failure "Error updating user role: Invalid value for argument role"), w)
    | Some r =>
        match head (filter (λ u, User.id u = id) (users (db w))) with
        | None =>
            (Normal (failure "Error updating user role: Record to update not found"), w)
        | Some _ =>
            (Normal (success tt),
             mkWorld (with_users (users_with_role id r (clock w)) (db w))
               (session w) (clock w) (uuids w) (revalidated w ++ ["/admin/settings"]))
        end
    end.
Proof.
  intros (userId & u & Hs & Hrow & Hr)%admin_session
    Hid%string_truthy_spec Hrole%string_truthy_spec.
  unfold Settings.updateUserRole, db_user_findUnique, db_user_update, modify_db,
    revalidatePath. run.
  rewrite Hid, Hrole. cbn [negb]. rewrite Hs, Hrow. cbn [Settings.is_admin].
  rewrite bool_decide_eq_true_2 by done. cbn [negb].
  destruct (UserRole_of_string role) as [r|]; [|done]. run.
  destruct (head (filter (λ u, User.id u = id) (users (db w)))) as [target|]; [|done]. run.
  cbn [db session clock uuids revalidated]. rewrite ?Hs. reflexivity.
Qed.

Lemma UserRole_of_string_spec role r :
  UserRole_of_string role = Some r ↔
  (role = "USER" ∧ r = USER) ∨ (role = "ADMIN" ∧ r = ADMIN).
Proof.
  unfold UserRole_of_string.
  destruct (String.eqb_spec role "USER") as [->|H1].
  - split; [intros [= <-]; by left|by intros [[_ ->]|[[=] _]]].
  - destruct (String.eqb_spec role "ADMIN") as [->|H2].
    + split; [intros [= <-]; by right|by intros [[[=] _]|[_ ->]]].
    + split; [done|by intros [[? _]|[? _]]].
Qed.

(** X17.  When an admin sets the role of an existing user to USER or
    ADMIN, the call succeeds; afterwards every user row with that id has
    the role, the rows of the other users are as before, no row is added or
    removed and none changes its id or its Clerk id, the other tables are
    untouched, and "/admin/settings" is revalidated. *)
Theorem updateUserRole_sets_role id role r w target :
  admin w → id ≠ "" → UserRole_of_string role = Some r →
  target ∈ users (db w) → User.id target = id →
  ∃ w', Settings.updateUserRole id role w = (Normal (success tt), w')
    ∧ users (db w') = users_with_role id r (clock w) (users (db w))
    ∧ (∀ u', u' ∈ users (db w') → User.id u' = id → User.role u' = r)
    ∧ (∀ u, u ∈ users (db w) → User.id u ≠ id → u ∈ users (db w'))
    ∧ User.id <$> users (db w') = User.id <$> users (db w)
    ∧ User.clerkUserId <$> users (db w') = User.clerkUserId <$> users (db w)
    ∧ cars (db w') = cars (db w)
    ∧ userSavedCars (db w') = userSavedCars (db w)
    ∧ testDriveBookings (db w') = testDriveBookings (db w)
    ∧ dealershipInfos (db w') = dealershipInfos (db w)
    ∧ Schema.workingHours (db w') = Schema.workingHours (db w)
    ∧ revalidated w' = revalidated w ++ ["/admin/settings"].
Proof.
  intros Ha Hid Hr Hin Htarget.
  assert (role ≠ "") as Hrole.
  { intros ->. by apply UserRole_of_string_spec in Hr as [[[=] _]|[[=] _]]. }
  rewrite updateUserRole_admin, Hr by done.
  destruct (head (filter (λ u, User.id u = id) (users (db w)))) as [t|] eqn:E; last first.
  { apply head_None in E. by destruct (filter_nil_not_elem_of _ _ target E). }
  eexists. split; [reflexivity|].
  cbn [db with_users users cars userSavedCars testDriveBookings dealershipInfos
       Schema.workingHours revalidated].
  unfold users_with_role. split_and!; try done.
  - intros u' (x & -> & Hx)%list_elem_of_fmap. by destruct (decide (User.id x = id)).
  - intros u Hu Hne. apply list_elem_of_fmap. exists u. split; [|done].
    by rewrite decide_False.
  - rewrite <- list_fmap_compose. apply list_fmap_ext. intros _ x _. cbn.
    by destruct (decide (User.id x = id)).
  - rewrite <- list_fmap_compose. apply list_fmap_ext. intros _ x _. cbn.
    by destruct (decide (User.id x = id)).
Qed.

Lemma updateUserRole_sets_role_witness :
  ∃ w', Settings.updateUserRole "u2" "ADMIN" (Sample.world (Some "clerk_admin"))
          = (Normal (success tt), w')
    ∧ User.role <$> users (db w') = [ADMIN; ADMIN]
    ∧ revalidated w' = ["/admin/settings"].
Proof.
  destruct (updateUserRole_sets_role "u2" "ADMIN" ADMIN (Sample.world (Some "clerk_admin"))
              Sample.bob)
    as (w' & Hrun & Husers & _ & _ & _ & _ & _ & _ & _ & _ & _ & Hpaths).
  - vm_compute. reflexivity.
  - discriminate.
  - reflexivity.
  - apply list_elem_of_further, list_elem_of_here.
  - reflexivity.
  - exists w'. split; [exact Hrun|]. split; [rewrite Husers; reflexivity|exact Hpaths].
Defined.

(** X18.  An admin's [updateUserRole] for an id that no user has, or
    with a role that is neither USER nor ADMIN, returns a failure and
    changes nothing. *)
Theorem updateUserRole_no_target id role w :
  admin w → id ≠ "" → role ≠ "" →
  (UserRole_of_string role = None ∨ ∀ u, u ∈ users (db w) → User.id u ≠ id) →
  ∃ error, Settings.updateUserRole id role w = (Normal (failure error), w).
Proof.
  intros Ha Hid Hrole Hcase. rewrite updateUserRole_admin by done.
  destruct (UserRole_of_string role) as [r|]; [|by eexists].
  destruct Hcase as [?|Hnone]; [done|].
  destruct (head (filter (λ u, User.id u = id) (users (db w)))) as [t|] eqn:E; [|by eexists].
  apply head_filter_Some in E as [Ht Hidt]. by destruct (Hnone t).
Qed.

Lemma updateUserRole_no_target_witness :
  ∃ error, Settings.updateUserRole "u9" "ADMIN" (Sample.world (Some "clerk_admin"))
             = (Normal (failure error), Sample.world (Some "clerk_admin")).
Proof.
  apply (updateUserRole_no_target "u9" "ADMIN" (Sample.world (Some "clerk_admin"))).
  - vm_compute. reflexivity.
  - discriminate.
  - discriminate.
  - right. intros u Hu.
    apply elem_of_cons in Hu as [->|Hu]; [discriminate|].
    apply elem_of_cons in Hu as [->|Hu]; [discriminate|].
    by apply elem_of_nil in Hu.
Defined.

Lemma head_filter_fmap {A} (P : A → Prop) `{∀ x, Decision (P x)} (f : A → A) (l : list A) :
  (∀ x, P (f x) ↔ P x) → head (filter P (f <$> l)) = f <$> head (filter P l).
Proof.
  intros Hf. induction l as [|x l IH]; [done|]. csimpl.
  rewrite !filter_cons. destruct (decide (P x)) as [Hx|Hx].
  - by rewrite decide_True by (by apply Hf).
  - by rewrite decide_False by (by rewrite Hf).
Qed.

Lemma updateUserRole_success_inv id role w w' :
  Settings.updateUserRole id role w = (Normal (success tt), w') →
  admin w ∧ id ≠ "" ∧ role ≠ "".
Proof.
  intros Hrun. split_and!.
  - unfold admin. destruct (Settings.is_admin (caller w)) eqn:E; [done|].
    destruct (updateUserRole_not_admin id role w E) as (e & He). congruence.
  - intros ->. revert Hrun. unfold Settings.updateUserRole. by run.
  - intros ->. revert Hrun. unfold Settings.updateUserRole. run.
    by destruct (Js.string_truthy id).
Qed.

(** X19.  Once [updateUserRole] has succeeded for the user [id], a
    session of that user passes the admin gate of the settings actions
    exactly when the role given was ADMIN; for a session of any other user
    the gate decides as before. *)
Theorem updateUserRole_takes_effect id role w w' s t :
  Settings.updateUserRole id role w = (Normal (success tt), w') →
  caller (with_session s w) = Some t →
  Settings.is_admin (caller (with_session s w')) =
    if decide (User.id t = id) then bool_decide (role = "ADMIN")
    else Settings.is_admin (Some t).
Proof.
  intros Hrun Ht.
  destruct (updateUserRole_success_inv id role w w' Hrun) as (Ha & Hid & Hrole).
  rewrite updateUserRole_admin in Hrun by done.
  destruct (UserRole_of_string role) as [r|] eqn:Hr; [|done].
  destruct (head (filter (λ u, User.id u = id) (users (db w)))) as [target|]; [|done].
  injection Hrun as <-.
  unfold caller in *. cbn [with_session session db with_users users] in *.
  destruct s as [userId|]; [|done]. unfold users_with_role.
  rewrite head_filter_fmap, Ht; last first.
  { intros x. by destruct (decide (User.id x = id)). }
  cbn. destruct (decide (User.id t = id)); [|done]. cbn.
  apply UserRole_of_string_spec in Hr as [[-> ->]|[-> ->]]; done.
Qed.

Lemma updateUserRole_takes_effect_witness :
  Settings.is_admin (caller (Sample.world (Some "clerk_bob"))) = false
  ∧ Settings.is_admin
      (caller (with_session (Some "clerk_bob")
                 (Settings.updateUserRole "u2" "ADMIN"
                    (Sample.world (Some "clerk_admin"))).2)) = true.
Proof.
  split; [reflexivity|].
  rewrite (updateUserRole_takes_effect "u2" "ADMIN" (Sample.world (Some "clerk_admin"))
             _ (Some "clerk_bob") Sample.bob).
  - reflexivity.
  - vm_compute. reflexivity.
  - reflexivity.
Defined.

(** *** [getUsers] *)

#[local] Instance user_newer_first_trans : Transitive user_newer_first.
Proof. intros a b c. unfold user_newer_first. lia. Qed.

#[local] Instance user_newer_first_total : Total user_newer_first.
Proof. intros a b. unfold user_newer_first. lia. Qed.

(** X20.  [getUsers] returns a failure to a caller who is not an
    admin.  To an admin it returns every user row, each once, newest first,
    each with its two dates as ISO strings; nothing is changed either
    way. *)
Theorem getUsers_result w :
  (¬ admin w → ∃ error, Settings.getUsers w = (Normal (failure error), w))
  ∧ (admin w →
       ∃ us, Settings.getUsers w = (Normal (success us), w)
         ∧ Settings.user <$> us ≡ₚ users (db w)
         ∧ StronglySorted user_newer_first (Settings.user <$> us)
         ∧ Forall (λ x, Settings.user_createdAt x
                          = toISOString (User.createdAt (Settings.user x))
                        ∧ Settings.user_updatedAt x
                          = toISOString (User.updatedAt (Settings.user x))) us).
Proof.
  split.
  - intros Hna%not_true_is_false. unfold Settings.getUsers, caller, db_user_findUnique in *.
    run. destruct (session w) as [userId|]; [|eauto]. rewrite Hna. cbn. eauto.
  - intros (userId & u & Hs & Hrow & Hr)%admin_session.
    eexists. split_and!.
    + unfold Settings.getUsers, db_user_findUnique, db_user_findMany_newest. run.
      rewrite Hs, Hrow. cbn [Settings.is_admin]. rewrite bool_decide_eq_true_2 by done.
      reflexivity.
    + rewrite <- list_fmap_compose. cbn. rewrite list_fmap_id. apply merge_sort_Permutation.
    + rewrite <- list_fmap_compose. cbn. rewrite list_fmap_id.
      apply StronglySorted_merge_sort; apply _.
    + apply Forall_fmap, Forall_true. done.
Qed.

Lemma getUsers_result_witness :
  (∃ error, Settings.getUsers (Sample.world (Some "clerk_bob"))
              = (Normal (failure error), Sample.world (Some "clerk_bob")))
  ∧ ∃ us, Settings.getUsers (Sample.world (Some "clerk_admin"))
            = (Normal (success us), Sample.world (Some "clerk_admin"))
      ∧ Settings.user <$> us ≡ₚ [Sample.admin; Sample.bob].
Proof.
  split.
  - apply (getUsers_result (Sample.world (Some "clerk_bob"))).
    intros H. vm_compute in H. discriminate.
  - destruct (getUsers_result (Sample.world (Some "clerk_admin"))) as [_ Hadmin].
    destruct Hadmin as (us & Hrun & Hperm & _); [vm_compute; reflexivity|].
    exists us. split; [exact Hrun|exact Hperm].
Defined.

(** *** [getFeaturedCars] *)

Lemma StronglySorted_app_inv {A} (R : relation A) (l k : list A) :
  StronglySorted R (l ++ k) → ∀ x y, x ∈ l → y ∈ k → R x y.
Proof.
  induction l as [|a l IH]; intros Hs x y Hx Hy; [by apply elem_of_nil in Hx|].
  cbn in Hs. apply StronglySorted_inv in Hs as [Hs Ha].
  apply elem_of_cons in Hx as [->|Hx]; [|by apply IH].
  rewrite Forall_forall in Ha. apply Ha, elem_of_app. by right.
Qed.

(** The first [n] of a sorted list, as any sorted list of the same rows
    gives them: [n] rows or all of them, each no more often than it is
    there, and none of the rows left out before one of them. *)
Lemma take_sorted_spec {A} (R : relation A) (n : nat) (l all : list A) :
  StronglySorted R l → l ≡ₚ all →
  length (take n l) = (n `min` length all)%nat
  ∧ take n l ⊆+ all
  ∧ ∀ x y, x ∈ take n l → y ∈ all → y ∉ take n l → R x y.
Proof.
  intros Hs Hp. split_and!.
  - by rewrite length_take, Hp.
  - rewrite <- Hp. apply sublist_submseteq, sublist_take.
  - intros x y Hx Hy Hny. rewrite <- Hp, <- (take_drop n l) in Hy.
    apply elem_of_app in Hy as [Hy|Hy]; [done|].
    rewrite <- (take_drop n l) in Hs. by apply (StronglySorted_app_inv R _ _ Hs).
Qed.

(** X21.  For a [limit] that is an integer no greater in size than
    [Number.MAX_SAFE_INTEGER], [getFeaturedCars] returns, and changes
    nothing.  The listings returned are featured and AVAILABLE, each no
    more often than it is in the table, serialized, and newest first.
    For a [limit] that is not negative, 3 when none is given, they are
    [limit] of these listings, or all of them when there are fewer, and no
    listing left out is newer than one returned. *)
Theorem getFeaturedCars_result limit w :
  - Js.MAX_SAFE_INTEGER ≤ default 3 limit ≤ Js.MAX_SAFE_INTEGER →
  ∃ result, Home.getFeaturedCars limit w = (Normal result, w)
    ∧ Forall (λ x, Home.car x ∈ featured_available (db w)
                   ∧ x = Home.serializeCarData (Home.car x)) result
    ∧ Home.car <$> result ⊆+ featured_available (db w)
    ∧ StronglySorted car_newer_first (Home.car <$> result)
    ∧ (0 ≤ default 3 limit →
         Z.of_nat (length result)
           = default 3 limit `min` Z.of_nat (length (featured_available (db w)))
         ∧ ∀ x c, x ∈ Home.car <$> result → c ∈ featured_available (db w) →
             c ∉ Home.car <$> result → Car.createdAt c ≤ Car.createdAt x)
    ∧ (Z.of_nat (length (featured_available (db w))) ≤ default 3 limit →
         Home.car <$> result ≡ₚ featured_available (db w)).
Proof.
  intros Hrange.
  assert (∀ l : list Car.t, Home.car <$> (Home.serializeCarData <$> l) = l) as Hcar.
  { intros l. rewrite <- list_fmap_compose. cbn. apply list_fmap_id. }
  assert (StronglySorted car_newer_first
            (merge_sort (Car_order (Prisma.createdAt, desc)) (featured_available (db w))))
    as Hsorted.
  { eapply StronglySorted_mono; [|apply (StronglySorted_merge_sort _ _)].
    intros a b. unfold Car_order, car_newer_first. cbn. by rewrite Z.leb_le. }
  exists (Home.serializeCarData <$>
            paginate (Some (default 3 limit)) None
              (merge_sort (Car_order (Prisma.createdAt, desc))
                 (featured_available (db w)))).
  split; [|split_and!].
  - unfold Home.getFeaturedCars, db_car_findMany_featured. run.
    cbn [where_ skip_ take_ orderBy distinct skip_valid car_distinct car_ordered].
    change (CarWhereInput_valid Home.where_available) with true. cbn [negb].
    rewrite (proj2 (Int_valid_spec (default 3 limit)))
      by (unfold Js.MAX_SAFE_INTEGER in Hrange; lia).
    cbn [Int_valid andb negb].
    change Home.where_available with where_available.
    rewrite car_rows_where_available. fold (featured_available (db w)). reflexivity.
  - apply Forall_fmap, Forall_forall. intros c Hc%paginate_subseteq. cbn.
    split; [|done]. by rewrite merge_sort_Permutation in Hc.
  - rewrite Hcar. etransitivity; [apply sublist_submseteq, paginate_sublist|].
    by rewrite merge_sort_Permutation.
  - rewrite Hcar. eapply StronglySorted_sublist; [apply paginate_sublist|done].
  - rewrite Hcar, length_fmap. remember (default 3 limit) as n eqn:Hn. clear Hn Hrange.
    intros Hl. unfold paginate. cbn [default]. destruct (Z.leb_spec 0 n); [|lia].
    change (Z.to_nat 0) with 0%nat. rewrite drop_0.
    destruct (take_sorted_spec car_newer_first (Z.to_nat n) _ (featured_available (db w))
                Hsorted (merge_sort_Permutation _ _)) as (Hlen & _ & Hnewer).
    split; [rewrite Hlen; lia|].
    intros x c Hx Hc Hnc. by apply (Hnewer x c).
  - rewrite Hcar. remember (default 3 limit) as n eqn:Hn. clear Hn Hrange. intros Hl.
    unfold paginate. cbn [default]. destruct (Z.leb_spec 0 n); [|lia].
    change (Z.to_nat 0) with 0%nat. rewrite drop_0.
    rewrite take_ge; [apply merge_sort_Permutation|].
    rewrite merge_sort_Permutation. lia.
Qed.

Lemma getFeaturedCars_result_witness :
  ∃ result, Home.getFeaturedCars None Sample.featured_world
              = (Normal result, Sample.featured_world)
    ∧ Home.car <$> result ≡ₚ [Sample.showpiece].
Proof.
  destruct (getFeaturedCars_result None Sample.featured_world)
    as (result & Hrun & _ & _ & _ & _ & Hall); [vm_compute; split; discriminate|].
  exists result. split; [exact Hrun|]. apply Hall. vm_compute. discriminate.
Defined.

(** *** The read actions change nothing *)

Lemma mapM_include_car_world l w : (mapM include_car l w).2 = w.
Proof.
  induction l as [|s l IH]; [done|]. cbn [mapM]. run.
  unfold include_car at 1. run.
  destruct (head (filter _ (cars (db w)))); [|done]. cbn.
  destruct (mapM include_car l w) as [[rs|e] w'] eqn:E; cbn in *; by subst.
Qed.

(** X22.  The read actions [getCars], [getCarFilters], [getCarById],
    [getSavedCars], [getUsers] and [getFeaturedCars] leave the world as it
    was, whatever their arguments and whether they return or throw: no
    table row and no revalidated path changes. *)
Theorem reads_leave_world w :
  (∀ p, (getCars p w).2 = w)
  ∧ (getCarFilters w).2 = w
  ∧ (∀ carId, (getCarById carId w).2 = w)
  ∧ (getSavedCars w).2 = w
  ∧ (Settings.getUsers w).2 = w
  ∧ (∀ limit, (Home.getFeaturedCars limit w).2 = w).
Proof.
  split_and!.
  - intros p. rewrite getCars_run.
    by destruct (CarWhereInput_valid _),
      (Int_valid (Some (GetCarsParams.limit_ p)) && Int_valid (Some (skip_of p))),
      (0 <=? skip_of p).
  - by rewrite getCarFilters_run.
  - intros carId.
    destruct (head (filter (λ c, Car.id c = carId) (cars (db w)))) as [car|] eqn:Hc.
    + by destruct (getCarById_found carId w car Hc) as (d & -> & _).
    + by rewrite getCarById_not_found.
  - unfold getSavedCars, db_user_findUnique, db_userSavedCar_findMany_include_car. run.
    destruct (session w) as [userId|]; [|done].
    destruct (head (filter _ (users (db w)))) as [u|]; [|done].
    pose proof (mapM_include_car_world
      (merge_sort saved_newer_first
         (filter (λ s, UserSavedCar.userId s = User.id u) (userSavedCars (db w)))) w) as Hw.
    destruct (mapM include_car _ w) as [[rs|e] w']; cbn in *; by subst.
  - unfold Settings.getUsers, db_user_findUnique, db_user_findMany_newest. run.
    destruct (session w) as [userId|]; [|done].
    by destruct (Settings.is_admin _).
  - intros limit. unfold Home.getFeaturedCars, db_car_findMany_featured. run.
    cbn [where_ skip_ take_ negb].
    change (CarWhereInput_valid Home.where_available) with true. cbn [negb].
    by destruct (Int_valid _ && Int_valid _).
Qed.
